(** * node-logger: level filtering, tag merging and dual-destination fan-out

    A shallow embedding of the two variants of the logger that the
    repository carries:

    - [SingleFn]: [src/index.ts], one [logFunction] per Logger, the built-in
      [allDest0WarnDest1] registered in the [logFunctions] map;
    - [MultiFn]: the variant with a [logFunctions] array and the built-ins
      [LogFunction.defaultText] and [LogFunction.defaultJson] (its compiled
      form is [lib/index.js]).

    Strings are Rocq strings (sequences of 8-bit characters); the level
    tokens, tag names and JSON punctuation the logger inspects are ASCII.
    Node's own services ([util.format], [os.EOL], [process.stdout],
    [process.stderr]) are parameters of the development. *)

From Stdlib Require Import ZArith Ascii List Bool Lia.
From stdpp Require Import base option list strings gmap.

Open Scope Z_scope.
Set Warnings "-register-all".

(** ** Exceptions and the result of a synchronous call *)

Inductive Exn : Type :=
| LoglevelNotSupported (loglevel : string)
    (* checkLoglevel: "Value '%s' for argument loglevel not supported" *)
| LogFunctionNotKnown (name : string)
    (* setLogFunction / setLogFunctions: unknown symbolic name *)
| LogFunctionUnexpectedType
    (* TypeError "The argument 'logFunction' has unexpected type" *)
| DestinationUnexpectedType
    (* TypeError "One of the elements of argument 'destinations' ..." *)
| LogFunctionLoadError (fnName modulePath : string)
    (* tryParseCustomLogFnPath: "Error loading log function" *)
| ConfigFileError (message : string)
    (* parseConfigSync: the file cannot be read or parsed *)
| CreateWriteStreamError (path : string)
    (* fs.createWriteStream refuses the path *)
| InOperatorOnPrimitive
    (* TypeError of the runtime: the right operand of [in] is a primitive *)
| UndefinedAccess.
    (* TypeError of the runtime: a member of [undefined] is used *)

Inductive result (A : Type) : Type :=
| Ok (a : A)
| Throw (e : Exn).
Arguments Ok {A} a.
Arguments Throw {A} e.

Definition rbind {A B} (r : result A) (k : A -> result B) : result B :=
  match r with
  | Ok a => k a
  | Throw e => Throw e
  end.

Notation "'let*' x := r 'in' k" := (rbind r (fun x => k))
  (at level 10, x name, r at level 100, k at level 200, only parsing).
Notation "'let*' ' p := r 'in' k" := (rbind r (fun 'p => k))
  (at level 10, p strict pattern, r at level 100, k at level 200,
   only parsing).

(** ** Strings: [toUpperCase] and [indexOf] *)

Definition upper_ascii (c : ascii) : ascii :=
  let n := nat_of_ascii c in
  if ((97 <=? n)%nat && (n <=? 122)%nat)%bool then ascii_of_nat (n - 32) else c.

(** [String.prototype.toUpperCase] on ASCII text: the letters a to z are
    mapped to A to Z and every other character is kept. A letter outside
    ASCII that JavaScript maps to ASCII capitals is kept as it is. *)
Fixpoint toUpperCase (s : string) : string :=
  match s with
  | EmptyString => EmptyString
  | String c rest => String (upper_ascii c) (toUpperCase rest)
  end.

(** [Array.prototype.indexOf]: the first index whose element is strictly
    equal to the searched value, or -1. [same] is the strict-equality test
    against the searched value. *)
Fixpoint indexOf_from {A : Type} (same : A -> bool) (i : Z) (l : list A) : Z :=
  match l with
  | [] => -1
  | y :: rest => if same y then i else indexOf_from same (i + 1) rest
  end.

Definition indexOf (l : list string) (x : string) : Z :=
  indexOf_from (fun y => String.eqb y x) 0 l.

(** ** Level ordering *)

Module LogLevel.
Definition OFF := "OFF".
Definition ERROR := "ERROR".
Definition WARN := "WARN".
Definition INFO := "INFO".
Definition DEBUG := "DEBUG".
End LogLevel.

(** [Object.keys(LogLevel)]: the keys in insertion order. *)
Definition logLevelNames : list string :=
  [ "OFF"; "ERROR"; "WARN"; "INFO"; "DEBUG" ].

Definition checkLoglevel (loglevel : string) : result unit :=
  if indexOf logLevelNames loglevel =? -1
  then Throw (LoglevelNotSupported loglevel)
  else Ok tt.

Definition isFirstLoglevelGreaterEqualSecond
    (firstLoglevel secondLoglevel : string) : result bool :=
  let firstLoglevel := toUpperCase firstLoglevel in
  let* _ := checkLoglevel firstLoglevel in
  Ok (indexOf logLevelNames firstLoglevel >=? indexOf logLevelNames secondLoglevel).

(** The enumeration of the specification, with its ordering
    OFF < ERROR < WARN < INFO < DEBUG. *)
Inductive Level : Type := OFF | ERROR | WARN | INFO | DEBUG.

Definition position (l : Level) : Z :=
  match l with
  | OFF => 0 | ERROR => 1 | WARN => 2 | INFO => 3 | DEBUG => 4
  end.

Definition token (l : Level) : string :=
  match l with
  | OFF => "OFF" | ERROR => "ERROR" | WARN => "WARN"
  | INFO => "INFO" | DEBUG => "DEBUG"
  end.

Definition all_levels : list Level := [OFF; ERROR; WARN; INFO; DEBUG].

(** A string is a member of the enumeration when it is the token of a level. *)
Definition is_level_token (s : string) : Prop := exists l, token l = s.

(** The level that a token names, if any. *)
Definition level_of (s : string) : option Level :=
  List.find (fun l => String.eqb (token l) s) all_levels.

(** The position of a token as [indexOf] sees it: -1 outside the
    enumeration. *)
Definition position_of (s : string) : Z :=
  match level_of s with
  | Some l => position l
  | None => -1
  end.

(** ** JavaScript values

    The fragment of values that the logger itself inspects: it tests for
    [undefined], for strings, for arrays (in [concat]) and for [Error]
    instances; every other argument only travels to [util.format]. Plain
    objects and [null] are there for the message that is serialised and
    for what [JSON.parse] returns. *)

Inductive JsValue : Type :=
| JsUndefined
| JsNull
| JsString (s : string)
| JsArray (elements : list JsValue)
| JsObject (properties : list (string * JsValue))
| JsError (message stack : string).

(** Strict equality [v === "x"] against a string primitive. *)
Definition same_string (x : string) (v : JsValue) : bool :=
  match v with
  | JsString s => String.eqb s x
  | _ => false
  end.

Definition indexOf_value (l : list JsValue) (x : string) : Z :=
  indexOf_from (same_string x) 0 l.

(** One argument of [Array.prototype.concat]: an array is spread (one
    level), any other value is appended as a single element. *)
Definition concat_arg (v : JsValue) : list JsValue :=
  match v with
  | JsArray l => l
  | _ => [v]
  end.

(** The [tags] parameter as the typed call surface has it:
    [string[] | string]. *)
Inductive Tags : Type :=
| TagString (tag : string)
| TagArray (tags : list string).

Definition tags_value (t : Tags) : JsValue :=
  match t with
  | TagString s => JsString s
  | TagArray l => JsArray (map JsString l)
  end.

Definition tags_list (t : Tags) : list string :=
  match t with
  | TagString s => [s]
  | TagArray l => l
  end.

(** ** JSON text *)

Definition dquote : ascii := "034"%char.
Definition backslash : ascii := "092"%char.
Definition LF : ascii := "010"%char.
Definition CR : ascii := "013"%char.
Definition TAB : ascii := "009"%char.
Definition BS : ascii := "008"%char.
Definition FF : ascii := "012"%char.

Definition str1 (c : ascii) : string := String c EmptyString.

Definition hex_digit (n : nat) : ascii :=
  match n with
  | 0 => "0" | 1 => "1" | 2 => "2" | 3 => "3" | 4 => "4" | 5 => "5"
  | 6 => "6" | 7 => "7" | 8 => "8" | 9 => "9" | 10 => "a" | 11 => "b"
  | 12 => "c" | 13 => "d" | 14 => "e" | _ => "f"
  end%nat%char.

(** One character of [QuoteJSONString]: the two-character escapes, a
    [\u00xx] escape for the other control characters, the character itself
    otherwise. *)
Definition quote_char (c : ascii) : string :=
  let n := nat_of_ascii c in
  if (n =? 8)%nat then String backslash "b"
  else if (n =? 9)%nat then String backslash "t"
  else if (n =? 10)%nat then String backslash "n"
  else if (n =? 12)%nat then String backslash "f"
  else if (n =? 13)%nat then String backslash "r"
  else if (n =? 34)%nat then String backslash (str1 dquote)
  else if (n =? 92)%nat then String backslash (str1 backslash)
  else if (n <? 32)%nat then
    String backslash
      (String "u" (String "0" (String "0"
        (String (hex_digit (n / 16)) (str1 (hex_digit (n mod 16)))))))
  else str1 c.

Fixpoint quote_chars (s : string) : string :=
  match s with
  | EmptyString => EmptyString
  | String c rest => quote_char c +:+ quote_chars rest
  end.

Definition JSON_quote (s : string) : string :=
  String dquote (quote_chars s +:+ str1 dquote).

Fixpoint join (sep : string) (l : list string) : string :=
  match l with
  | [] => ""
  | [x] => x
  | x :: rest => x +:+ sep +:+ join sep rest
  end.

(** [SerializeJSONProperty]: [None] stands for [undefined] (the value has
    no JSON text). In an array such an element is written as [null], in an
    object the property is left out. An [Error] has no enumerable
    property. *)
Fixpoint SerializeJSONProperty (v : JsValue) : option string :=
  match v with
  | JsUndefined => None
  | JsNull => Some "null"
  | JsString s => Some (JSON_quote s)
  | JsArray l =>
      Some ("[" +:+ join ","
                      (map (fun e => default "null" (SerializeJSONProperty e)) l)
            +:+ "]")
  | JsObject ps =>
      Some ("{" +:+ join ","
                      (omap (fun p => match SerializeJSONProperty (snd p) with
                                      | Some t => Some (JSON_quote (fst p) +:+ ":" +:+ t)
                                      | None => None
                                      end) ps)
            +:+ "}")
  | JsError _ _ => Some "{}"
  end.

(** [JSON.stringify(v)] used as a string operand. *)
Definition JSON_stringify (v : JsValue) : string :=
  default "undefined" (SerializeJSONProperty v).

(** *** Reading JSON text back

    [JSON.parse] on the fragment of JSON that the logger writes: objects,
    arrays, strings and [null], with insignificant white space. [None] is
    the SyntaxError. Escapes [\uxxxx] are read for code points below 128. *)

Definition is_ws (c : ascii) : bool :=
  let n := nat_of_ascii c in
  ((n =? 32) || (n =? 9) || (n =? 10) || (n =? 13))%nat.

Fixpoint skip_ws (s : string) : string :=
  match s with
  | String c rest => if is_ws c then skip_ws rest else s
  | EmptyString => EmptyString
  end.

Definition hex_value (c : ascii) : option nat :=
  let n := nat_of_ascii c in
  if ((48 <=? n) && (n <=? 57))%nat then Some (n - 48)%nat
  else if ((97 <=? n) && (n <=? 102))%nat then Some (n - 87)%nat
  else if ((65 <=? n) && (n <=? 70))%nat then Some (n - 55)%nat
  else None.

Definition unicode_escape (h1 h2 h3 h4 : ascii) : option ascii :=
  match hex_value h1, hex_value h2, hex_value h3, hex_value h4 with
  | Some a, Some b, Some c, Some d =>
      let n := (((a * 16 + b) * 16 + c) * 16 + d)%nat in
      if (n <? 128)%nat then Some (ascii_of_nat n) else None
  | _, _, _, _ => None
  end.

Definition cons_char (c : ascii) (r : option (string * string))
  : option (string * string) :=
  match r with
  | Some (s, rest) => Some (String c s, rest)
  | None => None
  end.

(** The characters of a string literal after its opening quote, up to and
    including the closing quote; returns the string and the remaining
    input. *)
Fixpoint parse_chars (s : string) : option (string * string) :=
  match s with
  | EmptyString => None
  | String c rest =>
      if Ascii.eqb c dquote then Some (EmptyString, rest)
      else if Ascii.eqb c backslash then
        match rest with
        | String e rest1 =>
            if Ascii.eqb e dquote then cons_char dquote (parse_chars rest1)
            else if Ascii.eqb e backslash then cons_char backslash (parse_chars rest1)
            else if Ascii.eqb e "/" then cons_char "/" (parse_chars rest1)
            else if Ascii.eqb e "b" then cons_char BS (parse_chars rest1)
            else if Ascii.eqb e "f" then cons_char FF (parse_chars rest1)
            else if Ascii.eqb e "n" then cons_char LF (parse_chars rest1)
            else if Ascii.eqb e "r" then cons_char CR (parse_chars rest1)
            else if Ascii.eqb e "t" then cons_char TAB (parse_chars rest1)
            else if Ascii.eqb e "u" then
              match rest1 with
              | String h1 (String h2 (String h3 (String h4 rest2))) =>
                  match unicode_escape h1 h2 h3 h4 with
                  | Some u => cons_char u (parse_chars rest2)
                  | None => None
                  end
              | _ => None
              end
            else None
        | EmptyString => None
        end
      else if (nat_of_ascii c <? 32)%nat then None
      else cons_char c (parse_chars rest)
  end.

Fixpoint parse_value (fuel : nat) (s : string) : option (JsValue * string) :=
  match fuel with
  | O => None
  | S fuel =>
      match skip_ws s with
      | String c rest =>
          if Ascii.eqb c dquote then
            match parse_chars rest with
            | Some (str, rest1) => Some (JsString str, rest1)
            | None => None
            end
          else if Ascii.eqb c "[" then
            match skip_ws rest with
            | String "]" rest1 => Some (JsArray [], rest1)
            | _ =>
                match parse_elements fuel rest with
                | Some (l, rest1) => Some (JsArray l, rest1)
                | None => None
                end
            end
          else if Ascii.eqb c "{" then
            match skip_ws rest with
            | String "}" rest1 => Some (JsObject [], rest1)
            | _ =>
                match parse_members fuel rest with
                | Some (ps, rest1) => Some (JsObject ps, rest1)
                | None => None
                end
            end
          else if Ascii.eqb c "n" then
            match rest with
            | String "u" (String "l" (String "l" rest1)) => Some (JsNull, rest1)
            | _ => None
            end
          else None
      | EmptyString => None
      end
  end
with parse_elements (fuel : nat) (s : string) : option (list JsValue * string) :=
  match fuel with
  | O => None
  | S fuel =>
      match parse_value fuel s with
      | Some (v, rest) =>
          match skip_ws rest with
          | String "," rest1 =>
              match parse_elements fuel rest1 with
              | Some (l, rest2) => Some (v :: l, rest2)
              | None => None
              end
          | String "]" rest1 => Some ([v], rest1)
          | _ => None
          end
      | None => None
      end
  end
with parse_members (fuel : nat) (s : string)
  : option (list (string * JsValue) * string) :=
  match fuel with
  | O => None
  | S fuel =>
      match skip_ws s with
      | String c rest =>
          if Ascii.eqb c dquote then
            match parse_chars rest with
            | Some (k, rest1) =>
                match skip_ws rest1 with
                | String ":" rest2 =>
                    match parse_value fuel rest2 with
                    | Some (v, rest3) =>
                        match skip_ws rest3 with
                        | String "," rest4 =>
                            match parse_members fuel rest4 with
                            | Some (ps, rest5) => Some ((k, v) :: ps, rest5)
                            | None => None
                            end
                        | String "}" rest4 => Some ([(k, v)], rest4)
                        | _ => None
                        end
                    | None => None
                    end
                | _ => None
                end
            | None => None
            end
          else None
      | EmptyString => None
      end
  end.

Definition JSON_parse (s : string) : option JsValue :=
  match parse_value (String.length s) s with
  | Some (v, rest) =>
      match skip_ws rest with
      | EmptyString => Some v
      | _ => None
      end
  | None => None
  end.

(** Property read [obj.key] on a parsed value: the last property of that
    name. *)
Fixpoint property_of (ps : list (string * JsValue)) (key : string) : option JsValue :=
  match ps with
  | [] => None
  | (k, v) :: rest =>
      match property_of rest key with
      | Some w => Some w
      | None => if String.eqb k key then Some v else None
      end
  end.

Definition get_property (v : JsValue) (key : string) : option JsValue :=
  match v with
  | JsObject ps => property_of ps key
  | _ => None
  end.

(** ** Sinks

    A destination is a stream object. [ref] is the identity of the object
    ([!==] compares it). [isTTY_property] is the [isTTY] property of the
    object: [None] when the object has no such property (own or
    inherited), [Some v] when it has one, [v] telling whether its value is
    truthy. A [tty.WriteStream] of Node sets the property to [true] and
    no other stream of Node defines it; a stream object of the caller may
    define it as it likes. [instanceofWritable] is the outcome of
    [dest instanceof stream.Writable || dest instanceof stream.Transform].
    The chunks that each stream has accepted are kept per [ref]. A write
    accepts the chunk and then calls its completion callback. *)

Record Stream : Type := {
  ref : nat;
  isTTY_property : option bool;
  instanceofWritable : bool;
}.

(** [stream.isTTY || false]: reading a property that the object does not
    have gives [undefined]. *)
Definition isTTY (s : Stream) : bool := default false (isTTY_property s).

(** ["isTTY" in stream]. *)
Definition has_isTTY (s : Stream) : bool :=
  match isTTY_property s with
  | Some _ => true
  | None => false
  end.

Definition written (sinks : gmap nat (list string)) (s : Stream) : list string :=
  default [] (sinks !! ref s).

(** [stream.write(chunk, callback)]. *)
Definition write (s : Stream) (chunk : string) (sinks : gmap nat (list string))
  : gmap nat (list string) :=
  <[ref s := written sinks s ++ [chunk]]> sinks.

(** [stream.write(...)] where [stream] may be [undefined]. *)
Definition write_to (s : option Stream) (chunk : string)
    (sinks : gmap nat (list string)) : result (gmap nat (list string)) :=
  match s with
  | Some s => Ok (write s chunk sinks)
  | None => Throw UndefinedAccess
  end.

(** [a !== b] on two array reads. *)
Definition different (a b : option Stream) : bool :=
  match a, b with
  | Some x, Some y => negb (ref x =? ref y)%nat
  | None, None => false
  | _, _ => true
  end.

(** The chunks a call has added to a stream. *)
Definition added (before after : gmap nat (list string)) (s : Stream) : list string :=
  drop (length (written before s)) (written after s).

(** How a returned promise settles. *)
Inductive Completion : Type :=
| Resolved
| Rejected (e : Exn).

(** [new Promise(executor)]: an exception of the executor rejects the
    promise; nothing has been written by then. *)
Definition promise (sinks : gmap nat (list string))
    (executor : result (gmap nat (list string)))
  : Completion * gmap nat (list string) :=
  match executor with
  | Ok sinks' => (Resolved, sinks')
  | Throw e => (Rejected e, sinks)
  end.

(** ** The Node process *)

Record Process : Type := {
  stdout : Stream;                          (* process.stdout *)
  stderr : Stream;                          (* process.stderr *)
  EOL : string;                             (* os.EOL *)
  util_format : list JsValue -> string;     (* util.format(...args) *)
  (* fs.createWriteStream(path, { flags: "a" }) when n file streams have
     been opened before: the stream object that the call returns, or the
     exception it throws (for a path with a null byte, say); a file that
     cannot be opened is reported later, by an event of the stream *)
  createWriteStream : string -> nat -> result Stream;
}.

(** An element of the [destinations] option: a string, an object with a
    [write] member (a stream), any other object, or a primitive that is
    not a string ([undefined] and [null] included). *)
Inductive Destination : Type :=
| DestString (name : string)
| DestStream (s : Stream)
| DestOther
| DestPrimitive.

(** The arguments of one call of [doLog]. *)
Record Dispatch : Type := {
  d_level : string;
  d_tags : JsValue;
  d_format : JsValue;
  d_optionalParams : list JsValue;
}.

(** [ToString] on the fragment of values; an [Error] is one made by
    [new Error(message)]. *)
Fixpoint ToString (v : JsValue) : string :=
  let fix elements (l : list JsValue) : list string :=
    match l with
    | [] => []
    | e :: rest =>
        match e with
        | JsUndefined | JsNull => ""
        | _ => ToString e
        end :: elements rest
    end in
  match v with
  | JsUndefined => "undefined"
  | JsNull => "null"
  | JsString s => s
  | JsArray l => join "," (elements l)
  | JsObject _ => "[object Object]"
  | JsError m _ => if String.eqb m "" then "Error" else "Error: " +:+ m
  end.

(** [Array.prototype.join]: [undefined] and [null] elements give the
    empty string. *)
Definition Array_join (sep : string) (l : list JsValue) : string :=
  join sep (map (fun e => match e with
                          | JsUndefined | JsNull => ""
                          | _ => ToString e
                          end) l).

(** [customLogFnPath.split(":", 2)]: the text before the first colon, and
    what follows it up to the next colon. *)
Fixpoint before_colon (s : string) : string :=
  match s with
  | EmptyString => EmptyString
  | String c rest => if Ascii.eqb c ":" then EmptyString else String c (before_colon rest)
  end.

Fixpoint after_colon (s : string) : option string :=
  match s with
  | EmptyString => None
  | String c rest => if Ascii.eqb c ":" then Some rest else after_colon rest
  end.

(** The properties of the object that is serialised for a message, in
    order: [isoDate], [level], [tags], [text] and, when the message has
    one, [stack]. *)
Definition message_properties (isoDate level : string) (tags : list JsValue)
    (text : string) (stack : option string) : list (string * JsValue) :=
  [ ("isoDate", JsString isoDate);
    ("level", JsString level);
    ("tags", JsArray tags);
    ("text", JsString text) ]
  ++ match stack with
     | Some s => [ ("stack", JsString s) ]
     | None => []
     end.

(** * Variant [src/index.ts]: one log function per Logger *)

Module SingleFn.

Record Message : Type := {
  isoDate : string;
  level : string;
  tags : list JsValue;
  text : string;
  stack : option string;
}.

(** The message as a JavaScript object: its own enumerable properties in
    creation order. *)
Definition message_value (m : Message) : JsValue :=
  JsObject (message_properties (isoDate m) (level m) (tags m) (text m) (stack m)).

(** A log function: the built-in of this variant, or a callback. *)
Inductive LogFunction : Type :=
| allDest0WarnDest1_fn
| callback (f : Message -> bool -> list Stream -> gmap nat (list string)
                -> Completion * gmap nat (list string)).

(** A value of the [logFunction] option. *)
Inductive LogFunctionOption : Type :=
| FnName (name : string)
| FnValue (f : LogFunction)
| FnOther.

Record LoggerOptions : Type := {
  opt_level : option string;
  opt_destinations : option (list Destination);
  opt_logFunction : option LogFunctionOption;
  opt_tags : option (list string);
}.

Record Logger : Type := {
  lg_level : string;
  lg_tags : list string;
  lg_destinations : list Stream;
  lg_logFunction : LogFunction;
}.

(** The process-wide state of the module: [Logger.instance] and the number
    of file streams opened so far. *)
Record World : Type := {
  instance : option Logger;
  opened : nat;
}.

Definition isTty (writableStream : option Stream) : bool :=
  match writableStream with
  | Some s => isTTY s
  | None => false
  end.

Section WithProcess.
Variable P : Process.

(** The local constant [messageStr] of [allDest0WarnDest1]. *)
Definition messageStr (message : Message) : string :=
  JSON_stringify (message_value message) +:+ EOL P.

Definition allDest0WarnDest1 (message : Message) (shouldBeLogged : bool)
    (destinations : list Stream) (sinks : gmap nat (list string))
  : Completion * gmap nat (list string) :=
  if negb shouldBeLogged then (Resolved, sinks)
  else promise sinks (
    let* atLeastInfo := isFirstLoglevelGreaterEqualSecond (level message) LogLevel.INFO in
    let writeToDest1 :=
      negb atLeastInfo
      && bool_decide (is_Some (destinations !! 1%nat))
      && different (destinations !! 0%nat) (destinations !! 1%nat) in
    let isBothTty := isTty (destinations !! 0%nat) && isTty (destinations !! 1%nat) in
    let writeToDest0 := negb (writeToDest1 && isBothTty) in
    let streamA := if writeToDest1 then destinations !! 1%nat else destinations !! 0%nat in
    let streamB := if writeToDest1 && writeToDest0 then destinations !! 0%nat else None in
    let messageStr := messageStr message in
    let* sinks1 := write_to streamA messageStr sinks in
    match streamB with
    | Some b => Ok (write b messageStr sinks1)
    | None => Ok sinks1
    end).

(** The [logFunctions] map after module initialisation. *)
Definition logFunctions : gmap string LogFunction :=
  <["allDest0WarnDest1" := allDest0WarnDest1_fn]> ∅.

(** The three fields of [defaultOptions]. *)
Definition defaultOptions_level : string := LogLevel.DEBUG.
Definition defaultOptions_destinations : list Destination :=
  [DestStream (stdout P); DestStream (stderr P)].
Definition defaultOptions_logFunction : LogFunctionOption :=
  FnName "allDest0WarnDest1".     (* allDest0WarnDest1.name *)

(** Calling a log function value. *)
Definition call (f : LogFunction) : Message -> bool -> list Stream
    -> gmap nat (list string) -> Completion * gmap nat (list string) :=
  match f with
  | allDest0WarnDest1_fn => allDest0WarnDest1
  | callback g => g
  end.

Definition setLogFunction (logFunction : LogFunctionOption) : result LogFunction :=
  match logFunction with
  | FnName name =>
      match logFunctions !! name with
      | Some f => Ok f
      | None => Throw (LogFunctionNotKnown name)
      end
  | FnValue f => Ok f
  | FnOther => Throw LogFunctionUnexpectedType
  end.

(** The body of the loop of [setDestinations] for one element; [n] counts
    the file streams opened so far. *)
Definition setDestinations_push (dest : Destination) (n : nat)
  : result Stream * nat :=
  match dest with
  | DestString name =>
      if String.eqb name "stdout" then (Ok (stdout P), n)
      else if String.eqb name "stderr" then (Ok (stderr P), n)
      else match createWriteStream P name n with
           | Ok s => (Ok s, S n)
           | Throw e => (Throw e, n)
           end
  | DestStream s =>
      if instanceofWritable s then (Ok s, n)
      else (Throw DestinationUnexpectedType, n)
  | DestOther | DestPrimitive => (Throw DestinationUnexpectedType, n)
  end.

(** The loop of [setDestinations]. The count of file streams opened is
    returned whether the loop completes or throws: the files opened
    before a throw stay opened. *)
Fixpoint setDestinations (destinations : list Destination) (n : nat)
  : result (list Stream) * nat :=
  match destinations with
  | [] => (Ok [], n)
  | dest :: rest =>
      match setDestinations_push dest n with
      | (Ok s, n1) =>
          match setDestinations rest n1 with
          | (Ok l, n2) => (Ok (s :: l), n2)
          | (Throw e, n2) => (Throw e, n2)
          end
      | (Throw e, n1) => (Throw e, n1)
      end
  end.

(** [new Logger(options, tags)]: what the call returns or throws, and the
    state of the module after it. [Logger.instance] is assigned last. *)
Definition new_Logger (options : LoggerOptions) (tags : list string) (w : World)
  : result Logger * World :=
  let level := default defaultOptions_level (opt_level options) in
  let destinations := default defaultOptions_destinations (opt_destinations options) in
  let logFunction := default defaultOptions_logFunction (opt_logFunction options) in
  match checkLoglevel level with
  | Throw e => (Throw e, w)
  | Ok _ =>
      let '(r, n) := setDestinations destinations (opened w) in
      let w1 := {| instance := instance w; opened := n |} in
      match r with
      | Throw e => (Throw e, w1)
      | Ok dests =>
          match setLogFunction logFunction with
          | Throw e => (Throw e, w1)
          | Ok f =>
              let this := {| lg_level := level; lg_tags := tags;
                             lg_destinations := dests; lg_logFunction := f |} in
              (Ok this, {| instance := Some this; opened := n |})
          end
      end
  end.

Definition getOptions (this : Logger) : LoggerOptions := {|
  opt_level := Some (lg_level this);
  opt_destinations := Some (map DestStream (lg_destinations this));
  opt_logFunction := Some (FnValue (lg_logFunction this));
  opt_tags := Some (lg_tags this);
|}.

(** [callerFilename] is what [getCallerFilename()] returns at the call
    site; [config] is what [parseConfigSync(configFilePath)] yields. *)
Definition createFromConfigFile (callerFilename : string)
    (config : result LoggerOptions) (tags : list string) (w : World)
  : result Logger * World :=
  let tagsWithCaller := [callerFilename] ++ tags in
  match instance w with
  | Some inst => new_Logger (getOptions inst) tagsWithCaller w
  | None =>
      match config with
      | Ok options => new_Logger options tagsWithCaller w
      | Throw e => (Throw e, w)
      end
  end.

Definition createFromArguments (callerFilename : string)
    (options : LoggerOptions) (tags : list string) (w : World)
  : result Logger * World :=
  let tagsWithCaller := [callerFilename] ++ tags in
  match instance w with
  | Some inst => new_Logger (getOptions inst) tagsWithCaller w
  | None =>
      new_Logger {| opt_level := opt_level options;
                    opt_destinations := opt_destinations options;
                    opt_logFunction := opt_logFunction options;
                    opt_tags := None |} tagsWithCaller w
  end.

(** The filtering decision of [doLog]. *)
Definition shouldBeLogged (this : Logger) (level : string) (tags : JsValue)
  : result bool :=
  let* verbose := isFirstLoglevelGreaterEqualSecond (lg_level this) level in
  Ok (verbose || (indexOf_value ([] ++ concat_arg tags) "always" >? -1)).

(** The message of [doLog]; [now] is [new Date().toISOString()]. *)
Definition buildMessage (this : Logger) (level : string) (tags format : JsValue)
    (optionalParams : list JsValue) (now : string) : Message :=
  let messageText :=
    if (0 <? length optionalParams)%nat
    then util_format P (format :: optionalParams)
    else util_format P [format] in
  {| isoDate := now;
     level := level;
     tags := map JsString (lg_tags this) ++ concat_arg tags;
     text := messageText;
     stack := match format with
              | JsError _ st => Some st
              | _ => None
              end |}.

Definition doLog (this : Logger) (level : string) (tags format : JsValue)
    (optionalParams : list JsValue) (now : string) (sinks : gmap nat (list string))
  : result (Completion * gmap nat (list string)) :=
  let* shouldBeLogged := shouldBeLogged this level tags in
  let message := buildMessage this level tags format optionalParams now in
  Ok (call (lg_logFunction this) message shouldBeLogged (lg_destinations this) sinks).

Definition dispatch (this : Logger) (d : Dispatch) :=
  doLog this (d_level d) (d_tags d) (d_format d) (d_optionalParams d).

Definition error (this : Logger) (format : JsValue) (optionalParams : list JsValue) :=
  doLog this LogLevel.ERROR (JsArray []) format optionalParams.
Definition error2 (this : Logger) (tags format : JsValue) (optionalParams : list JsValue) :=
  doLog this LogLevel.ERROR tags format optionalParams.
Definition warn (this : Logger) (format : JsValue) (optionalParams : list JsValue) :=
  doLog this LogLevel.WARN (JsArray []) format optionalParams.
Definition warn2 (this : Logger) (tags format : JsValue) (optionalParams : list JsValue) :=
  doLog this LogLevel.WARN tags format optionalParams.
Definition info (this : Logger) (format : JsValue) (optionalParams : list JsValue) :=
  doLog this LogLevel.INFO (JsArray []) format optionalParams.
Definition info2 (this : Logger) (tags format : JsValue) (optionalParams : list JsValue) :=
  doLog this LogLevel.INFO tags format optionalParams.
Definition debug (this : Logger) (format : JsValue) (optionalParams : list JsValue) :=
  doLog this LogLevel.DEBUG (JsArray []) format optionalParams.
Definition debug2 (this : Logger) (tags format : JsValue) (optionalParams : list JsValue) :=
  doLog this LogLevel.DEBUG tags format optionalParams.

(** [typeof arg1 === "string" && logLevelNames.indexOf(arg1) > -1]. *)
Definition level_argument (arg1 : JsValue) : option string :=
  match arg1 with
  | JsString s => if indexOf logLevelNames s >? -1 then Some s else None
  | _ => None
  end.

(** The call of [doLog] that [log(...args)] makes. A parameter that
    receives no argument is [undefined]; the rest parameter takes the
    arguments after the named ones. *)
Definition log_dispatch (args : list JsValue) : Dispatch :=
  let arg1 := nth 0 args JsUndefined in
  let arg2 := nth 1 args JsUndefined in
  let arg3 := drop 2 args in
  match level_argument arg1 with
  | Some lvl =>
      {| d_level := lvl; d_tags := JsArray []; d_format := arg2;
         d_optionalParams := arg3 |}
  | None =>
      let formatArgs :=
        match arg2 with
        | JsUndefined => arg3
        | _ => [arg2] ++ arg3
        end in
      {| d_level := LogLevel.INFO; d_tags := JsArray []; d_format := arg1;
         d_optionalParams := formatArgs |}
  end.

Definition log (this : Logger) (args : list JsValue) :=
  dispatch this (log_dispatch args).

Definition log2_dispatch (args : list JsValue) : Dispatch :=
  let arg1 := nth 0 args JsUndefined in
  let arg2 := nth 1 args JsUndefined in
  let arg3 := nth 2 args JsUndefined in
  let arg4 := drop 3 args in
  match level_argument arg1 with
  | Some lvl =>
      {| d_level := lvl; d_tags := arg2; d_format := arg3;
         d_optionalParams := arg4 |}
  | None =>
      let formatArgs :=
        match arg3 with
        | JsUndefined => arg4
        | _ => [arg3] ++ arg4
        end in
      {| d_level := LogLevel.INFO; d_tags := arg1; d_format := arg2;
         d_optionalParams := formatArgs |}
  end.

Definition log2 (this : Logger) (args : list JsValue) :=
  dispatch this (log2_dispatch args).

Definition isErrorOrVerboser (this : Logger) :=
  isFirstLoglevelGreaterEqualSecond (lg_level this) LogLevel.ERROR.
Definition isWarnOrVerboser (this : Logger) :=
  isFirstLoglevelGreaterEqualSecond (lg_level this) LogLevel.WARN.
Definition isInfoOrVerboser (this : Logger) :=
  isFirstLoglevelGreaterEqualSecond (lg_level this) LogLevel.INFO.
Definition isDebugOrVerboser (this : Logger) :=
  isFirstLoglevelGreaterEqualSecond (lg_level this) LogLevel.DEBUG.

End WithProcess.

End SingleFn.

(** * Variant with a [logFunctions] array, [defaultText] and [defaultJson] *)

Module MultiFn.

(** A [Date], seen through the one method the logger calls. *)
Record Date : Type := { toISOString : string }.

Record Message : Type := {
  date : Date;
  level : string;
  tags : list JsValue;
  text : string;
  stack : option string;
}.

(** [Object.assign({isoDate: isoDate}, message)] followed by
    [delete messageCpy.date]: the properties of the copy, in order. *)
Definition messageCpy (m : Message) : JsValue :=
  JsObject
    (message_properties (toISOString (date m)) (level m) (tags m) (text m) (stack m)).

(** A log function: one of the two members of [LogFunction], or a
    callback. *)
Inductive LogFn : Type :=
| LogFunction_defaultText
| LogFunction_defaultJson
| callback (f : Message -> bool -> list Stream -> gmap nat (list string)
                -> Completion * gmap nat (list string)).

(** [LogFunction.defaultText.name] and [LogFunction.defaultJson.name]. *)
Definition defaultText_name : string := "defaultText".
Definition defaultJson_name : string := "defaultJson".

(** An element of the [logFunctions] option. *)
Inductive LogFnOption : Type :=
| FnName (name : string)
| FnValue (f : LogFn)
| FnOther.

Record LoggerOptions : Type := {
  opt_level : option string;
  opt_destinations : option (list Destination);
  opt_logFunctions : option (list LogFnOption);
  opt_tags : option (list string);
}.

Record Logger : Type := {
  lg_level : string;
  lg_tags : list string;
  lg_destinations : list Stream;
  lg_logFunctions : list LogFn;
}.

Record World : Type := {
  instance : option Logger;
  opened : nat;
}.

(** ["isTTY" in writableStream]; the operator throws on [undefined]. *)
Definition isTty (writableStream : option Stream) : result bool :=
  match writableStream with
  | Some s => Ok (has_isTTY s)
  | None => Throw UndefinedAccess
  end.

(** [Promise.all]: rejected as soon as one member is. *)
Fixpoint Promise_all (l : list Completion) : Completion :=
  match l with
  | [] => Resolved
  | Resolved :: rest => Promise_all rest
  | Rejected e :: _ => Rejected e
  end.

Section WithProcess.
Variable P : Process.

Definition writeToDefaultDestination (messageText level : string)
    (shouldBeLogged : bool) (destinations : list Stream)
    (sinks : gmap nat (list string))
  : Completion * gmap nat (list string) :=
  if negb shouldBeLogged then (Resolved, sinks)
  else promise sinks (
    let* atLeastInfo := isFirstLoglevelGreaterEqualSecond level LogLevel.INFO in
    let writeToDest1 :=
      negb atLeastInfo
      && bool_decide (is_Some (destinations !! 1%nat))
      && different (destinations !! 0%nat) (destinations !! 1%nat) in
    let* tty0 := isTty (destinations !! 0%nat) in
    let* isBothTty := if tty0 then isTty (destinations !! 1%nat) else Ok false in
    let writeToDest0 := negb (writeToDest1 && isBothTty) in
    let streamA := if writeToDest1 then destinations !! 1%nat else destinations !! 0%nat in
    let streamB := if writeToDest1 && writeToDest0 then destinations !! 0%nat else None in
    let* sinks1 := write_to streamA messageText sinks in
    match streamB with
    | Some b => Ok (write b messageText sinks1)
    | None => Ok sinks1
    end).

(** The local constant [messageText] of [defaultText]. *)
Definition defaultText_messageText (message : Message) : string :=
  let isoDate := toISOString (date message) in
  let level5 := String.substring 0 5 (level message +:+ "     ") in
  let tags := Array_join ", " (tags message) in
  let text :=
    match stack message with
    | Some st => if String.eqb st "" then text message
                 else text message +:+ " STACK: " +:+ st
    | None => text message
    end in
  isoDate +:+ " " +:+ level5 +:+ " [" +:+ tags +:+ "] - " +:+ text +:+ EOL P.

Definition defaultText (message : Message) (shouldBeLogged : bool)
    (destinations : list Stream) (sinks : gmap nat (list string))
  : Completion * gmap nat (list string) :=
  let messageText := defaultText_messageText message in
  writeToDefaultDestination messageText (level message) shouldBeLogged destinations sinks.

(** The local constant [messageText] of [defaultJson]. *)
Definition defaultJson_messageText (message : Message) : string :=
  JSON_stringify (messageCpy message) +:+ EOL P.

Definition defaultJson (message : Message) (shouldBeLogged : bool)
    (destinations : list Stream) (sinks : gmap nat (list string))
  : Completion * gmap nat (list string) :=
  let messageText := defaultJson_messageText message in
  writeToDefaultDestination messageText (level message) shouldBeLogged destinations sinks.

Definition call (f : LogFn) : Message -> bool -> list Stream
    -> gmap nat (list string) -> Completion * gmap nat (list string) :=
  match f with
  | LogFunction_defaultText => defaultText
  | LogFunction_defaultJson => defaultJson
  | callback g => g
  end.

(** The three fields of [defaultOptions]. *)
Definition defaultOptions_level : string := LogLevel.DEBUG.
Definition defaultOptions_destinations : list Destination :=
  [DestStream (stdout P); DestStream (stderr P)].
Definition defaultOptions_logFunctions : list LogFnOption :=
  [FnName defaultText_name].

(** [require_export modulePath fnName] stands for
    [require(modulePath2)[fnName]], with [$baseDir] replaced in the
    path: the load may throw, the export may be missing. *)
Variable require_export : string -> string -> result (option LogFn).

Definition tryParseCustomLogFnPath (customLogFnPath : string)
  : result (option LogFn) :=
  match after_colon customLogFnPath with
  | Some rest =>
      let modulePath := before_colon customLogFnPath in
      let fnName := before_colon rest in
      let* export := require_export modulePath fnName in
      match export with
      | Some f => Ok (Some f)
      | None => Throw (LogFunctionLoadError fnName modulePath)
      end
  | None => Ok None
  end.

(** The loop of [setLogFunctions], on an empty [this.logFunctions]. *)
Fixpoint setLogFunctions (logFunctions : list LogFnOption) : result (list LogFn) :=
  match logFunctions with
  | [] => Ok []
  | logFunction :: rest =>
      let* f :=
        match logFunction with
        | FnName name =>
            if String.eqb name defaultText_name then Ok LogFunction_defaultText
            else if String.eqb name defaultJson_name then Ok LogFunction_defaultText
            else
              let* customLogFn := tryParseCustomLogFnPath name in
              match customLogFn with
              | Some f => Ok f
              | None => Throw (LogFunctionNotKnown name)
              end
        | FnValue f => Ok f
        | FnOther => Throw LogFunctionUnexpectedType
        end in
      let* l := setLogFunctions rest in
      Ok (f :: l)
  end.

(** The body of the loop of [setDestinations] for one element. The test
    ["write" in dest] throws on a primitive. *)
Definition setDestinations_push (dest : Destination) (n : nat)
  : result Stream * nat :=
  match dest with
  | DestString name =>
      if String.eqb name "stdout" then (Ok (stdout P), n)
      else if String.eqb name "stderr" then (Ok (stderr P), n)
      else match createWriteStream P name n with
           | Ok s => (Ok s, S n)
           | Throw e => (Throw e, n)
           end
  | DestStream s => (Ok s, n)
  | DestOther => (Throw DestinationUnexpectedType, n)
  | DestPrimitive => (Throw InOperatorOnPrimitive, n)
  end.

Fixpoint setDestinations (destinations : list Destination) (n : nat)
  : result (list Stream) * nat :=
  match destinations with
  | [] => (Ok [], n)
  | dest :: rest =>
      match setDestinations_push dest n with
      | (Ok s, n1) =>
          match setDestinations rest n1 with
          | (Ok l, n2) => (Ok (s :: l), n2)
          | (Throw e, n2) => (Throw e, n2)
          end
      | (Throw e, n1) => (Throw e, n1)
      end
  end.

Definition new_Logger (options : LoggerOptions) (tags : list string) (w : World)
  : result Logger * World :=
  let level := default defaultOptions_level (opt_level options) in
  let destinations := default defaultOptions_destinations (opt_destinations options) in
  let logFunctions := default defaultOptions_logFunctions (opt_logFunctions options) in
  match checkLoglevel level with
  | Throw e => (Throw e, w)
  | Ok _ =>
      let '(r, n) := setDestinations destinations (opened w) in
      let w1 := {| instance := instance w; opened := n |} in
      match r with
      | Throw e => (Throw e, w1)
      | Ok dests =>
          match setLogFunctions logFunctions with
          | Throw e => (Throw e, w1)
          | Ok fns =>
              let this := {| lg_level := level; lg_tags := tags;
                             lg_destinations := dests; lg_logFunctions := fns |} in
              (Ok this, {| instance := Some this; opened := n |})
          end
      end
  end.

Definition getOptions (this : Logger) : LoggerOptions := {|
  opt_level := Some (lg_level this);
  opt_destinations := Some (map DestStream (lg_destinations this));
  opt_logFunctions := Some (map FnValue (lg_logFunctions this));
  opt_tags := Some (lg_tags this);
|}.

Definition createFromConfigFile (callerFilename : string)
    (config : result LoggerOptions) (tags : list string) (w : World)
  : result Logger * World :=
  let tagsWithCaller := [callerFilename] ++ tags in
  match instance w with
  | Some inst => new_Logger (getOptions inst) tagsWithCaller w
  | None =>
      match config with
      | Ok options => new_Logger options tagsWithCaller w
      | Throw e => (Throw e, w)
      end
  end.

Definition createFromArguments (callerFilename : string)
    (options : LoggerOptions) (tags : list string) (w : World)
  : result Logger * World :=
  let tagsWithCaller := [callerFilename] ++ tags in
  match instance w with
  | Some inst => new_Logger (getOptions inst) tagsWithCaller w
  | None =>
      new_Logger {| opt_level := opt_level options;
                    opt_destinations := opt_destinations options;
                    opt_logFunctions := opt_logFunctions options;
                    opt_tags := None |} tagsWithCaller w
  end.

Definition shouldBeLogged (this : Logger) (level : string) (tags : JsValue)
  : result bool :=
  let* verbose := isFirstLoglevelGreaterEqualSecond (lg_level this) level in
  Ok (verbose || (indexOf_value ([] ++ concat_arg tags) "always" >? -1)).

Definition buildMessage (this : Logger) (level : string) (tags format : JsValue)
    (optionalParams : list JsValue) (now : Date) : Message :=
  let messageText :=
    if (0 <? length optionalParams)%nat
    then util_format P (format :: optionalParams)
    else util_format P [format] in
  {| date := now;
     level := level;
     tags := map JsString (lg_tags this) ++ concat_arg tags;
     text := messageText;
     stack := match format with
              | JsError _ st => Some st
              | _ => None
              end |}.

(** The loop over [this.logFunctions]: every function is called with the
    same message, each on the sinks as the previous one left them. *)
Fixpoint callAll (fns : list LogFn) (message : Message) (shouldBeLogged : bool)
    (destinations : list Stream) (sinks : gmap nat (list string))
  : list Completion * gmap nat (list string) :=
  match fns with
  | [] => ([], sinks)
  | logFn :: rest =>
      let '(c, sinks1) := call logFn message shouldBeLogged destinations sinks in
      let '(cs, sinks2) := callAll rest message shouldBeLogged destinations sinks1 in
      (c :: cs, sinks2)
  end.

Definition doLog (this : Logger) (level : string) (tags format : JsValue)
    (optionalParams : list JsValue) (now : Date) (sinks : gmap nat (list string))
  : result (Completion * gmap nat (list string)) :=
  let* shouldBeLogged := shouldBeLogged this level tags in
  let message := buildMessage this level tags format optionalParams now in
  let '(logFnPromises, sinks') :=
    callAll (lg_logFunctions this) message shouldBeLogged (lg_destinations this) sinks in
  Ok (Promise_all logFnPromises, sinks').

Definition dispatch (this : Logger) (d : Dispatch) :=
  doLog this (d_level d) (d_tags d) (d_format d) (d_optionalParams d).

(** [typeof arg1 === "string" && logLevelNames.indexOf(arg1) !== -1]. *)
Definition level_argument (arg1 : JsValue) : option string :=
  match arg1 with
  | JsString s => if indexOf logLevelNames s =? -1 then None else Some s
  | _ => None
  end.

Definition log_dispatch (args : list JsValue) : Dispatch :=
  let arg1 := nth 0 args JsUndefined in
  let arg2 := nth 1 args JsUndefined in
  let arg3 := drop 2 args in
  match level_argument arg1 with
  | Some lvl =>
      {| d_level := lvl; d_tags := JsArray []; d_format := arg2;
         d_optionalParams := arg3 |}
  | None =>
      let formatArgs :=
        match arg2 with
        | JsUndefined => arg3
        | _ => [arg2] ++ arg3
        end in
      {| d_level := LogLevel.INFO; d_tags := JsArray []; d_format := arg1;
         d_optionalParams := formatArgs |}
  end.

Definition log (this : Logger) (args : list JsValue) :=
  dispatch this (log_dispatch args).

Definition log2_dispatch (args : list JsValue) : Dispatch :=
  let arg1 := nth 0 args JsUndefined in
  let arg2 := nth 1 args JsUndefined in
  let arg3 := nth 2 args JsUndefined in
  let arg4 := drop 3 args in
  match level_argument arg1 with
  | Some lvl =>
      {| d_level := lvl; d_tags := arg2; d_format := arg3;
         d_optionalParams := arg4 |}
  | None =>
      let formatArgs :=
        match arg3 with
        | JsUndefined => arg4
        | _ => [arg3] ++ arg4
        end in
      {| d_level := LogLevel.INFO; d_tags := arg1; d_format := arg2;
         d_optionalParams := formatArgs |}
  end.

Definition log2 (this : Logger) (args : list JsValue) :=
  dispatch this (log2_dispatch args).

End WithProcess.

End MultiFn.

(** * Notions of the specification *)

(** The sentinel tag occurs among the tags of the call. *)
Definition has_always (tags : JsValue) : bool :=
  existsb (same_string "always") (concat_arg tags).

(** The sinks after the dual-destination fan-out of [line], for a message
    of level [b] and two first destinations [d0], [d1]. *)
Definition fanned_by (tty : Stream -> bool) (b : Level) (d0 d1 : Stream)
    (line : string) (sinks : gmap nat (list string)) : gmap nat (list string) :=
  if (position b <? position INFO) && negb (ref d0 =? ref d1)%nat
  then if tty d0 && tty d1
       then write d1 line sinks
       else write d0 line (write d1 line sinks)
  else write d0 line sinks.

(** [src/index.ts] takes for a terminal a stream whose [isTTY] is truthy,
    the [logFunctions]-array variant a stream that has the property. *)
Abbreviation fanned := (fanned_by isTTY).
Abbreviation fanned_in := (fanned_by has_isTTY).

(** The built-in log functions of the [logFunctions]-array variant, and the
    line each of them writes. *)
Definition builtin (f : MultiFn.LogFn) : bool :=
  match f with
  | MultiFn.callback _ => false
  | _ => true
  end.

Definition line_of (P : Process) (f : MultiFn.LogFn) (m : MultiFn.Message) : string :=
  match f with
  | MultiFn.LogFunction_defaultJson => MultiFn.defaultJson_messageText P m
  | _ => MultiFn.defaultText_messageText P m
  end.

(** ** Sample data *)

(** A rendering for [util.format] that serves the examples: the arguments
    converted to strings and separated by blanks, which is what Node prints
    when the first argument holds no placeholder. *)
Definition format_plain (args : list JsValue) : string :=
  join " " (map ToString args).

(** The path holds a null byte; [fs.createWriteStream] throws on such a
    path. *)
Fixpoint has_nul (path : string) : bool :=
  match path with
  | EmptyString => false
  | String c rest => (nat_of_ascii c =? 0)%nat || has_nul rest
  end.

(** A POSIX process attached to a terminal. *)
Definition posix : Process := {|
  stdout := {| ref := 1; isTTY_property := Some true; instanceofWritable := true |};
  stderr := {| ref := 2; isTTY_property := Some true; instanceofWritable := true |};
  EOL := str1 LF;
  util_format := format_plain;
  createWriteStream := fun path n =>
    if has_nul path then Throw (CreateWriteStreamError path)
    else Ok {| ref := 100 + n; isTTY_property := None; instanceofWritable := true |};
|}.

(** Two capturing streams, as the test suite creates them. *)
Definition capture0 : Stream :=
  {| ref := 10; isTTY_property := None; instanceofWritable := true |}.
Definition capture1 : Stream :=
  {| ref := 11; isTTY_property := None; instanceofWritable := true |}.

(** Two streams of the caller that define [isTTY] as [false]. *)
Definition quiet0 : Stream :=
  {| ref := 20; isTTY_property := Some false; instanceofWritable := true |}.
Definition quiet1 : Stream :=
  {| ref := 21; isTTY_property := Some false; instanceofWritable := true |}.

Definition sample_logger (level : string) (tags : list string) : SingleFn.Logger := {|
  SingleFn.lg_level := level;
  SingleFn.lg_tags := tags;
  SingleFn.lg_destinations := [capture0; capture1];
  SingleFn.lg_logFunction := SingleFn.allDest0WarnDest1_fn;
|}.

Definition sample_logger_multi (level : string) (tags : list string)
    (fns : list MultiFn.LogFn) : MultiFn.Logger := {|
  MultiFn.lg_level := level;
  MultiFn.lg_tags := tags;
  MultiFn.lg_destinations := [capture0; capture1];
  MultiFn.lg_logFunctions := fns;
|}.

Definition sample_date : MultiFn.Date :=
  {| MultiFn.toISOString := "2016-05-01T15:35:19.997Z" |}.

(** The stream that the fan-out writes first ([streamA]). *)
Definition streamA (b : Level) (d0 d1 : Stream) : Stream :=
  if (position b <? position INFO) && negb (ref d0 =? ref d1)%nat then d1 else d0.

(** The same for destinations of any number: with a single destination
    the fan-out has no second stream to turn to. *)
Definition first_written (b : Level) (dests : list Stream) : option Stream :=
  match dests with
  | [] => None
  | [d0] => Some d0
  | d0 :: d1 :: _ => Some (streamA b d0 d1)
  end.

Fixpoint fanned_all (P : Process) (b : Level) (d0 d1 : Stream)
    (fns : list MultiFn.LogFn) (m : MultiFn.Message)
    (sinks : gmap nat (list string)) : gmap nat (list string) :=
  match fns with
  | [] => sinks
  | f :: rest =>
      fanned_all P b d0 d1 rest m (fanned_in b d0 d1 (line_of P f m) sinks)
  end.

(** The second destination takes the overflow of these levels. *)
Definition to_dest1 (b : Level) : bool :=
  match b with
  | OFF | ERROR | WARN => true
  | INFO | DEBUG => false
  end.

(** One call of a creation operation, and the loggers that a sequence of
    such calls constructs (a call that throws constructs none). *)
Inductive Creation : Type :=
| FromArguments (callerFilename : string) (options : SingleFn.LoggerOptions)
    (tags : list string)
| FromConfigFile (callerFilename : string) (config : result SingleFn.LoggerOptions)
    (tags : list string).

Definition create (P : Process) (c : Creation) (w : SingleFn.World)
  : result SingleFn.Logger * SingleFn.World :=
  match c with
  | FromArguments caller options tags => SingleFn.createFromArguments P caller options tags w
  | FromConfigFile caller config tags => SingleFn.createFromConfigFile P caller config tags w
  end.

Fixpoint create_all (P : Process) (cs : list Creation) (w : SingleFn.World)
  : list SingleFn.Logger :=
  match cs with
  | [] => []
  | c :: rest =>
      match create P c w with
      | (Ok lg, w') => lg :: create_all P rest w'
      | (Throw _, w') => create_all P rest w'
      end
  end.

(** Two loggers with the same level, destinations and log function. *)
Definition same_options (x y : SingleFn.Logger) : Prop :=
  SingleFn.lg_level x = SingleFn.lg_level y
  /\ SingleFn.lg_destinations x = SingleFn.lg_destinations y
  /\ SingleFn.lg_logFunction x = SingleFn.lg_logFunction y.

Definition no_options : SingleFn.LoggerOptions := {|
  SingleFn.opt_level := None;
  SingleFn.opt_destinations := None;
  SingleFn.opt_logFunction := None;
  SingleFn.opt_tags := None;
|}.

Definition json_options : MultiFn.LoggerOptions := {|
  MultiFn.opt_level := None;
  MultiFn.opt_destinations := Some [DestStream capture0; DestStream capture1];
  MultiFn.opt_logFunctions := Some [MultiFn.FnName "defaultJson"];
  MultiFn.opt_tags := None;
|}.

(** Every chunk that [after] holds beyond [before] is the text [line]. *)
Definition only_line (line : string) (before after : gmap nat (list string)) : Prop :=
  forall s : Stream, exists k : nat,
    written after s = written before s ++ repeat line k.

(** * Further notions *)

(** The threshold of each verbosity check. *)
Definition reaches (threshold : Level) (a : Level) : bool :=
  position threshold <=? position a.

(** What [setDestinations] makes of one element of the option:
    [checked] tells whether a stream object must be an instance of
    [stream.Writable] or [stream.Transform] ([src/index.ts]) or not (the
    other variant); the file streams are those opened from the [n]-th
    on, before the [n']-th. *)
Definition resolved_as (P : Process) (checked : bool) (n n' : nat)
    (dest : Destination) (s : Stream) : Prop :=
  match dest with
  | DestString name =>
      if String.eqb name "stdout" then s = stdout P
      else if String.eqb name "stderr" then s = stderr P
      else exists k, (n <= k < n')%nat /\ createWriteStream P name k = Ok s
  | DestStream x => s = x /\ (checked = true -> instanceofWritable x = true)
  | DestOther | DestPrimitive => False
  end.

(** The element is a path of a file to open. *)
Definition is_path (dest : Destination) : bool :=
  match dest with
  | DestString name => negb (String.eqb name "stdout" || String.eqb name "stderr")
  | _ => false
  end.

(** The exception with which [setDestinations] refuses the element for
    what it is, if it does: the TypeError for an unexpected destination,
    or, in the variant that tests ["write" in dest], the TypeError of the
    operator for a primitive. *)
Definition refusal (checked : bool) (dest : Destination) : option Exn :=
  match dest with
  | DestString _ => None
  | DestStream x =>
      if checked && negb (instanceofWritable x)
      then Some DestinationUnexpectedType else None
  | DestOther => Some DestinationUnexpectedType
  | DestPrimitive =>
      Some (if checked then DestinationUnexpectedType else InOperatorOnPrimitive)
  end.

(** How [setDestinations] fails at the element [bad] when [n] file streams
    have been opened: the element is refused for what it is, or it is a
    path on which [fs.createWriteStream] throws. *)
Definition fails_at (P : Process) (checked : bool) (n : nat) (bad : Destination)
    (e : Exn) : Prop :=
  refusal checked bad = Some e
  \/ exists path, bad = DestString path /\ is_path bad = true
                  /\ createWriteStream P path n = Throw e.

(** What a built-in log function that is told to log does with a line,
    for destinations of any number: [None] when its promise is rejected.
    [guarded] tells whether the terminal test reads the value of [isTTY]
    and guards against a missing stream ([src/index.ts]) or tests the
    presence of the property without a guard (the other variant, whose
    test throws on the missing second destination when the first has the
    property). *)
Definition delivered (guarded : bool) (b : Level) (dests : list Stream)
    (line : string) (sinks : gmap nat (list string))
  : option (gmap nat (list string)) :=
  match dests with
  | [] => None
  | [d0] => if negb guarded && has_isTTY d0 then None else Some (write d0 line sinks)
  | d0 :: d1 :: _ =>
      Some (fanned_by (if guarded then isTTY else has_isTTY) b d0 d1 line sinks)
  end.

(** The text holds no control character (code below 32), hence no line
    break. *)
Fixpoint no_control (s : string) : bool :=
  match s with
  | EmptyString => true
  | String c rest => (32 <=? nat_of_ascii c)%nat && no_control rest
  end.

(** The level column of the text format. *)
Definition level_column (b : Level) : string :=
  match b with
  | OFF => "OFF  " | ERROR => "ERROR" | WARN => "WARN "
  | INFO => "INFO " | DEBUG => "DEBUG"
  end.

(** The state of the module after a sequence of creation operations. *)
Fixpoint create_world (P : Process) (cs : list Creation) (w : SingleFn.World)
  : SingleFn.World :=
  match cs with
  | [] => w
  | c :: rest =>
      match create P c w with
      | (_, w') => create_world P rest w'
      end
  end.

(** How [setLogFunctions] comes to register the function [f] for one
    element of the option: a function value is taken as it is; both
    built-in names stand for [LogFunction.defaultText]; any other name is
    cut at its first colon into a module path and, up to the next colon if
    there is one, the name of an export of that module, which is [f]. *)
Definition registered_as
    (require_export : string -> string -> result (option MultiFn.LogFn))
    (o : MultiFn.LogFnOption) (f : MultiFn.LogFn) : Prop :=
  match o with
  | MultiFn.FnName name =>
      ((name = MultiFn.defaultText_name \/ name = MultiFn.defaultJson_name)
       /\ f = MultiFn.LogFunction_defaultText)
      \/ (name <> MultiFn.defaultText_name
          /\ name <> MultiFn.defaultJson_name
          /\ exists modulePath fnName tail : string,
               name = modulePath +:+ (String ":" (fnName +:+ tail))
               /\ after_colon modulePath = None
               /\ after_colon fnName = None
               /\ (tail = "" \/ exists t, tail = String ":" t)
               /\ require_export modulePath fnName = Ok (Some f))
  | MultiFn.FnValue g => f = g
  | MultiFn.FnOther => False
  end.

(** * Properties *)

(** ** Level ordering *)

Lemma indexOf_from_lower {A} (same : A -> bool) (l : list A) (i : Z) :
  indexOf_from same i l = -1 \/ i <= indexOf_from same i l.
Proof.
  revert i. induction l as [|y rest IH]; intros i; simpl.
  - left; reflexivity.
  - destruct (same y).
    + right. lia.
    + destruct (IH (i + 1)) as [H|H]; [left; exact H | right; lia].
Qed.

Lemma indexOf_from_existsb {A} (same : A -> bool) (l : list A) (i : Z) :
  0 <= i -> (indexOf_from same i l >? -1) = existsb same l.
Proof.
  revert i. induction l as [|y rest IH]; intros i Hi; simpl.
  - reflexivity.
  - destruct (same y); simpl.
    + apply Z.gtb_lt. lia.
    + apply IH. lia.
Qed.

Lemma indexOf_from_missing {A} (same : A -> bool) (l : list A) (i : Z) :
  0 <= i -> existsb same l = false -> indexOf_from same i l = -1.
Proof.
  intros Hi H. rewrite <- (indexOf_from_existsb same l i Hi) in H.
  destruct (indexOf_from_lower same l i) as [E|E]; [exact E|].
  rewrite Z.gtb_ltb in H. apply Z.ltb_ge in H. lia.
Qed.

Lemma level_of_token (l : Level) : level_of (token l) = Some l.
Proof. destruct l; reflexivity. Qed.

Lemma level_of_Some (s : string) (l : Level) : level_of s = Some l -> token l = s.
Proof.
  unfold level_of. intros H. apply List.find_some in H as [_ H].
  apply String.eqb_eq. exact H.
Qed.

Lemma level_of_None (s : string) : level_of s = None -> ~ is_level_token s.
Proof.
  intros H [l <-]. rewrite level_of_token in H. discriminate.
Qed.

Lemma is_level_token_level_of (s : string) :
  is_level_token s <-> exists l, level_of s = Some l.
Proof.
  split.
  - intros [l <-]. exists l. apply level_of_token.
  - intros [l H]. exists l. apply level_of_Some. exact H.
Qed.

Lemma indexOf_token (l : Level) : indexOf logLevelNames (token l) = position l.
Proof. destruct l; reflexivity. Qed.

Lemma indexOf_logLevelNames (s : string) :
  indexOf logLevelNames s = position_of s.
Proof.
  unfold position_of. destruct (level_of s) as [l|] eqn:E.
  - apply level_of_Some in E. subst s. apply indexOf_token.
  - unfold indexOf. apply indexOf_from_missing; [lia|].
    simpl.
    assert (H : forall l, String.eqb (token l) s = false).
    { intros l. destruct (String.eqb (token l) s) eqn:E1; [|reflexivity].
      apply String.eqb_eq in E1. exfalso.
      apply (level_of_None s E). exists l. exact E1. }
    pose proof (H OFF) as H0. pose proof (H ERROR) as H1.
    pose proof (H WARN) as H2. pose proof (H INFO) as H3.
    pose proof (H DEBUG) as H4. simpl in H0, H1, H2, H3, H4.
    rewrite H0, H1, H2, H3, H4. reflexivity.
Qed.

Lemma position_nonneg (l : Level) : 0 <= position l.
Proof. destruct l; simpl; lia. Qed.

Lemma checkLoglevel_level_of (s : string) :
  checkLoglevel s
  = match level_of s with
    | Some _ => Ok tt
    | None => Throw (LoglevelNotSupported s)
    end.
Proof.
  unfold checkLoglevel. rewrite indexOf_logLevelNames. unfold position_of.
  destruct (level_of s) as [l|]; [|reflexivity].
  pose proof (position_nonneg l).
  destruct (position l =? -1) eqn:E; [|reflexivity].
  apply Z.eqb_eq in E. lia.
Qed.

Lemma toUpperCase_token (l : Level) : toUpperCase (token l) = token l.
Proof. destruct l; reflexivity. Qed.

Lemma isFirst_position (L1 L2 : string) :
  isFirstLoglevelGreaterEqualSecond L1 L2
  = match level_of (toUpperCase L1) with
    | Some a => Ok (position a >=? position_of L2)
    | None => Throw (LoglevelNotSupported (toUpperCase L1))
    end.
Proof.
  unfold isFirstLoglevelGreaterEqualSecond.
  rewrite checkLoglevel_level_of, !indexOf_logLevelNames.
  unfold position_of at 1.
  destruct (level_of (toUpperCase L1)); reflexivity.
Qed.

Lemma isFirst_levels (a b : Level) (L1 : string) :
  toUpperCase L1 = token a ->
  isFirstLoglevelGreaterEqualSecond L1 (token b) = Ok (position a >=? position b).
Proof.
  intros H. rewrite isFirst_position, H, level_of_token.
  unfold position_of. rewrite level_of_token. reflexivity.
Qed.

(** C1 (as stated, refuted): with a valid first token, a second token
    outside the enumeration does not make the comparison fail; it returns
    [true]. *)
Lemma isFirst_second_token_unchecked :
  level_of "TRACE" = None
  /\ isFirstLoglevelGreaterEqualSecond "INFO" "TRACE" = Ok true
  /\ isFirstLoglevelGreaterEqualSecond "debug" "info" = Ok true.
Proof. repeat split. Qed.

(** C1 (amended): the comparison fails exactly when the first token, once
    uppercased, is outside the enumeration; otherwise it returns whether the
    position of the first token in OFF < ERROR < WARN < INFO < DEBUG is at
    least the position of the second, where a second token outside the
    enumeration (it is neither uppercased nor checked) counts as position
    -1, so that the answer is then [true]. *)
Theorem isFirstLoglevelGreaterEqualSecond_spec (L1 L2 : string) :
  isFirstLoglevelGreaterEqualSecond L1 L2
  = match level_of (toUpperCase L1), level_of L2 with
    | Some a, Some b => Ok (position a >=? position b)
    | Some a, None => Ok true
    | None, _ => Throw (LoglevelNotSupported (toUpperCase L1))
    end.
Proof.
  rewrite isFirst_position. unfold position_of.
  destruct (level_of (toUpperCase L1)) as [a|]; [|reflexivity].
  destruct (level_of L2) as [b|]; [reflexivity|].
  f_equal. pose proof (position_nonneg a). apply Z.geb_le. lia.
Qed.

(** ** Sinks *)

Lemma written_write_same (s : Stream) (chunk : string) (sinks : gmap nat (list string)) :
  written (write s chunk sinks) s = written sinks s ++ [chunk].
Proof. unfold write, written at 1. rewrite lookup_insert_eq. reflexivity. Qed.

Lemma written_write_other (s t : Stream) (chunk : string)
    (sinks : gmap nat (list string)) :
  ref s <> ref t -> written (write s chunk sinks) t = written sinks t.
Proof.
  intros H. unfold write, written at 1.
  rewrite lookup_insert_ne by exact H. reflexivity.
Qed.

Lemma added_same (sinks : gmap nat (list string)) (s : Stream) :
  added sinks sinks s = [].
Proof. unfold added. apply drop_all. Qed.

Lemma added_app (before after : gmap nat (list string)) (s : Stream) (l : list string) :
  written after s = written before s ++ l -> added before after s = l.
Proof. intros H. unfold added. rewrite H. apply drop_app_length. Qed.

Lemma added_unchanged (before after : gmap nat (list string)) (s : Stream) :
  written after s = written before s -> added before after s = [].
Proof. intros H. apply added_app. rewrite H, app_nil_r. reflexivity. Qed.

Lemma Z_geb_negb_ltb (x y : Z) : negb (x >=? y) = (x <? y).
Proof.
  rewrite Z.geb_leb. destruct (Z.leb_spec y x), (Z.ltb_spec x y); simpl; lia.
Qed.

Lemma allDest0WarnDest1_fanned (P : Process) (m : SingleFn.Message) (b : Level)
    (d0 d1 : Stream) (rest : list Stream) (sinks : gmap nat (list string)) :
  toUpperCase (SingleFn.level m) = token b ->
  SingleFn.allDest0WarnDest1 P m true (d0 :: d1 :: rest) sinks
  = (Resolved,
     fanned b d0 d1 (SingleFn.messageStr P m) sinks).
Proof.
  intros Hb. unfold SingleFn.allDest0WarnDest1, fanned_by. simpl negb. cbv iota.
  generalize (SingleFn.messageStr P m). intros line.
  change LogLevel.INFO with (token INFO).
  rewrite (isFirst_levels b INFO _ Hb). simpl rbind.
  change ((d0 :: d1 :: rest) !! 1%nat) with (Some d1).
  change ((d0 :: d1 :: rest) !! 0%nat) with (Some d0).
  change (position INFO) with 3. rewrite !Z_geb_negb_ltb.
  destruct (position b <? 3), (ref d0 =? ref d1)%nat,
    (isTTY d0), (isTTY d1); reflexivity.
Qed.

Lemma writeToDefaultDestination_fanned (text level : string)
    (b : Level) (d0 d1 : Stream) (rest : list Stream)
    (sinks : gmap nat (list string)) :
  toUpperCase level = token b ->
  MultiFn.writeToDefaultDestination text level true (d0 :: d1 :: rest) sinks
  = (Resolved, fanned_in b d0 d1 text sinks).
Proof.
  intros Hb. unfold MultiFn.writeToDefaultDestination, fanned_by. simpl negb. cbv iota.
  change LogLevel.INFO with (token INFO).
  rewrite (isFirst_levels b INFO _ Hb). simpl rbind.
  change ((d0 :: d1 :: rest) !! 1%nat) with (Some d1).
  change ((d0 :: d1 :: rest) !! 0%nat) with (Some d0).
  change (position INFO) with 3. rewrite !Z_geb_negb_ltb.
  destruct (position b <? 3), (ref d0 =? ref d1)%nat,
    (has_isTTY d0), (has_isTTY d1); reflexivity.
Qed.

(** What each of the two first destinations receives. *)
Lemma fanned_dest1 (tty : Stream -> bool) (b : Level) (d0 d1 : Stream) (line : string)
    (sinks : gmap nat (list string)) :
  ref d0 <> ref d1 ->
  written (fanned_by tty b d0 d1 line sinks) d1
  = written sinks d1 ++ (if position b <? position INFO then [line] else []).
Proof.
  intros Hne. unfold fanned_by.
  apply Nat.eqb_neq in Hne as Hneb. rewrite Hneb. simpl negb. rewrite andb_true_r.
  destruct (position b <? position INFO).
  - destruct (tty d0 && tty d1).
    + apply written_write_same.
    + rewrite written_write_other by exact Hne. apply written_write_same.
  - rewrite written_write_other by exact Hne. rewrite app_nil_r. reflexivity.
Qed.

Lemma fanned_dest0 (tty : Stream -> bool) (b : Level) (d0 d1 : Stream) (line : string)
    (sinks : gmap nat (list string)) :
  ref d0 <> ref d1 ->
  written (fanned_by tty b d0 d1 line sinks) d0
  = written sinks d0
    ++ (if (position b <? position INFO) && (tty d0 && tty d1) then [] else [line]).
Proof.
  intros Hne. unfold fanned_by.
  apply Nat.eqb_neq in Hne as Hneb. rewrite Hneb. simpl negb. rewrite andb_true_r.
  destruct (position b <? position INFO); rewrite ?andb_true_l, ?andb_false_l.
  - destruct (tty d0 && tty d1).
    + rewrite written_write_other by (intros E; apply Hne; symmetry; exact E).
      rewrite app_nil_r. reflexivity.
    + rewrite written_write_same.
      rewrite written_write_other by (intros E; apply Hne; symmetry; exact E).
      reflexivity.
  - apply written_write_same.
Qed.

Lemma fanned_same_ref (tty : Stream -> bool) (b : Level) (d0 d1 : Stream) (line : string)
    (sinks : gmap nat (list string)) :
  ref d0 = ref d1 ->
  fanned_by tty b d0 d1 line sinks = write d0 line sinks.
Proof.
  intros E. unfold fanned_by. apply Nat.eqb_eq in E. rewrite E.
  simpl negb. rewrite andb_false_r. reflexivity.
Qed.

Lemma fanned_other (tty : Stream -> bool) (b : Level) (d0 d1 s : Stream) (line : string)
    (sinks : gmap nat (list string)) :
  ref s <> ref d0 -> ref s <> ref d1 ->
  written (fanned_by tty b d0 d1 line sinks) s = written sinks s.
Proof.
  intros H0 H1. unfold fanned_by.
  destruct ((position b <? position INFO) && negb (ref d0 =? ref d1)%nat);
    [destruct (tty d0 && tty d1)|];
    repeat (rewrite written_write_other
              by congruence);
    reflexivity.
Qed.

(** ** The filtering decision *)

Lemma has_always_indexOf (tags : JsValue) :
  (indexOf_value ([] ++ concat_arg tags) "always" >? -1) = has_always tags.
Proof. unfold indexOf_value, has_always. apply indexOf_from_existsb. lia. Qed.

Lemma shouldBeLogged_spec (this : SingleFn.Logger) (level : string) (tags : JsValue) :
  SingleFn.shouldBeLogged this level tags
  = match level_of (toUpperCase (SingleFn.lg_level this)) with
    | Some a => Ok ((position a >=? position_of level) || has_always tags)
    | None => Throw (LoglevelNotSupported (toUpperCase (SingleFn.lg_level this)))
    end.
Proof.
  unfold SingleFn.shouldBeLogged. rewrite isFirst_position, has_always_indexOf.
  destruct (level_of (toUpperCase (SingleFn.lg_level this))); reflexivity.
Qed.

Lemma shouldBeLogged_multi_spec (this : MultiFn.Logger) (level : string) (tags : JsValue) :
  MultiFn.shouldBeLogged this level tags
  = match level_of (toUpperCase (MultiFn.lg_level this)) with
    | Some a => Ok ((position a >=? position_of level) || has_always tags)
    | None => Throw (LoglevelNotSupported (toUpperCase (MultiFn.lg_level this)))
    end.
Proof.
  unfold MultiFn.shouldBeLogged. rewrite isFirst_position, has_always_indexOf.
  destruct (level_of (toUpperCase (MultiFn.lg_level this))); reflexivity.
Qed.

Lemma position_of_token (b : Level) : position_of (token b) = position b.
Proof. unfold position_of. rewrite level_of_token. reflexivity. Qed.

(** A built-in log function that is told not to log returns at once. *)
Lemma callAll_not_logged (P : Process) (fns : list MultiFn.LogFn)
    (m : MultiFn.Message) (dests : list Stream) (sinks : gmap nat (list string)) :
  forallb builtin fns = true ->
  MultiFn.callAll P fns m false dests sinks
  = (repeat Resolved (length fns), sinks).
Proof.
  induction fns as [|f fns IH]; intros H.
  - reflexivity.
  - simpl in H. apply andb_prop in H as [Hf Hfns].
    assert (Hcall : MultiFn.call P f m false dests sinks = (Resolved, sinks))
      by (destruct f; [reflexivity | reflexivity | discriminate]).
    cbn [MultiFn.callAll]. rewrite Hcall, (IH Hfns). reflexivity.
Qed.

Lemma Promise_all_Resolved (n : nat) : MultiFn.Promise_all (repeat Resolved n) = Resolved.
Proof. induction n; simpl; auto. Qed.

Lemma doLog_filtered (P : Process) (this : SingleFn.Logger) (a b : Level)
    (tags format : JsValue) (optionalParams : list JsValue) (now : string)
    (sinks : gmap nat (list string)) :
  level_of (toUpperCase (SingleFn.lg_level this)) = Some a ->
  position a < position b ->
  has_always tags = false ->
  SingleFn.lg_logFunction this = SingleFn.allDest0WarnDest1_fn ->
  SingleFn.doLog P this (token b) tags format optionalParams now sinks
  = Ok (Resolved, sinks).
Proof.
  intros Ha Hlt Htags Hfn. unfold SingleFn.doLog.
  rewrite shouldBeLogged_spec, Ha, position_of_token, Htags, Hfn.
  replace (position a >=? position b) with false
    by (symmetry; rewrite Z.geb_leb; apply Z.leb_gt; exact Hlt).
  reflexivity.
Qed.

Lemma doLog_multi_filtered (P : Process) (this : MultiFn.Logger) (a b : Level)
    (tags format : JsValue) (optionalParams : list JsValue) (now : MultiFn.Date)
    (sinks : gmap nat (list string)) :
  level_of (toUpperCase (MultiFn.lg_level this)) = Some a ->
  position a < position b ->
  has_always tags = false ->
  forallb builtin (MultiFn.lg_logFunctions this) = true ->
  MultiFn.doLog P this (token b) tags format optionalParams now sinks
  = Ok (Resolved, sinks).
Proof.
  intros Ha Hlt Htags Hfns. unfold MultiFn.doLog.
  rewrite shouldBeLogged_multi_spec, Ha, position_of_token, Htags.
  replace (position a >=? position b) with false
    by (symmetry; rewrite Z.geb_leb; apply Z.leb_gt; exact Hlt).
  simpl rbind. rewrite (callAll_not_logged P _ _ _ _ Hfns), Promise_all_Resolved.
  reflexivity.
Qed.

(** C2 (as stated, refuted): an ERROR message is strictly less verbose than
    the level INFO of the logger and carries no tag, and yet it is written,
    to both capturing streams. *)
Lemma less_verbose_message_is_written :
  position ERROR < position INFO
  /\ has_always (JsArray []) = false
  /\ exists sinks',
       SingleFn.doLog posix (sample_logger "INFO" []) "ERROR" (JsArray [])
         (JsString "boom") [] "2016-05-01T15:35:19.997Z" ∅
       = Ok (Resolved, sinks')
       /\ length (written sinks' capture0) = 1%nat
       /\ length (written sinks' capture1) = 1%nat.
Proof.
  split; [reflexivity|]. split; [reflexivity|].
  eexists. split; [vm_compute; reflexivity|]. split; vm_compute; reflexivity.
Qed.

(** C2 (amended): a call whose level is strictly MORE verbose than the
    level of the logger, and whose own tags do not contain "always", writes
    nothing: the built-in log functions are called with [shouldBeLogged]
    false and resolve at once, so the contents of every destination are
    those from before the call. *)
Theorem more_verbose_message_writes_nothing (P : Process) (a b : Level)
    (tags format : JsValue) (optionalParams : list JsValue)
    (sinks : gmap nat (list string)) :
  position a < position b ->
  has_always tags = false ->
  (forall (this : SingleFn.Logger) (now : string),
      level_of (toUpperCase (SingleFn.lg_level this)) = Some a ->
      SingleFn.lg_logFunction this = SingleFn.allDest0WarnDest1_fn ->
      SingleFn.doLog P this (token b) tags format optionalParams now sinks
      = Ok (Resolved, sinks))
  /\ (forall (this : MultiFn.Logger) (now : MultiFn.Date),
      level_of (toUpperCase (MultiFn.lg_level this)) = Some a ->
      forallb builtin (MultiFn.lg_logFunctions this) = true ->
      MultiFn.doLog P this (token b) tags format optionalParams now sinks
      = Ok (Resolved, sinks)).
Proof.
  intros Hlt Htags. split.
  - intros this now Ha Hfn. eapply doLog_filtered; eassumption.
  - intros this now Ha Hfns. eapply doLog_multi_filtered; eassumption.
Qed.

Lemma more_verbose_message_writes_nothing_witness :
  position INFO < position DEBUG
  /\ has_always (JsArray [JsString "mytag"]) = false
  /\ SingleFn.doLog posix (sample_logger "INFO" []) "DEBUG"
       (JsArray [JsString "mytag"]) (JsString "skip") []
       "2016-05-01T15:35:19.997Z" ∅
     = Ok (Resolved, ∅)
  /\ MultiFn.doLog posix
       (sample_logger_multi "info" []
          [MultiFn.LogFunction_defaultText; MultiFn.LogFunction_defaultJson])
       "DEBUG" (JsArray [JsString "mytag"]) (JsString "skip") [] sample_date ∅
     = Ok (Resolved, ∅).
Proof.
  assert (H1 : position INFO < position DEBUG) by reflexivity.
  assert (H2 : has_always (JsArray [JsString "mytag"]) = false) by reflexivity.
  pose proof (more_verbose_message_writes_nothing posix INFO DEBUG
                (JsArray [JsString "mytag"]) (JsString "skip") [] ∅ H1 H2)
    as [HS HM].
  split; [exact H1|]. split; [exact H2|]. split.
  - apply (HS (sample_logger "INFO" [])); reflexivity.
  - apply (HM (sample_logger_multi "info" []
                 [MultiFn.LogFunction_defaultText; MultiFn.LogFunction_defaultJson]));
      reflexivity.
Defined.

(** ** Calls that are logged *)

Lemma to_dest1_position (b : Level) : (position b <? position INFO) = to_dest1 b.
Proof. destruct b; reflexivity. Qed.

Lemma fanned_streamA (tty : Stream -> bool) (b : Level) (d0 d1 : Stream) (line : string)
    (sinks : gmap nat (list string)) :
  written (fanned_by tty b d0 d1 line sinks) (streamA b d0 d1)
  = written sinks (streamA b d0 d1) ++ [line].
Proof.
  unfold fanned_by, streamA.
  destruct ((position b <? position INFO) && negb (ref d0 =? ref d1)%nat) eqn:E.
  - apply andb_prop in E as [_ E]. apply negb_true_iff, Nat.eqb_neq in E.
    destruct (tty d0 && tty d1).
    + apply written_write_same.
    + rewrite written_write_other by exact E. apply written_write_same.
  - apply written_write_same.
Qed.

Lemma call_builtin_logged (P : Process) (f : MultiFn.LogFn) (m : MultiFn.Message)
    (b : Level) (d0 d1 : Stream) (rest : list Stream)
    (sinks : gmap nat (list string)) :
  builtin f = true ->
  toUpperCase (MultiFn.level m) = token b ->
  MultiFn.call P f m true (d0 :: d1 :: rest) sinks
  = (Resolved, fanned_in b d0 d1 (line_of P f m) sinks).
Proof.
  intros Hf Hb. destruct f; [| |discriminate]; simpl;
    unfold MultiFn.defaultText, MultiFn.defaultJson;
    apply writeToDefaultDestination_fanned; exact Hb.
Qed.

Lemma callAll_logged (P : Process) (fns : list MultiFn.LogFn) (m : MultiFn.Message)
    (b : Level) (d0 d1 : Stream) (rest : list Stream)
    (sinks : gmap nat (list string)) :
  forallb builtin fns = true ->
  toUpperCase (MultiFn.level m) = token b ->
  MultiFn.callAll P fns m true (d0 :: d1 :: rest) sinks
  = (repeat Resolved (length fns), fanned_all P b d0 d1 fns m sinks).
Proof.
  intros Hfns Hb. revert sinks.
  induction fns as [|f fns IH]; intros sinks.
  - reflexivity.
  - simpl in Hfns. apply andb_prop in Hfns as [Hf Hfns].
    cbn [MultiFn.callAll].
    rewrite (call_builtin_logged P f m b d0 d1 rest sinks Hf Hb), (IH Hfns).
    reflexivity.
Qed.

Lemma fanned_all_streamA (P : Process) (b : Level) (d0 d1 : Stream)
    (fns : list MultiFn.LogFn) (m : MultiFn.Message)
    (sinks : gmap nat (list string)) :
  written (fanned_all P b d0 d1 fns m sinks) (streamA b d0 d1)
  = written sinks (streamA b d0 d1) ++ map (fun f => line_of P f m) fns.
Proof.
  revert sinks. induction fns as [|f fns IH]; intros sinks; simpl.
  - rewrite app_nil_r. reflexivity.
  - rewrite IH, fanned_streamA, <- app_assoc. reflexivity.
Qed.

Lemma doLog_logged (P : Process) (this : SingleFn.Logger) (a b : Level)
    (tags format : JsValue) (optionalParams : list JsValue) (now : string)
    (d0 d1 : Stream) (rest : list Stream) (sinks : gmap nat (list string)) :
  level_of (toUpperCase (SingleFn.lg_level this)) = Some a ->
  (position a >=? position b) || has_always tags = true ->
  SingleFn.lg_logFunction this = SingleFn.allDest0WarnDest1_fn ->
  SingleFn.lg_destinations this = d0 :: d1 :: rest ->
  SingleFn.doLog P this (token b) tags format optionalParams now sinks
  = Ok (Resolved,
        fanned b d0 d1
          (SingleFn.messageStr P
             (SingleFn.buildMessage P this (token b) tags format optionalParams now))
          sinks).
Proof.
  intros Ha Hlog Hfn Hd. unfold SingleFn.doLog.
  rewrite shouldBeLogged_spec, Ha, position_of_token, Hlog, Hfn, Hd.
  simpl rbind. simpl SingleFn.call.
  rewrite (allDest0WarnDest1_fanned P _ b); [reflexivity|].
  apply toUpperCase_token.
Qed.

Lemma doLog_multi_logged (P : Process) (this : MultiFn.Logger) (a b : Level)
    (tags format : JsValue) (optionalParams : list JsValue) (now : MultiFn.Date)
    (d0 d1 : Stream) (rest : list Stream) (sinks : gmap nat (list string)) :
  level_of (toUpperCase (MultiFn.lg_level this)) = Some a ->
  (position a >=? position b) || has_always tags = true ->
  forallb builtin (MultiFn.lg_logFunctions this) = true ->
  MultiFn.lg_destinations this = d0 :: d1 :: rest ->
  MultiFn.doLog P this (token b) tags format optionalParams now sinks
  = Ok (Resolved,
        fanned_all P b d0 d1 (MultiFn.lg_logFunctions this)
          (MultiFn.buildMessage P this (token b) tags format optionalParams now)
          sinks).
Proof.
  intros Ha Hlog Hfns Hd. unfold MultiFn.doLog.
  rewrite shouldBeLogged_multi_spec, Ha, position_of_token, Hlog, Hd.
  simpl rbind.
  rewrite (callAll_logged P _
             (MultiFn.buildMessage P this (token b) tags format optionalParams now)
             b d0 d1 rest sinks Hfns (toUpperCase_token b)).
  rewrite Promise_all_Resolved. reflexivity.
Qed.


(** C4 (as stated, refuted): a message dispatched with the explicit level
    OFF passes the filter of every logger, one at level OFF included, with
    no "always" tag: position 0 is at most every position. It is written. *)
Lemma message_of_level_OFF_passes :
  SingleFn.log_dispatch [JsString "OFF"; JsString "x"]
  = {| d_level := "OFF"; d_tags := JsArray []; d_format := JsString "x";
       d_optionalParams := [] |}
  /\ has_always (JsArray []) = false
  /\ SingleFn.shouldBeLogged (sample_logger "OFF" []) "OFF" (JsArray []) = Ok true
  /\ SingleFn.shouldBeLogged (sample_logger "INFO" []) "OFF" (JsArray []) = Ok true
  /\ exists sinks',
       SingleFn.log posix (sample_logger "OFF" []) [JsString "OFF"; JsString "x"]
         "2016-05-01T15:35:19.997Z" ∅
       = Ok (Resolved, sinks')
       /\ length (written sinks' capture0) = 1%nat.
Proof.
  repeat split.
  eexists. split; vm_compute; reflexivity.
Qed.

(** C4 (amended): a logger whose level is OFF filters every call of level
    ERROR, WARN, INFO or DEBUG whose own tags do not contain "always":
    [shouldBeLogged] is false and the built-in log functions write
    nothing. *)
Theorem level_OFF_filters_every_severity (P : Process) (b : Level)
    (tags format : JsValue) (optionalParams : list JsValue)
    (sinks : gmap nat (list string)) :
  b <> OFF ->
  has_always tags = false ->
  (forall (this : SingleFn.Logger) (now : string),
      toUpperCase (SingleFn.lg_level this) = "OFF" ->
      SingleFn.shouldBeLogged this (token b) tags = Ok false
      /\ (SingleFn.lg_logFunction this = SingleFn.allDest0WarnDest1_fn ->
          SingleFn.doLog P this (token b) tags format optionalParams now sinks
          = Ok (Resolved, sinks)))
  /\ (forall (this : MultiFn.Logger) (now : MultiFn.Date),
      toUpperCase (MultiFn.lg_level this) = "OFF" ->
      MultiFn.shouldBeLogged this (token b) tags = Ok false
      /\ (forallb builtin (MultiFn.lg_logFunctions this) = true ->
          MultiFn.doLog P this (token b) tags format optionalParams now sinks
          = Ok (Resolved, sinks))).
Proof.
  intros Hb Htags.
  assert (Hlt : position OFF < position b) by (destruct b; simpl; [congruence|lia..]).
  assert (Hge : (position OFF >=? position b) = false)
    by (rewrite Z.geb_leb; apply Z.leb_gt; exact Hlt).
  split.
  - intros this now Hoff.
    assert (Ha : level_of (toUpperCase (SingleFn.lg_level this)) = Some OFF)
      by (rewrite Hoff; reflexivity).
    split.
    + rewrite shouldBeLogged_spec, Ha, position_of_token, Hge, Htags. reflexivity.
    + intros Hfn. apply (doLog_filtered P this OFF b); assumption.
  - intros this now Hoff.
    assert (Ha : level_of (toUpperCase (MultiFn.lg_level this)) = Some OFF)
      by (rewrite Hoff; reflexivity).
    split.
    + rewrite shouldBeLogged_multi_spec, Ha, position_of_token, Hge, Htags.
      reflexivity.
    + intros Hfns. apply (doLog_multi_filtered P this OFF b); assumption.
Qed.

Lemma level_OFF_filters_every_severity_witness :
  ERROR <> OFF
  /\ has_always (JsArray [JsString "mytag"]) = false
  /\ toUpperCase (SingleFn.lg_level (sample_logger "off" [])) = "OFF"
  /\ SingleFn.shouldBeLogged (sample_logger "off" []) "ERROR"
       (JsArray [JsString "mytag"]) = Ok false
  /\ SingleFn.doLog posix (sample_logger "off" []) "ERROR"
       (JsArray [JsString "mytag"]) (JsString "boom") []
       "2016-05-01T15:35:19.997Z" ∅
     = Ok (Resolved, ∅).
Proof.
  assert (H1 : ERROR <> OFF) by discriminate.
  assert (H2 : has_always (JsArray [JsString "mytag"]) = false) by reflexivity.
  assert (H3 : toUpperCase (SingleFn.lg_level (sample_logger "off" [])) = "OFF")
    by reflexivity.
  destruct (proj1 (level_OFF_filters_every_severity posix ERROR
                     (JsArray [JsString "mytag"]) (JsString "boom") [] ∅ H1 H2)
              (sample_logger "off" []) "2016-05-01T15:35:19.997Z" H3) as [Hs Hd].
  split; [exact H1|]. split; [exact H2|]. split; [exact H3|].
  split; [exact Hs|]. apply Hd. reflexivity.
Defined.

(** ** The dual-destination fan-out *)

Lemma fanned_added (tty : Stream -> bool) (b : Level) (d0 d1 : Stream) (line : string)
    (sinks : gmap nat (list string)) :
  ref d0 <> ref d1 ->
  added sinks (fanned_by tty b d0 d1 line sinks) d0
  = (if to_dest1 b && (tty d0 && tty d1) then [] else [line])
  /\ added sinks (fanned_by tty b d0 d1 line sinks) d1
     = (if to_dest1 b then [line] else []).
Proof.
  intros Hne. rewrite <- to_dest1_position. split; apply added_app.
  - apply fanned_dest0. exact Hne.
  - apply fanned_dest1. exact Hne.
Qed.

Lemma isTTY_has_isTTY (s : Stream) : isTTY s = true -> has_isTTY s = true.
Proof. unfold isTTY, has_isTTY. destruct (isTTY_property s); [reflexivity|discriminate]. Qed.

(** C5 (the [logFunctions]-array variant departs from it): a built-in log
    function that is told to log, on two distinct destinations that are
    not terminals ([isTTY] is not truthy). [allDest0WarnDest1] writes its
    line exactly once to destinations[0], and exactly once to
    destinations[1] when the level of the message is ERROR or WARN (more
    generally below INFO, see [to_dest1]); destinations[1] receives
    nothing when the level is INFO or DEBUG. [defaultText] and
    [defaultJson] do the same for destinations[1], and for destinations[0]
    as long as one of the two streams has no [isTTY] property; when both
    streams have the property, be it [false], their terminal test
    ["isTTY" in stream] takes them for terminals and destinations[0]
    receives nothing of an ERROR or WARN message. *)
Theorem plain_destinations_fan_out (P : Process) (b : Level) (d0 d1 : Stream)
    (rest : list Stream) (sinks : gmap nat (list string)) :
  ref d0 <> ref d1 ->
  isTTY d0 = false ->
  isTTY d1 = false ->
  (forall m : SingleFn.Message,
      toUpperCase (SingleFn.level m) = token b ->
      exists sinks',
        SingleFn.allDest0WarnDest1 P m true (d0 :: d1 :: rest) sinks = (Resolved, sinks')
        /\ added sinks sinks' d0 = [SingleFn.messageStr P m]
        /\ added sinks sinks' d1
           = match b with
             | ERROR | WARN => [SingleFn.messageStr P m]
             | INFO | DEBUG => []
             | OFF => [SingleFn.messageStr P m]
             end)
  /\ (forall (f : MultiFn.LogFn) (m : MultiFn.Message),
      builtin f = true ->
      toUpperCase (MultiFn.level m) = token b ->
      exists sinks',
        MultiFn.call P f m true (d0 :: d1 :: rest) sinks = (Resolved, sinks')
        /\ added sinks sinks' d1
           = match b with
             | ERROR | WARN => [line_of P f m]
             | INFO | DEBUG => []
             | OFF => [line_of P f m]
             end
        /\ (has_isTTY d0 = false \/ has_isTTY d1 = false ->
            added sinks sinks' d0 = [line_of P f m])
        /\ (has_isTTY d0 = true -> has_isTTY d1 = true ->
            added sinks sinks' d0
            = match b with
              | ERROR | WARN => []
              | INFO | DEBUG => [line_of P f m]
              | OFF => []
              end)).
Proof.
  intros Hne H0 H1. split.
  - intros m Hb. eexists. split; [apply (allDest0WarnDest1_fanned P m b); exact Hb|].
    destruct (fanned_added isTTY b d0 d1 (SingleFn.messageStr P m) sinks Hne)
      as [E0 E1].
    rewrite E0, E1, H0, H1, andb_false_r. split; [reflexivity|].
    destruct b; reflexivity.
  - intros f m Hf Hb. eexists.
    split; [apply (call_builtin_logged P f m b); assumption|].
    destruct (fanned_added has_isTTY b d0 d1 (line_of P f m) sinks Hne) as [E0 E1].
    rewrite E0, E1. split; [destruct b; reflexivity|]. split.
    + intros [T | T]; rewrite T, ?andb_false_l, ?andb_false_r; reflexivity.
    + intros T0 T1. rewrite T0, T1. destruct b; reflexivity.
Qed.

Lemma plain_destinations_fan_out_witness :
  let m := {| MultiFn.date := sample_date;
              MultiFn.level := "ERROR";
              MultiFn.tags := [JsString "mytag"];
              MultiFn.text := "test error";
              MultiFn.stack := None |} in
  ref quiet0 <> ref quiet1
  /\ isTTY quiet0 = false
  /\ isTTY quiet1 = false
  /\ exists sinks',
       MultiFn.call posix MultiFn.LogFunction_defaultText m true [quiet0; quiet1] ∅
       = (Resolved, sinks')
       /\ added ∅ sinks' quiet1 = [line_of posix MultiFn.LogFunction_defaultText m]
       /\ added ∅ sinks' quiet0 = [].
Proof.
  intros m.
  assert (Hne : ref quiet0 <> ref quiet1) by discriminate.
  split; [exact Hne|]. split; [reflexivity|]. split; [reflexivity|].
  destruct (proj2 (plain_destinations_fan_out posix ERROR quiet0 quiet1 [] ∅
                     Hne eq_refl eq_refl)
              MultiFn.LogFunction_defaultText m eq_refl eq_refl)
    as (sinks' & Hcall & E1 & _ & E0).
  exists sinks'. split; [exact Hcall|]. split; [exact E1|].
  exact (E0 eq_refl eq_refl).
Defined.

(** C6 (the [logFunctions]-array variant departs from it): on two distinct
    destinations that are both terminals, a built-in log function that is
    told to log writes an ERROR (or WARN) message to destinations[1] only.
    With [allDest0WarnDest1], whenever destinations[0] is skipped both
    destinations are terminals (and the level is below INFO): a single
    destination that is not a terminal is enough for destinations[0] to be
    written. [defaultText] and [defaultJson] skip destinations[0] exactly
    when both streams have an [isTTY] property (and the level is below
    INFO), whatever its value: two streams that define [isTTY] as [false]
    are not terminals, and destinations[0] is skipped all the same. *)
Theorem terminal_pair_prints_once (P : Process) (b : Level) (d0 d1 : Stream)
    (rest : list Stream) (sinks : gmap nat (list string)) :
  ref d0 <> ref d1 ->
  (forall m : SingleFn.Message,
      toUpperCase (SingleFn.level m) = token b ->
      exists sinks',
        SingleFn.allDest0WarnDest1 P m true (d0 :: d1 :: rest) sinks = (Resolved, sinks')
        /\ (isTTY d0 = true -> isTTY d1 = true -> b = ERROR \/ b = WARN ->
            added sinks sinks' d1 = [SingleFn.messageStr P m]
            /\ added sinks sinks' d0 = [])
        /\ (added sinks sinks' d0 = [] ->
            isTTY d0 = true /\ isTTY d1 = true /\ position b < position INFO)
        /\ (isTTY d0 = false \/ isTTY d1 = false ->
            added sinks sinks' d0 = [SingleFn.messageStr P m]))
  /\ (forall (f : MultiFn.LogFn) (m : MultiFn.Message),
      builtin f = true ->
      toUpperCase (MultiFn.level m) = token b ->
      exists sinks',
        MultiFn.call P f m true (d0 :: d1 :: rest) sinks = (Resolved, sinks')
        /\ (isTTY d0 = true -> isTTY d1 = true -> b = ERROR \/ b = WARN ->
            added sinks sinks' d1 = [line_of P f m]
            /\ added sinks sinks' d0 = [])
        /\ (added sinks sinks' d0 = []
            <-> has_isTTY d0 = true /\ has_isTTY d1 = true
                /\ position b < position INFO)
        /\ (has_isTTY d0 = false \/ has_isTTY d1 = false ->
            added sinks sinks' d0 = [line_of P f m])).
Proof.
  intros Hne.
  assert (Hcases : forall (tty : Stream -> bool) line sinks',
             sinks' = fanned_by tty b d0 d1 line sinks ->
             (tty d0 = true -> tty d1 = true -> b = ERROR \/ b = WARN ->
              added sinks sinks' d1 = [line] /\ added sinks sinks' d0 = [])
             /\ (added sinks sinks' d0 = []
                 <-> tty d0 = true /\ tty d1 = true /\ position b < position INFO)
             /\ (tty d0 = false \/ tty d1 = false ->
                 added sinks sinks' d0 = [line])).
  { intros tty line sinks' ->.
    destruct (fanned_added tty b d0 d1 line sinks Hne) as [E0 E1].
    rewrite E0, E1. split; [|split].
    - intros T0 T1 [-> | ->]; rewrite T0, T1; split; reflexivity.
    - destruct (to_dest1 b) eqn:Eb, (tty d0), (tty d1); simpl; split;
        try discriminate; try (intros (? & ? & ?); discriminate);
        try (intros _; repeat split; destruct b; simpl; try lia; discriminate);
        try reflexivity;
        intros (_ & _ & Hb); destruct b; simpl in *; try discriminate; lia.
    - intros [T | T]; rewrite T, ?andb_false_r, ?andb_false_l; reflexivity. }
  split.
  - intros m Hb. eexists.
    split; [apply (allDest0WarnDest1_fanned P m b); exact Hb|].
    destruct (Hcases isTTY (SingleFn.messageStr P m) _ eq_refl) as (A & B & C).
    split; [exact A|]. split; [apply B|exact C].
  - intros f m Hf Hb. eexists.
    split; [apply (call_builtin_logged P f m b); assumption|].
    destruct (Hcases has_isTTY (line_of P f m) _ eq_refl) as (A & B & C).
    split; [|split; [exact B|exact C]].
    intros T0 T1. apply A; apply isTTY_has_isTTY; assumption.
Qed.

Lemma terminal_pair_prints_once_witness :
  let m := {| MultiFn.date := sample_date;
              MultiFn.level := "ERROR";
              MultiFn.tags := [];
              MultiFn.text := "boom";
              MultiFn.stack := None |} in
  ref quiet0 <> ref quiet1
  /\ isTTY quiet0 = false
  /\ isTTY quiet1 = false
  /\ exists sinks',
       MultiFn.call posix MultiFn.LogFunction_defaultJson m true [quiet0; quiet1] ∅
       = (Resolved, sinks')
       /\ added ∅ sinks' quiet0 = [].
Proof.
  intros m.
  assert (Hne : ref quiet0 <> ref quiet1) by discriminate.
  split; [exact Hne|]. split; [reflexivity|]. split; [reflexivity|].
  destruct (proj2 (terminal_pair_prints_once posix ERROR quiet0 quiet1 [] ∅ Hne)
              MultiFn.LogFunction_defaultJson m eq_refl eq_refl)
    as (sinks' & Hcall & _ & Hskip & _).
  exists sinks'. split; [exact Hcall|].
  apply Hskip. split; [reflexivity|]. split; [reflexivity|]. reflexivity.
Defined.

(** ** The registry of log functions *)

(** C7 (the code departs from it): the symbolic name "defaultJson"
    registers [LogFunction.defaultText]. A Logger constructed with
    [logFunctions: ["defaultJson"]] therefore writes text lines; the line
    of the example is not JSON. The other two parts of the claim hold: the
    name "defaultText" registers the text formatter, and a name without a
    colon that is neither of the two fails. *)
Theorem defaultJson_name_registers_defaultText
    (require_export : string -> string -> result (option MultiFn.LogFn)) :
  MultiFn.setLogFunctions require_export [MultiFn.FnName "defaultJson"]
  = Ok [MultiFn.LogFunction_defaultText]
  /\ MultiFn.setLogFunctions require_export [MultiFn.FnName "defaultText"]
     = Ok [MultiFn.LogFunction_defaultText]
  /\ MultiFn.setLogFunctions require_export [MultiFn.FnName "defaultXml"]
     = Throw (LogFunctionNotKnown "defaultXml")
  /\ exists this w' sinks',
       MultiFn.new_Logger posix require_export json_options ["test.js"]
         {| MultiFn.instance := None; MultiFn.opened := 0 |}
       = (Ok this, w')
       /\ MultiFn.lg_logFunctions this = [MultiFn.LogFunction_defaultText]
       /\ MultiFn.doLog posix this "INFO" (JsArray []) (JsString "hello") []
            sample_date ∅
          = Ok (Resolved, sinks')
       /\ written sinks' capture0
          = ["2016-05-01T15:35:19.997Z INFO  [test.js] - hello" +:+ str1 LF]
       /\ JSON_parse ("2016-05-01T15:35:19.997Z INFO  [test.js] - hello" +:+ str1 LF)
          = None.
Proof.
  split; [reflexivity|]. split; [reflexivity|]. split; [reflexivity|].
  eexists. eexists. eexists.
  split; [reflexivity|]. split; [reflexivity|].
  split; [vm_compute; reflexivity|]. split; vm_compute; reflexivity.
Qed.

Lemma setLogFunctions_unknown_name
    (require_export : string -> string -> result (option MultiFn.LogFn))
    (name : string) :
  name <> "defaultText" -> name <> "defaultJson" -> after_colon name = None ->
  MultiFn.setLogFunctions require_export [MultiFn.FnName name]
  = Throw (LogFunctionNotKnown name).
Proof.
  intros H1 H2 H3. simpl.
  apply String.eqb_neq in H1. apply String.eqb_neq in H2.
  unfold MultiFn.defaultText_name, MultiFn.defaultJson_name.
  rewrite H1, H2. unfold MultiFn.tryParseCustomLogFnPath. rewrite H3. reflexivity.
Qed.

(** The [logFunctions] map of [src/index.ts] holds one built-in. *)
Lemma logFunctions_registry (name : string) :
  SingleFn.logFunctions !! name
  = if String.eqb name "allDest0WarnDest1"
    then Some SingleFn.allDest0WarnDest1_fn else None.
Proof.
  unfold SingleFn.logFunctions.
  destruct (String.eqb name "allDest0WarnDest1") eqn:E.
  - apply String.eqb_eq in E. subst name. apply lookup_insert_eq.
  - apply String.eqb_neq in E. rewrite lookup_insert_ne by congruence.
    apply lookup_empty.
Qed.

(** ** Construction after the first *)

Lemma setDestinations_streams (P : Process) (l : list Stream) (n : nat) :
  SingleFn.setDestinations P (map DestStream l) n
  = (if forallb instanceofWritable l then Ok l
     else Throw DestinationUnexpectedType, n).
Proof.
  induction l as [|s l IH]; simpl.
  - reflexivity.
  - destruct (instanceofWritable s); simpl; [|reflexivity].
    rewrite IH. destruct (forallb instanceofWritable l); reflexivity.
Qed.

Lemma new_Logger_getOptions (P : Process) (inst : SingleFn.Logger)
    (tags : list string) (w : SingleFn.World) :
  SingleFn.new_Logger P (SingleFn.getOptions inst) tags w
  = match level_of (SingleFn.lg_level inst) with
    | None => (Throw (LoglevelNotSupported (SingleFn.lg_level inst)), w)
    | Some _ =>
        if forallb instanceofWritable (SingleFn.lg_destinations inst)
        then
          let this := {| SingleFn.lg_level := SingleFn.lg_level inst;
                         SingleFn.lg_tags := tags;
                         SingleFn.lg_destinations := SingleFn.lg_destinations inst;
                         SingleFn.lg_logFunction := SingleFn.lg_logFunction inst |} in
          (Ok this, {| SingleFn.instance := Some this;
                       SingleFn.opened := SingleFn.opened w |})
        else (Throw DestinationUnexpectedType, w)
    end.
Proof.
  unfold SingleFn.new_Logger, SingleFn.getOptions. simpl.
  rewrite checkLoglevel_level_of.
  destruct (level_of (SingleFn.lg_level inst)); [|reflexivity].
  rewrite setDestinations_streams.
  destruct (forallb instanceofWritable (SingleFn.lg_destinations inst));
    [reflexivity|].
  destruct w; reflexivity.
Qed.

Lemma create_with_instance (P : Process) (c : Creation) (w : SingleFn.World)
    (prev : SingleFn.Logger) :
  SingleFn.instance w = Some prev ->
  create P c w
  = SingleFn.new_Logger P (SingleFn.getOptions prev)
      (match c with
       | FromArguments caller _ tags => caller :: tags
       | FromConfigFile caller _ tags => caller :: tags
       end) w.
Proof.
  intros H. destruct c; simpl;
    unfold SingleFn.createFromArguments, SingleFn.createFromConfigFile;
    rewrite H; reflexivity.
Qed.

Lemma new_Logger_getOptions_inv (P : Process) (inst this : SingleFn.Logger)
    (tags : list string) (w w' : SingleFn.World) :
  SingleFn.new_Logger P (SingleFn.getOptions inst) tags w = (Ok this, w') ->
  same_options this inst
  /\ SingleFn.lg_tags this = tags
  /\ SingleFn.instance w' = Some this.
Proof.
  rewrite new_Logger_getOptions.
  destruct (level_of (SingleFn.lg_level inst)); [|discriminate].
  destruct (forallb instanceofWritable (SingleFn.lg_destinations inst));
    [|discriminate].
  intros H. injection H as <- <-. repeat split.
Qed.

Lemma create_all_same_options (P : Process) (cs : list Creation)
    (w : SingleFn.World) (prev first : SingleFn.Logger) :
  SingleFn.instance w = Some prev ->
  same_options prev first ->
  Forall (fun this => same_options this first) (create_all P cs w).
Proof.
  revert w prev. induction cs as [|c cs IH]; intros w prev Hw Hsame; simpl.
  - constructor.
  - rewrite (create_with_instance P c w prev Hw).
    destruct (SingleFn.new_Logger P (SingleFn.getOptions prev) _ w)
      as [[this|e] w'] eqn:E.
    + apply new_Logger_getOptions_inv in E as [Hs [_ Hw']].
      assert (Hthis : same_options this first).
      { destruct Hs as [A [B C]], Hsame as [A' [B' C']].
        repeat split; congruence. }
      constructor; [exact Hthis|]. apply (IH w' this); assumption.
    + rewrite new_Logger_getOptions in E.
      assert (Hw' : w' = w).
      { destruct (level_of (SingleFn.lg_level prev));
          [destruct (forallb instanceofWritable (SingleFn.lg_destinations prev))|];
          congruence. }
      subst w'. apply (IH w prev); assumption.
Qed.

(** C9: once a Logger has been constructed, a creation operation ignores
    the options it is given (and the configuration file): the call only
    depends on the previous instance, and the Logger it constructs has the
    level, the destinations and the log function of that instance, the tags
    being the caller's file name followed by the tags of the call. Over any
    sequence of creation operations, every Logger constructed has the
    options of the first. *)
Theorem later_creations_clone_the_instance (P : Process) (w : SingleFn.World)
    (prev : SingleFn.Logger) :
  SingleFn.instance w = Some prev ->
  (forall caller options options' tags,
      SingleFn.createFromArguments P caller options tags w
      = SingleFn.createFromArguments P caller options' tags w)
  /\ (forall caller config config' tags,
      SingleFn.createFromConfigFile P caller config tags w
      = SingleFn.createFromConfigFile P caller config' tags w)
  /\ (forall c this w',
      create P c w = (Ok this, w') ->
      same_options this prev
      /\ SingleFn.lg_tags this
         = match c with
           | FromArguments caller _ tags => caller :: tags
           | FromConfigFile caller _ tags => caller :: tags
           end
      /\ SingleFn.instance w' = Some this)
  /\ (forall c,
      is_level_token (SingleFn.lg_level prev) ->
      forallb instanceofWritable (SingleFn.lg_destinations prev) = true ->
      exists this w', create P c w = (Ok this, w'))
  /\ (forall cs, Forall (fun this => same_options this prev) (create_all P cs w)).
Proof.
  intros Hw. split; [|split; [|split; [|split]]].
  - intros caller options options' tags.
    unfold SingleFn.createFromArguments. rewrite Hw. reflexivity.
  - intros caller config config' tags.
    unfold SingleFn.createFromConfigFile. rewrite Hw. reflexivity.
  - intros c this w' H. rewrite (create_with_instance P c w prev Hw) in H.
    apply new_Logger_getOptions_inv in H. exact H.
  - intros c Hlevel Hdests. rewrite (create_with_instance P c w prev Hw).
    rewrite new_Logger_getOptions, Hdests.
    apply is_level_token_level_of in Hlevel as [l Hl]. rewrite Hl.
    eexists. eexists. reflexivity.
  - intros cs. apply (create_all_same_options P cs w prev prev Hw).
    repeat split.
Qed.

Lemma later_creations_clone_the_instance_witness :
  let first := sample_logger "WARN" ["main.js"] in
  let w := {| SingleFn.instance := Some first; SingleFn.opened := 0 |} in
  let options := {| SingleFn.opt_level := Some "DEBUG";
                    SingleFn.opt_destinations := Some [DestString "other.log"];
                    SingleFn.opt_logFunction := None;
                    SingleFn.opt_tags := None |} in
  SingleFn.instance w = Some first
  /\ SingleFn.createFromArguments posix "module.js" options ["touch_feature"] w
     = SingleFn.createFromArguments posix "module.js" no_options ["touch_feature"] w
  /\ Forall (fun this => same_options this first)
       (create_all posix
          [FromArguments "module.js" options ["touch_feature"];
           FromConfigFile "other.js" (Throw (ConfigFileError "ENOENT")) []] w).
Proof.
  intros first w options.
  pose proof (later_creations_clone_the_instance posix w first eq_refl)
    as [Hargs [_ [_ [_ Hall]]]].
  split; [reflexivity|]. split; [apply Hargs | apply Hall].
Defined.

(** ** The generic operations [log] and [log2] *)

Lemma level_argument_token (b : Level) :
  SingleFn.level_argument (JsString (token b)) = Some (token b).
Proof. destruct b; reflexivity. Qed.

Lemma level_argument_level_of (arg1 : JsValue) :
  SingleFn.level_argument arg1
  = match arg1 with
    | JsString s => match level_of s with Some _ => Some s | None => None end
    | _ => None
    end.
Proof.
  destruct arg1; try reflexivity. simpl.
  rewrite indexOf_logLevelNames. unfold position_of.
  destruct (level_of s) as [l|]; [|reflexivity].
  pose proof (position_nonneg l).
  replace (position l >? -1) with true; [reflexivity|].
  symmetry. apply Z.gtb_lt. lia.
Qed.

(** C10 (as stated, refuted for [log2]): a first argument of [log2] that
    is not a level token, here the lowercase "error", is not the format
    string of the INFO message; it is its tags, and the second argument is
    the format string. *)
Lemma log2_first_argument_is_the_tags :
  level_of "error" = None
  /\ SingleFn.log2_dispatch [JsString "error"; JsString "disk %s"; JsString "full"]
     = {| d_level := "INFO"; d_tags := JsString "error";
          d_format := JsString "disk %s"; d_optionalParams := [JsString "full"] |}
  /\ SingleFn.text
       (SingleFn.buildMessage posix (sample_logger "DEBUG" []) "INFO"
          (JsString "error") (JsString "disk") [] "2016-05-01T15:35:19.997Z")
     = "disk"
  /\ SingleFn.tags
       (SingleFn.buildMessage posix (sample_logger "DEBUG" []) "INFO"
          (JsString "error") (JsString "disk") [] "2016-05-01T15:35:19.997Z")
     = [JsString "error"].
Proof. repeat split. Qed.

(** C10 (amended): a first argument of [log] or [log2] that is exactly one
    of the five level tokens is taken as the level, also when no format
    argument follows: the format is then [undefined], the message carries
    that level and the text that [util.format] gives for [undefined], and
    the token is not the text of an INFO message. A first argument that is
    not exactly a token (a lowercase spelling, a value that is not a
    string) makes an INFO message: of [log] it is the format string, of
    [log2] it is the tags, the second argument being the format string. *)
Theorem level_token_selects_the_level (P : Process) :
  (forall (b : Level) (rest : list JsValue),
      SingleFn.log_dispatch (JsString (token b) :: rest)
      = {| d_level := token b; d_tags := JsArray [];
           d_format := nth 0 rest JsUndefined; d_optionalParams := drop 1 rest |})
  /\ (forall (b : Level) (rest : list JsValue),
      SingleFn.log2_dispatch (JsString (token b) :: rest)
      = {| d_level := token b; d_tags := nth 0 rest JsUndefined;
           d_format := nth 1 rest JsUndefined; d_optionalParams := drop 2 rest |})
  /\ (forall (this : SingleFn.Logger) (b : Level) (tags : JsValue) (now : string),
      let message := SingleFn.buildMessage P this (token b) tags JsUndefined [] now in
      SingleFn.level message = token b
      /\ SingleFn.text message = util_format P [JsUndefined])
  /\ (forall (arg1 : JsValue) (rest : list JsValue),
      (forall b, arg1 <> JsString (token b)) ->
      d_level (SingleFn.log_dispatch (arg1 :: rest)) = "INFO"
      /\ d_format (SingleFn.log_dispatch (arg1 :: rest)) = arg1)
  /\ (forall (arg1 : JsValue) (rest : list JsValue),
      (forall b, arg1 <> JsString (token b)) ->
      d_level (SingleFn.log2_dispatch (arg1 :: rest)) = "INFO"
      /\ d_tags (SingleFn.log2_dispatch (arg1 :: rest)) = arg1
      /\ d_format (SingleFn.log2_dispatch (arg1 :: rest)) = nth 0 rest JsUndefined).
Proof.
  assert (Hnone : forall arg1, (forall b, arg1 <> JsString (token b)) ->
                    SingleFn.level_argument arg1 = None).
  { intros arg1 H. rewrite level_argument_level_of.
    destruct arg1 as [| |s| | |]; try reflexivity.
    destruct (level_of s) as [l|] eqn:E; [|reflexivity].
    apply level_of_Some in E. exfalso. apply (H l). rewrite E. reflexivity. }
  split; [|split; [|split; [|split]]].
  - intros b rest. unfold SingleFn.log_dispatch.
    cbn [nth]. rewrite level_argument_token.
    destruct rest; reflexivity.
  - intros b rest. unfold SingleFn.log2_dispatch.
    cbn [nth]. rewrite level_argument_token.
    destruct rest as [|x [|y rest]]; reflexivity.
  - intros this b tags now. split; reflexivity.
  - intros arg1 rest H. unfold SingleFn.log_dispatch.
    cbn [nth]. rewrite (Hnone arg1 H). split; reflexivity.
  - intros arg1 rest H. unfold SingleFn.log2_dispatch.
    cbn [nth]. rewrite (Hnone arg1 H).
    destruct rest; repeat split.
Qed.

Lemma level_token_selects_the_level_witness :
  (forall b, JsString "error" <> JsString (token b))
  /\ SingleFn.log_dispatch [JsString "ERROR"]
     = {| d_level := "ERROR"; d_tags := JsArray []; d_format := JsUndefined;
          d_optionalParams := [] |}
  /\ d_level (SingleFn.log_dispatch [JsString "error"]) = "INFO"
  /\ d_format (SingleFn.log_dispatch [JsString "error"]) = JsString "error".
Proof.
  assert (H : forall b, JsString "error" <> JsString (token b))
    by (intros b; destruct b; discriminate).
  pose proof (level_token_selects_the_level posix) as [Hlog [_ [_ [Hother _]]]].
  split; [exact H|]. split; [exact (Hlog ERROR [])|].
  exact (Hother (JsString "error") [] H).
Defined.

(** ** JSON text and its reading *)

Lemma append_cons (x : ascii) (a b : string) : String x a +:+ b = String x (a +:+ b).
Proof. reflexivity. Qed.

Lemma append_assoc (a b c : string) : (a +:+ b) +:+ c = a +:+ (b +:+ c).
Proof.
  induction a as [|x a IH]; [reflexivity|].
  rewrite !append_cons, IH. reflexivity.
Qed.

Lemma length_append (a b : string) :
  String.length (a +:+ b) = (String.length a + String.length b)%nat.
Proof.
  induction a as [|x a IH]; [reflexivity|].
  rewrite append_cons. cbn [String.length]. rewrite IH. reflexivity.
Qed.

Lemma parse_chars_quote_char (c : ascii) (tl : string) :
  parse_chars (quote_char c +:+ tl) = cons_char c (parse_chars tl).
Proof.
  destruct c as [[] [] [] [] [] [] [] []]; reflexivity.
Qed.

Lemma parse_chars_quote_chars (s rest : string) :
  parse_chars (quote_chars s +:+ String dquote rest) = Some (s, rest).
Proof.
  induction s as [|c s IH].
  - reflexivity.
  - cbn [quote_chars]. rewrite append_assoc, parse_chars_quote_char, IH.
    reflexivity.
Qed.

Lemma JSON_quote_append (s rest : string) :
  JSON_quote s +:+ rest = String dquote (quote_chars s +:+ String dquote rest).
Proof. unfold JSON_quote. rewrite append_cons, append_assoc. reflexivity. Qed.

Lemma parse_value_string (fuel : nat) (s rest : string) :
  parse_value (S fuel) (JSON_quote s +:+ rest) = Some (JsString s, rest).
Proof.
  rewrite JSON_quote_append. cbn [parse_value]. 
  change (skip_ws (String dquote (quote_chars s +:+ String dquote rest)))
    with (String dquote (quote_chars s +:+ String dquote rest)).
  change (Ascii.eqb dquote dquote) with true. cbv iota.
  rewrite parse_chars_quote_chars. reflexivity.
Qed.

Lemma parse_value_S (fuel : nat) (s : string) :
  parse_value (S fuel) s
  = match skip_ws s with
    | String c rest =>
        if Ascii.eqb c dquote then
          match parse_chars rest with
          | Some (str, rest1) => Some (JsString str, rest1)
          | None => None
          end
        else if Ascii.eqb c "[" then
          match skip_ws rest with
          | String "]" rest1 => Some (JsArray [], rest1)
          | _ =>
              match parse_elements fuel rest with
              | Some (l, rest1) => Some (JsArray l, rest1)
              | None => None
              end
          end
        else if Ascii.eqb c "{" then
          match skip_ws rest with
          | String "}" rest1 => Some (JsObject [], rest1)
          | _ =>
              match parse_members fuel rest with
              | Some (ps, rest1) => Some (JsObject ps, rest1)
              | None => None
              end
          end
        else if Ascii.eqb c "n" then
          match rest with
          | String "u" (String "l" (String "l" rest1)) => Some (JsNull, rest1)
          | _ => None
          end
        else None
    | EmptyString => None
    end.
Proof. reflexivity. Qed.

Lemma parse_elements_S (fuel : nat) (s : string) :
  parse_elements (S fuel) s
  = match parse_value fuel s with
    | Some (v, rest) =>
        match skip_ws rest with
        | String "," rest1 =>
            match parse_elements fuel rest1 with
            | Some (l, rest2) => Some (v :: l, rest2)
            | None => None
            end
        | String "]" rest1 => Some ([v], rest1)
        | _ => None
        end
    | None => None
    end.
Proof. reflexivity. Qed.

Lemma parse_members_S (fuel : nat) (s : string) :
  parse_members (S fuel) s
  = match skip_ws s with
    | String c rest =>
        if Ascii.eqb c dquote then
          match parse_chars rest with
          | Some (k, rest1) =>
              match skip_ws rest1 with
              | String ":" rest2 =>
                  match parse_value fuel rest2 with
                  | Some (v, rest3) =>
                      match skip_ws rest3 with
                      | String "," rest4 =>
                          match parse_members fuel rest4 with
                          | Some (ps, rest5) => Some ((k, v) :: ps, rest5)
                          | None => None
                          end
                      | String "}" rest4 => Some ([(k, v)], rest4)
                      | _ => None
                      end
                  | None => None
                  end
              | _ => None
              end
          | None => None
          end
        else None
    | EmptyString => None
    end.
Proof. reflexivity. Qed.

Lemma parse_elements_strings (ts : list string) (t : string) (fuel : nat)
    (rest : string) :
  (length ts + 2 <= fuel)%nat ->
  parse_elements fuel (join "," (map JSON_quote (t :: ts)) +:+ String "]" rest)
  = Some (map JsString (t :: ts), rest).
Proof.
  revert t fuel. induction ts as [|u ts IH]; intros t fuel Hfuel.
  - destruct fuel as [|[|fuel]]; [simpl in Hfuel; lia..|].
    rewrite parse_elements_S. cbn [map join].
    rewrite parse_value_string. reflexivity.
  - destruct fuel as [|[|fuel]]; [simpl in Hfuel; lia..|].
    rewrite parse_elements_S.
    change (join "," (map JSON_quote (t :: u :: ts)))
      with (JSON_quote t +:+ "," +:+ join "," (map JSON_quote (u :: ts))).
    rewrite !append_assoc, parse_value_string.
    change ("," +:+ join "," (map JSON_quote (u :: ts)) +:+ String "]" rest)
      with (String "," (join "," (map JSON_quote (u :: ts)) +:+ String "]" rest)).
    cbn [skip_ws is_ws]. 
    change (is_ws ",") with false. cbv iota.
    rewrite IH by (simpl in Hfuel |- *; lia). reflexivity.
Qed.

Lemma parse_value_strings (ts : list string) (fuel : nat) (rest : string) :
  (length ts + 3 <= fuel)%nat ->
  parse_value fuel ("[" +:+ join "," (map JSON_quote ts) +:+ "]" +:+ rest)
  = Some (JsArray (map JsString ts), rest).
Proof.
  intros Hfuel. destruct fuel as [|fuel]; [lia|].
  rewrite parse_value_S. destruct ts as [|t ts].
  - reflexivity.
  - change ("[" +:+ join "," (map JSON_quote (t :: ts)) +:+ "]" +:+ rest)
      with (String "[" (join "," (map JSON_quote (t :: ts)) +:+ String "]" rest)).
    cbn [skip_ws]. change (is_ws "[") with false. cbv iota.
    change (Ascii.eqb "[" dquote) with false.
    change (Ascii.eqb "[" "[") with true. cbv iota.
    rewrite (parse_elements_strings ts t fuel rest) by (simpl in Hfuel; lia).
    destruct ts as [|u ts];
      [ change (join "," (map JSON_quote [t])) with (JSON_quote t)
      | change (join "," (map JSON_quote (t :: u :: ts)))
          with (JSON_quote t +:+ "," +:+ join "," (map JSON_quote (u :: ts)));
        rewrite append_assoc ];
      rewrite JSON_quote_append; reflexivity.
Qed.

Lemma append_nil_l (b : string) : "" +:+ b = b.
Proof. reflexivity. Qed.

(** Right-nested form of a text built with [+:+]. *)
Ltac flatten_text :=
  repeat first [ rewrite append_assoc | rewrite append_cons | rewrite append_nil_l ].

Lemma parse_value_strings_flat (ts : list string) (fuel : nat) (rest : string) :
  (length ts + 3 <= fuel)%nat ->
  parse_value fuel (String "[" (join "," (map JSON_quote ts) +:+ String "]" rest))
  = Some (JsArray (map JsString ts), rest).
Proof. apply parse_value_strings. Qed.

Lemma parse_members_key (fuel : nat) (k text : string) :
  parse_members (S fuel) (JSON_quote k +:+ String ":" text)
  = match parse_value fuel text with
    | Some (v, rest3) =>
        match skip_ws rest3 with
        | String "," rest4 =>
            match parse_members fuel rest4 with
            | Some (ps, rest5) => Some ((k, v) :: ps, rest5)
            | None => None
            end
        | String "}" rest4 => Some ([(k, v)], rest4)
        | _ => None
        end
    | None => None
    end.
Proof.
  rewrite parse_members_S, JSON_quote_append.
  change (skip_ws (String dquote (quote_chars k +:+ String dquote (String ":" text))))
    with (String dquote (quote_chars k +:+ String dquote (String ":" text))).
  change (Ascii.eqb dquote dquote) with true. cbv iota.
  rewrite parse_chars_quote_chars. reflexivity.
Qed.

Lemma parse_members_string_comma (fuel : nat) (k v text : string) :
  parse_members (S (S fuel)) (JSON_quote k +:+ String ":" (JSON_quote v +:+ String "," text))
  = match parse_members (S fuel) text with
    | Some (ps, rest) => Some ((k, JsString v) :: ps, rest)
    | None => None
    end.
Proof. rewrite parse_members_key, parse_value_string. reflexivity. Qed.

Lemma parse_members_string_close (fuel : nat) (k v rest : string) :
  parse_members (S (S fuel)) (JSON_quote k +:+ String ":" (JSON_quote v +:+ String "}" rest))
  = Some ([(k, JsString v)], rest).
Proof. rewrite parse_members_key, parse_value_string. reflexivity. Qed.

Lemma parse_members_strings_comma (fuel : nat) (k : string) (ts : list string)
    (text : string) :
  (length ts + 3 <= fuel)%nat ->
  parse_members (S fuel)
    (JSON_quote k +:+ String ":"
       (String "[" (join "," (map JSON_quote ts) +:+ String "]" (String "," text))))
  = match parse_members fuel text with
    | Some (ps, rest) => Some ((k, JsArray (map JsString ts)) :: ps, rest)
    | None => None
    end.
Proof.
  intros Hfuel. rewrite parse_members_key, parse_value_strings_flat by exact Hfuel.
  reflexivity.
Qed.

Lemma SerializeJSONProperty_strings (ts : list string) :
  SerializeJSONProperty (JsArray (map JsString ts))
  = Some ("[" +:+ join "," (map JSON_quote ts) +:+ "]").
Proof.
  cbn [SerializeJSONProperty]. rewrite map_map. reflexivity.
Qed.

Lemma length_join_quotes (ts : list string) :
  (length ts <= String.length (join "," (map JSON_quote ts)))%nat.
Proof.
  induction ts as [|t ts IH]; [simpl; lia|].
  destruct ts as [|u ts].
  - simpl. lia.
  - change (join "," (map JSON_quote (t :: u :: ts)))
      with (JSON_quote t +:+ "," +:+ join "," (map JSON_quote (u :: ts))).
    rewrite !length_append. simpl in IH |- *. lia.
Qed.

(** The text of a message whose tags are strings. *)
Lemma JSON_stringify_message (d l : string) (ts : list string) (t : string)
    (st : option string) :
  JSON_stringify (JsObject (message_properties d l (map JsString ts) t st))
  = "{" +:+ JSON_quote "isoDate" +:+ ":" +:+ JSON_quote d
    +:+ "," +:+ JSON_quote "level" +:+ ":" +:+ JSON_quote l
    +:+ "," +:+ JSON_quote "tags" +:+ ":"
    +:+ "[" +:+ join "," (map JSON_quote ts) +:+ "]"
    +:+ "," +:+ JSON_quote "text" +:+ ":" +:+ JSON_quote t
    +:+ match st with
        | Some s => "," +:+ JSON_quote "stack" +:+ ":" +:+ JSON_quote s
        | None => ""
        end
    +:+ "}".
Proof.
  unfold JSON_stringify, message_properties.
  destruct st as [s|];
    cbn [SerializeJSONProperty app default from_option id join omap list_omap fst snd];
    rewrite map_map; flatten_text; reflexivity.
Qed.

Lemma parse_value_message (d l : string) (ts : list string) (t : string)
    (st : option string) (fuel : nat) (rest : string) :
  (length ts + 7 <= fuel)%nat ->
  parse_value fuel
    (JSON_stringify (JsObject (message_properties d l (map JsString ts) t st)) +:+ rest)
  = Some (JsObject (message_properties d l (map JsString ts) t st), rest).
Proof.
  intros Hfuel. rewrite JSON_stringify_message.
  destruct fuel as [|[|[|[|fuel]]]]; [lia..|].
  destruct st as [s|]; flatten_text; rewrite parse_value_S;
    cbn [skip_ws]; change (is_ws "{") with false; cbv iota;
    change (Ascii.eqb "{" dquote) with false;
    change (Ascii.eqb "{" "[") with false;
    change (Ascii.eqb "{" "{") with true; cbv iota;
    rewrite JSON_quote_append; cbn [skip_ws]; change (is_ws dquote) with false;
    cbv iota; rewrite <- JSON_quote_append;
    rewrite !parse_members_string_comma;
    rewrite parse_members_strings_comma by lia;
    destruct fuel as [|[|[|fuel]]]; try lia.
  - rewrite parse_members_string_comma, parse_members_string_close. reflexivity.
  - rewrite parse_members_string_close. reflexivity.
Qed.

Lemma length_message_text (d l : string) (ts : list string) (t : string)
    (st : option string) (eol : string) :
  (length ts + 7
   <= String.length
        (JSON_stringify (JsObject (message_properties d l (map JsString ts) t st))
         +:+ eol))%nat.
Proof.
  rewrite JSON_stringify_message, !length_append.
  pose proof (length_join_quotes ts). simpl String.length. lia.
Qed.

Lemma JSON_parse_message (d l : string) (ts : list string) (t : string)
    (st : option string) (eol : string) :
  skip_ws eol = "" ->
  JSON_parse
    (JSON_stringify (JsObject (message_properties d l (map JsString ts) t st)) +:+ eol)
  = Some (JsObject (message_properties d l (map JsString ts) t st)).
Proof.
  intros Heol. unfold JSON_parse.
  rewrite parse_value_message by apply length_message_text.
  rewrite Heol. reflexivity.
Qed.

Lemma message_properties_level (d l : string) (tags : list JsValue) (t : string)
    (st : option string) :
  get_property (JsObject (message_properties d l tags t st)) "level"
  = Some (JsString l).
Proof. destruct st; reflexivity. Qed.

Lemma message_properties_tags (d l : string) (tags : list JsValue) (t : string)
    (st : option string) :
  get_property (JsObject (message_properties d l tags t st)) "tags"
  = Some (JsArray tags).
Proof. destruct st; reflexivity. Qed.

Lemma concat_arg_tags (tags : Tags) :
  concat_arg (tags_value tags) = map JsString (tags_list tags).
Proof. destruct tags; reflexivity. Qed.

(** ** What a log function adds to the sinks *)

Lemma only_line_refl (line : string) (sinks : gmap nat (list string)) :
  only_line line sinks sinks.
Proof. intros s. exists 0%nat. simpl. rewrite app_nil_r. reflexivity. Qed.

Lemma only_line_write (line : string) (a : Stream)
    (before after : gmap nat (list string)) :
  only_line line before after -> only_line line before (write a line after).
Proof.
  intros H s. destruct (H s) as [k Hk].
  destruct (decide (ref a = ref s)) as [E|E].
  - exists (S k). unfold write, written at 1. rewrite E, lookup_insert_eq.
    cbn [default from_option id].
    assert (Ha : written after a = written after s)
      by (unfold written; rewrite E; reflexivity).
    rewrite Ha, Hk, <- app_assoc. f_equal.
    rewrite <- repeat_cons. reflexivity.
  - exists k. rewrite written_write_other by exact E. exact Hk.
Qed.

Lemma only_line_added (line chunk : string) (before after : gmap nat (list string))
    (s : Stream) :
  only_line line before after -> In chunk (added before after s) -> chunk = line.
Proof.
  intros H Hin. destruct (H s) as [k Hk].
  rewrite (added_app before after s _ Hk) in Hin.
  apply repeat_spec in Hin. exact Hin.
Qed.

Lemma allDest0WarnDest1_only_line (P : Process) (m : SingleFn.Message) (b : bool)
    (dests : list Stream) (sinks : gmap nat (list string)) :
  only_line (SingleFn.messageStr P m) sinks
    (snd (SingleFn.allDest0WarnDest1 P m b dests sinks)).
Proof.
  unfold SingleFn.allDest0WarnDest1, promise, write_to, rbind.
  repeat (case_match; simplify_eq; cbn [snd]);
    eauto using only_line_refl, only_line_write.
Qed.

Lemma writeToDefaultDestination_only_line (text level : string) (b : bool)
    (dests : list Stream) (sinks : gmap nat (list string)) :
  only_line text sinks
    (snd (MultiFn.writeToDefaultDestination text level b dests sinks)).
Proof.
  unfold MultiFn.writeToDefaultDestination, promise, write_to, rbind.
  repeat (case_match; simplify_eq; cbn [snd]);
    eauto using only_line_refl, only_line_write.
Qed.

(** ** A single destination *)

Lemma allDest0WarnDest1_single (P : Process) (m : SingleFn.Message) (b : Level)
    (d0 : Stream) (sinks : gmap nat (list string)) :
  toUpperCase (SingleFn.level m) = token b ->
  SingleFn.allDest0WarnDest1 P m true [d0] sinks
  = (Resolved, write d0 (SingleFn.messageStr P m) sinks).
Proof.
  intros Hb. unfold SingleFn.allDest0WarnDest1. simpl negb. cbv iota.
  change LogLevel.INFO with (token INFO).
  rewrite (isFirst_levels b INFO _ Hb). simpl rbind.
  change ([d0] !! 1%nat) with (@None Stream).
  change ([d0] !! 0%nat) with (Some d0).
  destruct (position b >=? 3), (isTTY d0); reflexivity.
Qed.

(** With one destination, ["isTTY" in destinations[1]] is evaluated when
    destinations[0] has the property, and throws. *)
Lemma writeToDefaultDestination_single (text level : string) (b : Level)
    (d0 : Stream) (sinks : gmap nat (list string)) :
  toUpperCase level = token b ->
  MultiFn.writeToDefaultDestination text level true [d0] sinks
  = if has_isTTY d0 then (Rejected UndefinedAccess, sinks)
    else (Resolved, write d0 text sinks).
Proof.
  intros Hb. unfold MultiFn.writeToDefaultDestination. simpl negb. cbv iota.
  change LogLevel.INFO with (token INFO).
  rewrite (isFirst_levels b INFO _ Hb). simpl rbind.
  change ([d0] !! 1%nat) with (@None Stream).
  change ([d0] !! 0%nat) with (Some d0).
  destruct (position b >=? 3), (has_isTTY d0); reflexivity.
Qed.

(** ** The scenario of the test suite

    Level INFO and two capturing streams: an error is written to both, an
    information to the first only, a debug message to none; the first line
    of the first stream reads back with level ERROR and a stack. *)
Example logger_test_scenario :
  let this := sample_logger "INFO" ["logger-test.js"] in
  let now := "2016-05-01T15:35:19.997Z" in
  exists sinks1 sinks2 sinks3 line record,
    SingleFn.error posix this (JsError "boom" "Error: boom") [] now ∅
    = Ok (Resolved, sinks1)
    /\ SingleFn.info posix this (JsString "hello") [] now sinks1
       = Ok (Resolved, sinks2)
    /\ SingleFn.debug posix this (JsString "skip") [] now sinks2
       = Ok (Resolved, sinks3)
    /\ length (written sinks3 capture0) = 2%nat
    /\ written sinks3 capture1 = [line]
    /\ written sinks3 capture0 !! 0%nat = Some line
    /\ JSON_parse line = Some record
    /\ get_property record "level" = Some (JsString "ERROR")
    /\ get_property record "stack" = Some (JsString "Error: boom").
Proof.
  do 5 eexists.
  split; [vm_compute; reflexivity|].
  split; [vm_compute; reflexivity|].
  split; [vm_compute; reflexivity|].
  split; [vm_compute; reflexivity|].
  split; [vm_compute; reflexivity|].
  split; [vm_compute; reflexivity|].
  split; [vm_compute; reflexivity|].
  split; vm_compute; reflexivity.
Qed.

(** * Further properties of the code *)

(** ** Verbosity checks *)

Lemma isFirst_threshold (l : string) (b : Level) :
  isFirstLoglevelGreaterEqualSecond l (token b)
  = match level_of (toUpperCase l) with
    | Some a => Ok (reaches b a)
    | None => Throw (LoglevelNotSupported (toUpperCase l))
    end.
Proof.
  rewrite isFirst_position, position_of_token.
  destruct (level_of (toUpperCase l)); [|reflexivity].
  unfold reaches. rewrite Z.geb_leb. reflexivity.
Qed.

(** X1: the four verbosity checks form a chain: a logger that is
    debug-or-verboser is info-or-verboser, one that is info-or-verboser is
    warn-or-verboser, and so on; all four are false exactly at level OFF,
    all four are true exactly at level DEBUG, and they throw (all four, the
    same error) exactly when the level of the logger, uppercased, is not in
    the enumeration. *)
Theorem verbosity_checks_chain (this : SingleFn.Logger) :
  match level_of (toUpperCase (SingleFn.lg_level this)) with
  | Some a =>
      exists e w i d : bool,
        SingleFn.isErrorOrVerboser this = Ok e
        /\ SingleFn.isWarnOrVerboser this = Ok w
        /\ SingleFn.isInfoOrVerboser this = Ok i
        /\ SingleFn.isDebugOrVerboser this = Ok d
        /\ (d = true -> i = true) /\ (i = true -> w = true) /\ (w = true -> e = true)
        /\ (e = false <-> a = OFF)
        /\ (d = true <-> a = DEBUG)
  | None =>
      let err := Throw (LoglevelNotSupported (toUpperCase (SingleFn.lg_level this))) in
      SingleFn.isErrorOrVerboser this = err
      /\ SingleFn.isWarnOrVerboser this = err
      /\ SingleFn.isInfoOrVerboser this = err
      /\ SingleFn.isDebugOrVerboser this = err
  end.
Proof.
  unfold SingleFn.isErrorOrVerboser, SingleFn.isWarnOrVerboser,
    SingleFn.isInfoOrVerboser, SingleFn.isDebugOrVerboser.
  change LogLevel.ERROR with (token ERROR). change LogLevel.WARN with (token WARN).
  change LogLevel.INFO with (token INFO). change LogLevel.DEBUG with (token DEBUG).
  rewrite !isFirst_threshold.
  destruct (level_of (toUpperCase (SingleFn.lg_level this))) as [a|].
  - exists (reaches ERROR a), (reaches WARN a), (reaches INFO a), (reaches DEBUG a).
    repeat split; destruct a; simpl; try reflexivity; try discriminate;
      intros; discriminate.
  - repeat split.
Qed.

(** ** The checks and the per-level methods *)

Lemma doLog_throws (P : Process) (this : SingleFn.Logger) (level : string)
    (tags format : JsValue) (optionalParams : list JsValue) (now : string)
    (sinks : gmap nat (list string)) :
  level_of (toUpperCase (SingleFn.lg_level this)) = None ->
  SingleFn.doLog P this level tags format optionalParams now sinks
  = Throw (LoglevelNotSupported (toUpperCase (SingleFn.lg_level this))).
Proof.
  intros H. unfold SingleFn.doLog. rewrite shouldBeLogged_spec, H. reflexivity.
Qed.

Lemma check_false_filters (P : Process) (this : SingleFn.Logger) (b : Level)
    (format : JsValue) (optionalParams : list JsValue) (now : string)
    (sinks : gmap nat (list string)) :
  SingleFn.lg_logFunction this = SingleFn.allDest0WarnDest1_fn ->
  isFirstLoglevelGreaterEqualSecond (SingleFn.lg_level this) (token b) = Ok false ->
  SingleFn.doLog P this (token b) (JsArray []) format optionalParams now sinks
  = Ok (Resolved, sinks).
Proof.
  intros Hfn H. rewrite isFirst_threshold in H.
  destruct (level_of (toUpperCase (SingleFn.lg_level this))) as [a|] eqn:Ha;
    [|discriminate].
  injection H as H. unfold reaches in H. apply Z.leb_gt in H.
  apply (doLog_filtered P this a b); auto.
Qed.

Lemma check_true_logs (P : Process) (this : SingleFn.Logger) (b : Level)
    (format : JsValue) (optionalParams : list JsValue) (now : string)
    (d0 d1 : Stream) (rest : list Stream) (sinks : gmap nat (list string)) :
  SingleFn.lg_logFunction this = SingleFn.allDest0WarnDest1_fn ->
  SingleFn.lg_destinations this = d0 :: d1 :: rest ->
  isFirstLoglevelGreaterEqualSecond (SingleFn.lg_level this) (token b) = Ok true ->
  SingleFn.doLog P this (token b) (JsArray []) format optionalParams now sinks
  = Ok (Resolved,
        fanned b d0 d1
          (SingleFn.messageStr P
             (SingleFn.buildMessage P this (token b) (JsArray []) format
                optionalParams now))
          sinks).
Proof.
  intros Hfn Hd H. rewrite isFirst_threshold in H.
  destruct (level_of (toUpperCase (SingleFn.lg_level this))) as [a|] eqn:Ha;
    [|discriminate].
  injection H as H. unfold reaches in H.
  apply (doLog_logged P this a b _ _ _ _ d0 d1 rest); auto.
  rewrite Z.geb_leb, H. reflexivity.
Qed.

(** X2: a verbosity check is the filtering decision of the method of the
    same level: when [isErrorOrVerboser] (resp. warn, info, debug) returns
    false, [error] (resp. [warn], [info], [debug]) resolves without
    writing anything; when it returns true, the call is written (the
    stream written first receives the line); when it throws, so does the
    method. The log function is the built-in; two destinations for the
    written part. *)
Theorem check_decides_method (P : Process) (this : SingleFn.Logger)
    (format : JsValue) (optionalParams : list JsValue) (now : string)
    (sinks : gmap nat (list string)) :
  SingleFn.lg_logFunction this = SingleFn.allDest0WarnDest1_fn ->
  let decides (check : result bool) (b : Level)
        (method : result (Completion * gmap nat (list string))) : Prop :=
    match check with
    | Ok false => method = Ok (Resolved, sinks)
    | Ok true =>
        forall d0 d1 rest,
          SingleFn.lg_destinations this = d0 :: d1 :: rest ->
          exists sinks',
            method = Ok (Resolved, sinks')
            /\ added sinks sinks' (streamA b d0 d1)
               = [SingleFn.messageStr P
                    (SingleFn.buildMessage P this (token b) (JsArray []) format
                       optionalParams now)]
    | Throw e => method = Throw e
    end in
  decides (SingleFn.isErrorOrVerboser this) ERROR
    (SingleFn.error P this format optionalParams now sinks)
  /\ decides (SingleFn.isWarnOrVerboser this) WARN
       (SingleFn.warn P this format optionalParams now sinks)
  /\ decides (SingleFn.isInfoOrVerboser this) INFO
       (SingleFn.info P this format optionalParams now sinks)
  /\ decides (SingleFn.isDebugOrVerboser this) DEBUG
       (SingleFn.debug P this format optionalParams now sinks).
Proof.
  intros Hfn decides.
  assert (H : forall b,
             decides (isFirstLoglevelGreaterEqualSecond (SingleFn.lg_level this) (token b))
               b (SingleFn.doLog P this (token b) (JsArray []) format
                    optionalParams now sinks)).
  { intros b. unfold decides.
    destruct (isFirstLoglevelGreaterEqualSecond (SingleFn.lg_level this) (token b))
      as [[|]|e] eqn:E.
    - intros d0 d1 rest Hd. eexists. split.
      + apply (check_true_logs P this b _ _ _ d0 d1 rest); assumption.
      + apply added_app, fanned_streamA.
    - apply check_false_filters; assumption.
    - rewrite isFirst_threshold in E.
      destruct (level_of (toUpperCase (SingleFn.lg_level this))) eqn:Ha;
        [discriminate|].
      injection E as <-. apply doLog_throws. exact Ha. }
  repeat split; [apply (H ERROR) | apply (H WARN) | apply (H INFO) | apply (H DEBUG)].
Qed.

Lemma check_decides_method_witness :
  let this := sample_logger "WARN" [] in
  SingleFn.lg_logFunction this = SingleFn.allDest0WarnDest1_fn
  /\ SingleFn.isInfoOrVerboser this = Ok false
  /\ SingleFn.info posix this (JsString "hello") [] "2016-05-01T15:35:19.997Z" ∅
     = Ok (Resolved, ∅).
Proof.
  intros this.
  split; [reflexivity|]. split; [reflexivity|].
  exact (proj1 (proj2 (proj2
           (check_decides_method posix this (JsString "hello") []
              "2016-05-01T15:35:19.997Z" ∅ eq_refl)))).
Defined.

(** ** Resolving the destinations *)

Lemma resolved_as_mono (P : Process) (checked : bool) (n m m' n' : nat)
    (dest : Destination) (s : Stream) :
  (n <= m)%nat -> (m' <= n')%nat ->
  resolved_as P checked m m' dest s -> resolved_as P checked n n' dest s.
Proof.
  intros H1 H2. destruct dest as [name|x| |]; simpl; auto.
  destruct (String.eqb name "stdout"); auto.
  destruct (String.eqb name "stderr"); auto.
  intros [k [Hk Hs]]. exists k. split; [lia | exact Hs].
Qed.

Lemma setDestinations_push_single (P : Process) (dest : Destination) (n : nat) :
  match SingleFn.setDestinations_push P dest n with
  | (Ok s, n1) =>
      resolved_as P true n n1 dest s
      /\ n1 = (n + length (List.filter is_path [dest]))%nat
  | (Throw e, n1) => n1 = n /\ fails_at P true n dest e
  end.
Proof.
  destruct dest as [name|x| |]; cbn [SingleFn.setDestinations_push].
  - unfold resolved_as, fails_at. cbn [List.filter is_path].
    destruct (String.eqb name "stdout") eqn:E1; [split; [reflexivity|simpl; lia]|].
    destruct (String.eqb name "stderr") eqn:E2; [split; [reflexivity|simpl; lia]|].
    destruct (createWriteStream P name n) as [s|e] eqn:E.
    + split; [|simpl; lia]. exists n. split; [lia | exact E].
    + split; [reflexivity|]. right. exists name.
      split; [reflexivity|]. split; [reflexivity | exact E].
  - destruct (instanceofWritable x) eqn:E.
    + split; [|simpl; lia]. split; [reflexivity | intros _; exact E].
    + split; [reflexivity|]. left. simpl. rewrite E. reflexivity.
  - split; [reflexivity|]. left. reflexivity.
  - split; [reflexivity|]. left. reflexivity.
Qed.

Lemma setDestinations_push_multi (P : Process) (dest : Destination) (n : nat) :
  match MultiFn.setDestinations_push P dest n with
  | (Ok s, n1) =>
      resolved_as P false n n1 dest s
      /\ n1 = (n + length (List.filter is_path [dest]))%nat
  | (Throw e, n1) => n1 = n /\ fails_at P false n dest e
  end.
Proof.
  destruct dest as [name|x| |]; cbn [MultiFn.setDestinations_push].
  - unfold resolved_as, fails_at. cbn [List.filter is_path].
    destruct (String.eqb name "stdout") eqn:E1; [split; [reflexivity|simpl; lia]|].
    destruct (String.eqb name "stderr") eqn:E2; [split; [reflexivity|simpl; lia]|].
    destruct (createWriteStream P name n) as [s|e] eqn:E.
    + split; [|simpl; lia]. exists n. split; [lia | exact E].
    + split; [reflexivity|]. right. exists name.
      split; [reflexivity|]. split; [reflexivity | exact E].
  - split; [|simpl; lia]. split; [reflexivity | discriminate].
  - split; [reflexivity|]. left. reflexivity.
  - split; [reflexivity|]. left. reflexivity.
Qed.

Lemma filter_is_path_cons (dest : Destination) (rest : list Destination) :
  length (List.filter is_path (dest :: rest))
  = (length (List.filter is_path [dest]) + length (List.filter is_path rest))%nat.
Proof. simpl. destruct (is_path dest); reflexivity. Qed.

Lemma setDestinations_single_spec (P : Process) (dests : list Destination) (n : nat) :
  match SingleFn.setDestinations P dests n with
  | (Ok l, n') =>
      Forall2 (resolved_as P true n n') dests l
      /\ n' = (n + length (List.filter is_path dests))%nat
  | (Throw e, n') =>
      exists before bad after l,
        dests = before ++ bad :: after
        /\ SingleFn.setDestinations P before n = (Ok l, n')
        /\ fails_at P true n' bad e
  end.
Proof.
  revert n. induction dests as [|dest rest IH]; intros n.
  - simpl. split; [constructor | lia].
  - cbn [SingleFn.setDestinations].
    pose proof (setDestinations_push_single P dest n) as Hp.
    destruct (SingleFn.setDestinations_push P dest n) as [[s|e] n1] eqn:Ep.
    + destruct Hp as [Hs Hn1]. specialize (IH n1).
      destruct (SingleFn.setDestinations P rest n1) as [[l|e] n2] eqn:Er.
      * destruct IH as [Hl Hn2]. split.
        -- constructor.
           ++ apply (resolved_as_mono P true n n n1 n2); [lia | lia | exact Hs].
           ++ eapply Forall2_impl; [exact Hl|]. intros d x.
              apply resolved_as_mono; lia.
        -- rewrite filter_is_path_cons. lia.
      * destruct IH as (before & bad & after & l & Hrest & Hbefore & Hbad).
        exists (dest :: before), bad, after, (s :: l).
        split; [rewrite Hrest; reflexivity|]. split; [|exact Hbad].
        cbn [SingleFn.setDestinations]. rewrite Ep, Hbefore. reflexivity.
    + destruct Hp as [-> Hbad]. exists [], dest, rest, [].
      split; [reflexivity|]. split; [reflexivity | exact Hbad].
Qed.

Lemma setDestinations_multi_spec (P : Process) (dests : list Destination) (n : nat) :
  match MultiFn.setDestinations P dests n with
  | (Ok l, n') =>
      Forall2 (resolved_as P false n n') dests l
      /\ n' = (n + length (List.filter is_path dests))%nat
  | (Throw e, n') =>
      exists before bad after l,
        dests = before ++ bad :: after
        /\ MultiFn.setDestinations P before n = (Ok l, n')
        /\ fails_at P false n' bad e
  end.
Proof.
  revert n. induction dests as [|dest rest IH]; intros n.
  - simpl. split; [constructor | lia].
  - cbn [MultiFn.setDestinations].
    pose proof (setDestinations_push_multi P dest n) as Hp.
    destruct (MultiFn.setDestinations_push P dest n) as [[s|e] n1] eqn:Ep.
    + destruct Hp as [Hs Hn1]. specialize (IH n1).
      destruct (MultiFn.setDestinations P rest n1) as [[l|e] n2] eqn:Er.
      * destruct IH as [Hl Hn2]. split.
        -- constructor.
           ++ apply (resolved_as_mono P false n n n1 n2); [lia | lia | exact Hs].
           ++ eapply Forall2_impl; [exact Hl|]. intros d x.
              apply resolved_as_mono; lia.
        -- rewrite filter_is_path_cons. lia.
      * destruct IH as (before & bad & after & l & Hrest & Hbefore & Hbad).
        exists (dest :: before), bad, after, (s :: l).
        split; [rewrite Hrest; reflexivity|]. split; [|exact Hbad].
        cbn [MultiFn.setDestinations]. rewrite Ep, Hbefore. reflexivity.
    + destruct Hp as [-> Hbad]. exists [], dest, rest, [].
      split; [reflexivity|]. split; [reflexivity | exact Hbad].
Qed.

(** X3: [setDestinations] resolves the elements in order and stops at the
    first one that fails. When it returns, the result has one stream per
    element, in order: "stdout" and "stderr" give the streams of the
    process, any other string is a path for which [fs.createWriteStream]
    returned a stream (as many files are opened as there are such
    strings), a stream object is kept as it is. When it throws, every
    element before the failing one was resolved in this way, the files
    named before it have been opened and stay so, and the failing element
    is either a path on which [fs.createWriteStream] throws (the
    exception is passed on) or an element refused for what it is:
    [src/index.ts] refuses, with the TypeError for an unexpected
    destination, whatever is not a string nor an instance of
    [stream.Writable] or [stream.Transform]; the other variant refuses
    with that TypeError an object without a [write] member, and on a
    primitive that is not a string its test ["write" in dest] throws the
    TypeError of the operator. *)
Theorem setDestinations_stops_at_first_failure (P : Process)
    (dests : list Destination) (n : nat) :
  match SingleFn.setDestinations P dests n with
  | (Ok l, n') =>
      Forall2 (resolved_as P true n n') dests l
      /\ n' = (n + length (List.filter is_path dests))%nat
  | (Throw e, n') =>
      exists before bad after l,
        dests = before ++ bad :: after
        /\ Forall2 (resolved_as P true n n') before l
        /\ n' = (n + length (List.filter is_path before))%nat
        /\ fails_at P true n' bad e
  end
  /\ match MultiFn.setDestinations P dests n with
     | (Ok l, n') =>
         Forall2 (resolved_as P false n n') dests l
         /\ n' = (n + length (List.filter is_path dests))%nat
     | (Throw e, n') =>
         exists before bad after l,
           dests = before ++ bad :: after
           /\ Forall2 (resolved_as P false n n') before l
           /\ n' = (n + length (List.filter is_path before))%nat
           /\ fails_at P false n' bad e
     end.
Proof.
  split.
  - pose proof (setDestinations_single_spec P dests n) as H.
    destruct (SingleFn.setDestinations P dests n) as [[l|e] n']; [exact H|].
    destruct H as (before & bad & after & l & Hd & Hbefore & Hbad).
    exists before, bad, after, l. split; [exact Hd|].
    pose proof (setDestinations_single_spec P before n) as Hb.
    rewrite Hbefore in Hb. destruct Hb as [Hb1 Hb2].
    split; [exact Hb1|]. split; [exact Hb2 | exact Hbad].
  - pose proof (setDestinations_multi_spec P dests n) as H.
    destruct (MultiFn.setDestinations P dests n) as [[l|e] n']; [exact H|].
    destruct H as (before & bad & after & l & Hd & Hbefore & Hbad).
    exists before, bad, after, l. split; [exact Hd|].
    pose proof (setDestinations_multi_spec P before n) as Hb.
    rewrite Hbefore in Hb. destruct Hb as [Hb1 Hb2].
    split; [exact Hb1|]. split; [exact Hb2 | exact Hbad].
Qed.

Lemma setDestinations_stops_at_first_failure_witness :
  SingleFn.setDestinations posix [DestString "app.log"; DestPrimitive; DestOther] 0
  = (Throw DestinationUnexpectedType, 1%nat)
  /\ MultiFn.setDestinations posix [DestString "app.log"; DestPrimitive; DestOther] 0
     = (Throw InOperatorOnPrimitive, 1%nat)
  /\ exists before bad after l,
       [DestString "app.log"; DestPrimitive; DestOther] = before ++ bad :: after
       /\ Forall2 (resolved_as posix false 0 1) before l
       /\ 1%nat = (0 + length (List.filter is_path before))%nat
       /\ fails_at posix false 1 bad InOperatorOnPrimitive.
Proof.
  split; [reflexivity|]. split; [reflexivity|].
  exact (proj2 (setDestinations_stops_at_first_failure posix
                  [DestString "app.log"; DestPrimitive; DestOther] 0)).
Defined.

(** ** Construction *)

Lemma Forall2_length_eq {A B} (R : A -> B -> Prop) (l : list A) (k : list B) :
  Forall2 R l k -> length l = length k.
Proof. induction 1; simpl; congruence. Qed.

(** X4: the constructor checks the level first and as it is spelled: a
    level that is not exactly one of the five tokens (a lowercase "info",
    say) makes the construction fail with the level error, whatever the
    other options are, and nothing has been done by then. A Logger that is
    constructed has a level of the enumeration (the option, or DEBUG), the
    tags it was given, one destination per element of the option (the two
    streams of the process by default), and it is the new
    [Logger.instance]. *)
Theorem constructor_checks_level (P : Process) (options : SingleFn.LoggerOptions)
    (tags : list string) (w : SingleFn.World) :
  let level := default SingleFn.defaultOptions_level (SingleFn.opt_level options) in
  let destinations :=
    default (SingleFn.defaultOptions_destinations P)
      (SingleFn.opt_destinations options) in
  (level_of level = None ->
   SingleFn.new_Logger P options tags w = (Throw (LoglevelNotSupported level), w))
  /\ (forall this w',
      SingleFn.new_Logger P options tags w = (Ok this, w') ->
      SingleFn.lg_level this = level
      /\ is_level_token level
      /\ SingleFn.lg_tags this = tags
      /\ length (SingleFn.lg_destinations this) = length destinations
      /\ SingleFn.instance w' = Some this
      /\ SingleFn.opened w'
         = (SingleFn.opened w + length (List.filter is_path destinations))%nat).
Proof.
  intros level destinations. unfold SingleFn.new_Logger.
  fold level. fold destinations. rewrite checkLoglevel_level_of. split.
  - intros H. rewrite H. reflexivity.
  - intros this w' H.
    destruct (level_of level) as [l|] eqn:El; [|discriminate].
    pose proof (setDestinations_single_spec P destinations (SingleFn.opened w)) as Hd.
    destruct (SingleFn.setDestinations P destinations (SingleFn.opened w))
      as [[dests|e] n]; [|discriminate].
    destruct (SingleFn.setLogFunction _) as [f|e]; [|discriminate].
    injection H as <- <-. destruct Hd as [Hd1 Hd2].
    cbn [SingleFn.lg_level SingleFn.lg_tags SingleFn.lg_destinations
         SingleFn.instance SingleFn.opened].
    repeat split; try assumption.
    + exists l. apply level_of_Some. exact El.
    + symmetry. eapply Forall2_length_eq. exact Hd1.
Qed.

Lemma constructor_checks_level_witness :
  let options := {| SingleFn.opt_level := Some "info";
                    SingleFn.opt_destinations := None;
                    SingleFn.opt_logFunction := None;
                    SingleFn.opt_tags := None |} in
  let w := {| SingleFn.instance := None; SingleFn.opened := 0 |} in
  level_of "info" = None
  /\ SingleFn.new_Logger posix options ["main.js"] w
     = (Throw (LoglevelNotSupported "info"), w)
  /\ exists this w',
       SingleFn.new_Logger posix no_options ["main.js"] w = (Ok this, w')
       /\ SingleFn.lg_level this = "DEBUG"
       /\ length (SingleFn.lg_destinations this) = 2%nat.
Proof.
  intros options w.
  split; [reflexivity|]. split.
  - exact (proj1 (constructor_checks_level posix options ["main.js"] w) eq_refl).
  - eexists. eexists. split; [reflexivity|].
    destruct (proj2 (constructor_checks_level posix no_options ["main.js"] w)
                _ _ eq_refl) as [H1 [_ [_ [H2 _]]]].
    split; [exact H1 | exact H2].
Defined.

(** ** Construction after the first, in the [logFunctions]-array variant *)

Lemma setLogFunctions_values
    (require_export : string -> string -> result (option MultiFn.LogFn))
    (fns : list MultiFn.LogFn) :
  MultiFn.setLogFunctions require_export (map MultiFn.FnValue fns) = Ok fns.
Proof.
  induction fns as [|f fns IH]; [reflexivity|].
  cbn [map MultiFn.setLogFunctions rbind]. rewrite IH. reflexivity.
Qed.

Lemma setDestinations_multi_streams (P : Process) (l : list Stream) (n : nat) :
  MultiFn.setDestinations P (map DestStream l) n = (Ok l, n).
Proof.
  induction l as [|s l IH]; [reflexivity|].
  cbn [map MultiFn.setDestinations MultiFn.setDestinations_push].
  rewrite IH. reflexivity.
Qed.

Lemma new_Logger_multi_getOptions (P : Process)
    (require_export : string -> string -> result (option MultiFn.LogFn))
    (inst : MultiFn.Logger) (tags : list string) (w : MultiFn.World) :
  MultiFn.new_Logger P require_export (MultiFn.getOptions inst) tags w
  = match level_of (MultiFn.lg_level inst) with
    | None => (Throw (LoglevelNotSupported (MultiFn.lg_level inst)), w)
    | Some _ =>
        let this := {| MultiFn.lg_level := MultiFn.lg_level inst;
                       MultiFn.lg_tags := tags;
                       MultiFn.lg_destinations := MultiFn.lg_destinations inst;
                       MultiFn.lg_logFunctions := MultiFn.lg_logFunctions inst |} in
        (Ok this, {| MultiFn.instance := Some this;
                     MultiFn.opened := MultiFn.opened w |})
    end.
Proof.
  unfold MultiFn.new_Logger, MultiFn.getOptions.
  cbn [MultiFn.opt_level MultiFn.opt_destinations MultiFn.opt_logFunctions
       default from_option id].
  rewrite checkLoglevel_level_of.
  destruct (level_of (MultiFn.lg_level inst)); [|reflexivity].
  rewrite setDestinations_multi_streams, setLogFunctions_values. reflexivity.
Qed.

(** X5: in the [logFunctions]-array variant too, a creation operation
    that finds a [Logger.instance] clones it: the options, the
    configuration file and the module loader play no part; the call fails
    (with the level error, the state of the module unchanged) exactly
    when the level of the instance is not, as it is spelled, a token of
    the enumeration, and otherwise constructs a Logger with the level, the
    destinations and the log functions of the instance, in the same order,
    the tags being the file name of the caller followed by the tags of the
    call; no file is opened. *)
Theorem multi_creation_clones_the_instance (P : Process)
    (require_export : string -> string -> result (option MultiFn.LogFn))
    (w : MultiFn.World) (inst : MultiFn.Logger) (caller : string)
    (tags : list string) :
  MultiFn.instance w = Some inst ->
  let outcome :=
    match level_of (MultiFn.lg_level inst) with
    | None => (Throw (LoglevelNotSupported (MultiFn.lg_level inst)), w)
    | Some _ =>
        let this := {| MultiFn.lg_level := MultiFn.lg_level inst;
                       MultiFn.lg_tags := caller :: tags;
                       MultiFn.lg_destinations := MultiFn.lg_destinations inst;
                       MultiFn.lg_logFunctions := MultiFn.lg_logFunctions inst |} in
        (Ok this, {| MultiFn.instance := Some this;
                     MultiFn.opened := MultiFn.opened w |})
    end in
  (forall options,
      MultiFn.createFromArguments P require_export caller options tags w = outcome)
  /\ (forall config,
      MultiFn.createFromConfigFile P require_export caller config tags w = outcome).
Proof.
  intros Hw outcome. split.
  - intros options. unfold MultiFn.createFromArguments. rewrite Hw.
    apply new_Logger_multi_getOptions.
  - intros config. unfold MultiFn.createFromConfigFile. rewrite Hw.
    apply new_Logger_multi_getOptions.
Qed.

Lemma multi_creation_clones_the_instance_witness :
  let inst := sample_logger_multi "info" ["main.js"] [MultiFn.LogFunction_defaultJson] in
  let w := {| MultiFn.instance := Some inst; MultiFn.opened := 0 |} in
  MultiFn.instance w = Some inst
  /\ MultiFn.createFromArguments posix (fun _ _ => Ok None) "module.js" json_options
       ["touch_feature"] w
     = (Throw (LoglevelNotSupported "info"), w).
Proof.
  intros inst w. split; [reflexivity|].
  exact (proj1 (multi_creation_clones_the_instance posix (fun _ _ => Ok None) w inst
                  "module.js" ["touch_feature"] eq_refl) json_options).
Defined.

(** ** The built-in log functions on any list of destinations *)

Lemma allDest0WarnDest1_logged (P : Process) (m : SingleFn.Message)
    (dests : list Stream) (sinks : gmap nat (list string)) :
  SingleFn.allDest0WarnDest1 P m true dests sinks
  = match level_of (toUpperCase (SingleFn.level m)) with
    | None =>
        (Rejected (LoglevelNotSupported (toUpperCase (SingleFn.level m))), sinks)
    | Some b =>
        match delivered true b dests (SingleFn.messageStr P m) sinks with
        | Some sinks' => (Resolved, sinks')
        | None => (Rejected UndefinedAccess, sinks)
        end
    end.
Proof.
  destruct (level_of (toUpperCase (SingleFn.level m))) as [b|] eqn:E.
  - apply level_of_Some in E. symmetry in E.
    destruct dests as [|d0 [|d1 rest]].
    + unfold SingleFn.allDest0WarnDest1. simpl negb. cbv iota.
      change LogLevel.INFO with (token INFO).
      rewrite (isFirst_levels b INFO _ E). simpl rbind.
      destruct (position b >=? 3); reflexivity.
    + rewrite (allDest0WarnDest1_single P m b d0 sinks E). reflexivity.
    + rewrite (allDest0WarnDest1_fanned P m b d0 d1 rest sinks E). reflexivity.
  - unfold SingleFn.allDest0WarnDest1. simpl negb. cbv iota.
    rewrite isFirst_position, E. reflexivity.
Qed.

Lemma writeToDefaultDestination_logged (text level : string)
    (dests : list Stream) (sinks : gmap nat (list string)) :
  MultiFn.writeToDefaultDestination text level true dests sinks
  = match level_of (toUpperCase level) with
    | None => (Rejected (LoglevelNotSupported (toUpperCase level)), sinks)
    | Some b =>
        match delivered false b dests text sinks with
        | Some sinks' => (Resolved, sinks')
        | None => (Rejected UndefinedAccess, sinks)
        end
    end.
Proof.
  destruct (level_of (toUpperCase level)) as [b|] eqn:E.
  - apply level_of_Some in E. symmetry in E.
    destruct dests as [|d0 [|d1 rest]].
    + unfold MultiFn.writeToDefaultDestination. simpl negb. cbv iota.
      change LogLevel.INFO with (token INFO).
      rewrite (isFirst_levels b INFO _ E). reflexivity.
    + rewrite (writeToDefaultDestination_single text level b d0 sinks E).
      simpl. destruct (has_isTTY d0); reflexivity.
    + rewrite (writeToDefaultDestination_fanned text level b d0 d1 rest sinks E).
      reflexivity.
  - unfold MultiFn.writeToDefaultDestination. simpl negb. cbv iota.
    rewrite isFirst_position, E. reflexivity.
Qed.

(** X6: when a built-in log function that is told to log settles. The
    promise of [allDest0WarnDest1] is rejected exactly when the level of
    the message, uppercased, is not in the enumeration (the level error) or
    there is no destination at all (a TypeError); with one destination or
    more it is resolved. Whenever the promise is rejected, nothing has
    been written. *)
Theorem allDest0WarnDest1_settles (P : Process) (m : SingleFn.Message)
    (dests : list Stream) (sinks : gmap nat (list string)) :
  let outcome := SingleFn.allDest0WarnDest1 P m true dests sinks in
  (fst outcome = Resolved
   <-> is_level_token (toUpperCase (SingleFn.level m)) /\ dests <> [])
  /\ (level_of (toUpperCase (SingleFn.level m)) = None ->
      fst outcome = Rejected (LoglevelNotSupported (toUpperCase (SingleFn.level m))))
  /\ (is_level_token (toUpperCase (SingleFn.level m)) -> dests = [] ->
      fst outcome = Rejected UndefinedAccess)
  /\ (fst outcome <> Resolved -> snd outcome = sinks).
Proof.
  intros outcome. unfold outcome. rewrite allDest0WarnDest1_logged.
  destruct (level_of (toUpperCase (SingleFn.level m))) as [b|] eqn:E.
  - assert (Ht : is_level_token (toUpperCase (SingleFn.level m)))
      by (apply is_level_token_level_of; eauto).
    destruct dests as [|d0 [|d1 rest]]; simpl; repeat split; try tauto;
      try discriminate; try congruence; intros [_ H]; congruence.
  - assert (Ht : ~ is_level_token (toUpperCase (SingleFn.level m)))
      by (apply level_of_None; exact E).
    simpl. repeat split; try tauto; try discriminate.
Qed.

Lemma allDest0WarnDest1_settles_witness :
  let m := {| SingleFn.isoDate := "2016-05-01T15:35:19.997Z";
              SingleFn.level := "verbose";
              SingleFn.tags := [];
              SingleFn.text := "x";
              SingleFn.stack := None |} in
  level_of (toUpperCase (SingleFn.level m)) = None
  /\ fst (SingleFn.allDest0WarnDest1 posix m true [capture0] ∅)
     = Rejected (LoglevelNotSupported "VERBOSE").
Proof.
  intros m. split; [reflexivity|].
  exact (proj1 (proj2 (allDest0WarnDest1_settles posix m [capture0] ∅)) eq_refl).
Defined.

(** X7: the same for [defaultText] and [defaultJson], whose terminal test
    is ["isTTY" in stream]: besides an invalid level and an empty list of
    destinations, the promise is rejected (a TypeError, nothing written)
    when there is exactly one destination and it has an [isTTY] property,
    whatever the value of the property, since the test is then applied to
    the missing second destination; in every other case it is resolved. *)
Theorem writeToDefaultDestination_settles (text level : string)
    (dests : list Stream) (sinks : gmap nat (list string)) :
  let outcome := MultiFn.writeToDefaultDestination text level true dests sinks in
  (fst outcome = Resolved
   <-> is_level_token (toUpperCase level)
       /\ dests <> []
       /\ (forall d0, dests = [d0] -> has_isTTY d0 = false))
  /\ (is_level_token (toUpperCase level) ->
      forall d0, dests = [d0] -> has_isTTY d0 = true ->
      outcome = (Rejected UndefinedAccess, sinks))
  /\ (fst outcome <> Resolved -> snd outcome = sinks).
Proof.
  intros outcome. unfold outcome. rewrite writeToDefaultDestination_logged.
  destruct (level_of (toUpperCase level)) as [b|] eqn:E.
  - assert (Ht : is_level_token (toUpperCase level))
      by (apply is_level_token_level_of; eauto).
    destruct dests as [|d0 [|d1 rest]]; simpl.
    + repeat split; try discriminate; try tauto;
        try (intros [_ [H _]]; congruence).
    + destruct (has_isTTY d0) eqn:T; simpl.
      * split; [split; [discriminate|]|split].
        -- intros [_ [_ H]]. specialize (H d0 eq_refl). congruence.
        -- reflexivity.
        -- reflexivity.
      * split; [split|split].
        -- intros _. split; [exact Ht|]. split; [discriminate|].
           intros d H. injection H as <-. exact T.
        -- reflexivity.
        -- intros _ d H Hd. injection H as <-. congruence.
        -- intros H. congruence.
    + repeat split; try discriminate; try tauto; try congruence.
  - assert (Ht : ~ is_level_token (toUpperCase level))
      by (apply level_of_None; exact E).
    simpl. repeat split; try tauto; try discriminate.
Qed.

Lemma writeToDefaultDestination_settles_witness :
  is_level_token (toUpperCase "INFO")
  /\ isTTY quiet0 = false
  /\ has_isTTY quiet0 = true
  /\ MultiFn.writeToDefaultDestination "hello" "INFO" true [quiet0] ∅
     = (Rejected UndefinedAccess, ∅).
Proof.
  assert (H : is_level_token (toUpperCase "INFO")) by (exists INFO; reflexivity).
  split; [exact H|]. split; [reflexivity|]. split; [reflexivity|].
  exact (proj1 (proj2 (writeToDefaultDestination_settles "hello" "INFO"
                         [quiet0] ∅)) H quiet0 eq_refl eq_refl).
Defined.

Lemma written_ref (sinks : gmap nat (list string)) (s t : Stream) :
  ref s = ref t -> written sinks s = written sinks t.
Proof. intros H. unfold written. rewrite H. reflexivity. Qed.

Lemma added_ref (before after : gmap nat (list string)) (s t : Stream) :
  ref s = ref t -> added before after s = added before after t.
Proof.
  intros H. unfold added. rewrite (written_ref before s t H), (written_ref after s t H).
  reflexivity.
Qed.

Lemma added_write (s t : Stream) (line : string) (sinks : gmap nat (list string)) :
  added sinks (write s line sinks) t = if decide (ref s = ref t) then [line] else [].
Proof.
  destruct (decide (ref s = ref t)) as [E|E].
  - rewrite <- (added_ref _ _ s t E). apply added_app, written_write_same.
  - apply added_unchanged, written_write_other. exact E.
Qed.

Lemma delivered_frame (guarded : bool) (b : Level) (dests : list Stream)
    (line : string) (sinks sinks' : gmap nat (list string)) (s : Stream) :
  delivered guarded b dests line sinks = Some sinks' ->
  (forall d, dests !! 0%nat = Some d -> ref d <> ref s) ->
  (forall d, dests !! 1%nat = Some d -> ref d <> ref s) ->
  written sinks' s = written sinks s.
Proof.
  intros H H0 H1. destruct dests as [|d0 [|d1 rest]]; simpl in H.
  - discriminate.
  - destruct (negb guarded && has_isTTY d0); [discriminate|]. injection H as <-.
    apply written_write_other, H0. reflexivity.
  - injection H as <-. apply fanned_other.
    + intros E. apply (H0 d0); [reflexivity | congruence].
    + intros E. apply (H1 d1); [reflexivity | congruence].
Qed.

Lemma delivered_once (guarded : bool) (b : Level) (dests : list Stream)
    (line : string) (sinks sinks' : gmap nat (list string)) :
  delivered guarded b dests line sinks = Some sinks' ->
  (forall s, added sinks sinks' s = [] \/ added sinks sinks' s = [line])
  /\ exists d, (dests !! 0%nat = Some d \/ dests !! 1%nat = Some d)
               /\ added sinks sinks' d = [line].
Proof.
  intros H. destruct dests as [|d0 [|d1 rest]]; simpl in H.
  - discriminate.
  - destruct (negb guarded && has_isTTY d0); [discriminate|]. injection H as <-. split.
    + intros s. rewrite added_write. destruct (decide (ref d0 = ref s)); auto.
    + exists d0. split; [left; reflexivity|]. rewrite added_write.
      destruct (decide (ref d0 = ref d0)); congruence.
  - injection H as <-. split.
    + intros s. destruct (decide (ref d0 = ref d1)) as [E|E].
      * rewrite (fanned_same_ref _ b d0 d1 line sinks E), added_write.
        destruct (decide (ref d0 = ref s)); auto.
      * destruct (fanned_added (if guarded then isTTY else has_isTTY)
                    b d0 d1 line sinks E) as [A0 A1].
        destruct (decide (ref s = ref d0)) as [E0|E0];
          [|destruct (decide (ref s = ref d1)) as [E1|E1]].
        -- rewrite (added_ref _ _ s d0 E0), A0.
           destruct (to_dest1 b && _); auto.
        -- rewrite (added_ref _ _ s d1 E1), A1. destruct (to_dest1 b); auto.
        -- left. apply added_unchanged, fanned_other; assumption.
    + exists (streamA b d0 d1). split.
      * unfold streamA.
        destruct ((position b <? position INFO) && negb (ref d0 =? ref d1)%nat);
          [right | left]; reflexivity.
      * apply added_app, fanned_streamA.
Qed.

Lemma allDest0WarnDest1_delivers (P : Process) (m : SingleFn.Message) (b : bool)
    (dests : list Stream) (sinks : gmap nat (list string)) :
  let outcome := SingleFn.allDest0WarnDest1 P m b dests sinks in
  (fst outcome = Resolved /\ b = true
   /\ exists lvl, delivered true lvl dests (SingleFn.messageStr P m) sinks
                  = Some (snd outcome))
  \/ ((fst outcome <> Resolved \/ b = false) /\ snd outcome = sinks).
Proof.
  intros outcome. unfold outcome. destruct b.
  - rewrite allDest0WarnDest1_logged.
    destruct (level_of (toUpperCase (SingleFn.level m))) as [lvl|].
    + destruct (delivered true lvl dests (SingleFn.messageStr P m) sinks)
        as [sinks'|] eqn:E.
      * left. simpl. split; [reflexivity|]. split; [reflexivity|].
        exists lvl. exact E.
      * right. simpl. split; [left; discriminate | reflexivity].
    + right. simpl. split; [left; discriminate | reflexivity].
  - right. split; [right; reflexivity | reflexivity].
Qed.

Lemma call_builtin_delivers (P : Process) (f : MultiFn.LogFn) (m : MultiFn.Message)
    (b : bool) (dests : list Stream) (sinks : gmap nat (list string)) :
  builtin f = true ->
  let outcome := MultiFn.call P f m b dests sinks in
  (fst outcome = Resolved /\ b = true
   /\ exists lvl, delivered false lvl dests (line_of P f m) sinks
                  = Some (snd outcome))
  \/ ((fst outcome <> Resolved \/ b = false) /\ snd outcome = sinks).
Proof.
  intros Hf outcome. unfold outcome.
  assert (Hcall : MultiFn.call P f m b dests sinks
                  = MultiFn.writeToDefaultDestination (line_of P f m)
                      (MultiFn.level m) b dests sinks)
    by (destruct f; [reflexivity | reflexivity | discriminate]).
  rewrite Hcall. destruct b.
  - rewrite writeToDefaultDestination_logged.
    destruct (level_of (toUpperCase (MultiFn.level m))) as [lvl|].
    + destruct (delivered false lvl dests (line_of P f m) sinks) as [sinks'|] eqn:E.
      * left. simpl. split; [reflexivity|]. split; [reflexivity|].
        exists lvl. exact E.
      * right. simpl. split; [left; discriminate | reflexivity].
    + right. simpl. split; [left; discriminate | reflexivity].
  - right. split; [right; reflexivity | reflexivity].
Qed.

(** X8: a built-in log function never writes the line of a message twice
    to one stream, and a resolved promise means the line has been written:
    after a call, every stream holds either nothing new or exactly the
    line, once; and when the function was told to log and its promise is
    resolved, destinations[0] or destinations[1] holds the line. This is
    so for every list of destinations, equal streams included. *)
Theorem line_written_once (P : Process) (b : bool) (dests : list Stream)
    (sinks : gmap nat (list string)) :
  (forall m : SingleFn.Message,
      let outcome := SingleFn.allDest0WarnDest1 P m b dests sinks in
      (forall s, added sinks (snd outcome) s = []
                 \/ added sinks (snd outcome) s = [SingleFn.messageStr P m])
      /\ (b = true -> fst outcome = Resolved ->
          exists d, (dests !! 0%nat = Some d \/ dests !! 1%nat = Some d)
                    /\ added sinks (snd outcome) d = [SingleFn.messageStr P m]))
  /\ (forall (f : MultiFn.LogFn) (m : MultiFn.Message),
      builtin f = true ->
      let outcome := MultiFn.call P f m b dests sinks in
      (forall s, added sinks (snd outcome) s = []
                 \/ added sinks (snd outcome) s = [line_of P f m])
      /\ (b = true -> fst outcome = Resolved ->
          exists d, (dests !! 0%nat = Some d \/ dests !! 1%nat = Some d)
                    /\ added sinks (snd outcome) d = [line_of P f m])).
Proof.
  split.
  - intros m outcome. subst outcome.
    destruct (allDest0WarnDest1_delivers P m b dests sinks)
      as [[Hr [Hb [lvl Hd]]] | [Hn Hs]].
    + apply delivered_once in Hd as [H1 H2]. split; [exact H1 | intros _ _; exact H2].
    + rewrite Hs. split.
      * intros s. left. apply added_same.
      * intros Hb Hr. destruct Hn as [Hn|Hn]; congruence.
  - intros f m Hf outcome. subst outcome.
    destruct (call_builtin_delivers P f m b dests sinks Hf)
      as [[Hr [Hb [lvl Hd]]] | [Hn Hs]].
    + apply delivered_once in Hd as [H1 H2]. split; [exact H1 | intros _ _; exact H2].
    + rewrite Hs. split.
      * intros s. left. apply added_same.
      * intros Hb Hr. destruct Hn as [Hn|Hn]; congruence.
Qed.

Lemma line_written_once_witness :
  let m := {| MultiFn.date := sample_date;
              MultiFn.level := "ERROR";
              MultiFn.tags := [];
              MultiFn.text := "boom";
              MultiFn.stack := None |} in
  let outcome :=
    MultiFn.call posix MultiFn.LogFunction_defaultText m true
      [stdout posix; stdout posix] ∅ in
  builtin MultiFn.LogFunction_defaultText = true
  /\ fst outcome = Resolved
  /\ exists d, ([stdout posix; stdout posix] !! 0%nat = Some d
                \/ [stdout posix; stdout posix] !! 1%nat = Some d)
               /\ added ∅ (snd outcome) d
                  = [line_of posix MultiFn.LogFunction_defaultText m].
Proof.
  intros m outcome.
  assert (Hr : fst outcome = Resolved) by (vm_compute; reflexivity).
  split; [reflexivity|]. split; [exact Hr|].
  exact (proj2 (proj2 (line_written_once posix true [stdout posix; stdout posix] ∅)
                  MultiFn.LogFunction_defaultText m eq_refl) eq_refl Hr).
Defined.

(** ** Streams that a call leaves alone *)

Lemma callAll_frame (P : Process) (fns : list MultiFn.LogFn) (m : MultiFn.Message)
    (b : bool) (dests : list Stream) (sinks : gmap nat (list string)) (s : Stream) :
  forallb builtin fns = true ->
  (forall d, dests !! 0%nat = Some d -> ref d <> ref s) ->
  (forall d, dests !! 1%nat = Some d -> ref d <> ref s) ->
  written (snd (MultiFn.callAll P fns m b dests sinks)) s = written sinks s.
Proof.
  intros Hfns H0 H1. revert sinks.
  induction fns as [|f fns IH]; intros sinks; [reflexivity|].
  simpl in Hfns. apply andb_prop in Hfns as [Hf Hfns].
  cbn [MultiFn.callAll].
  pose proof (call_builtin_delivers P f m b dests sinks Hf) as Hcall.
  destruct (MultiFn.call P f m b dests sinks) as [c sinks1]. cbn [fst snd] in Hcall.
  specialize (IH Hfns sinks1).
  destruct (MultiFn.callAll P fns m b dests sinks1) as [cs sinks2].
  cbn [snd] in IH |- *. rewrite IH.
  destruct Hcall as [[_ [_ [lvl Hd]]] | [_ ->]]; [|reflexivity].
  eapply delivered_frame; eassumption.
Qed.

(** X9: a call of [doLog] through built-in log functions touches no
    stream but destinations[0] and destinations[1]: every other stream,
    a third or later destination included, holds after the call what it
    held before, whatever the level, the tags and the outcome are. *)
Theorem other_streams_untouched (P : Process) (level : string) (tags format : JsValue)
    (optionalParams : list JsValue) (sinks sinks' : gmap nat (list string))
    (c : Completion) (s : Stream) :
  (forall (this : SingleFn.Logger) (now : string),
      SingleFn.lg_logFunction this = SingleFn.allDest0WarnDest1_fn ->
      (forall d, SingleFn.lg_destinations this !! 0%nat = Some d -> ref d <> ref s) ->
      (forall d, SingleFn.lg_destinations this !! 1%nat = Some d -> ref d <> ref s) ->
      SingleFn.doLog P this level tags format optionalParams now sinks = Ok (c, sinks') ->
      written sinks' s = written sinks s)
  /\ (forall (this : MultiFn.Logger) (now : MultiFn.Date),
      forallb builtin (MultiFn.lg_logFunctions this) = true ->
      (forall d, MultiFn.lg_destinations this !! 0%nat = Some d -> ref d <> ref s) ->
      (forall d, MultiFn.lg_destinations this !! 1%nat = Some d -> ref d <> ref s) ->
      MultiFn.doLog P this level tags format optionalParams now sinks = Ok (c, sinks') ->
      written sinks' s = written sinks s).
Proof.
  split.
  - intros this now Hfn H0 H1 Hlog. unfold SingleFn.doLog in Hlog.
    destruct (SingleFn.shouldBeLogged this level tags) as [b|e]; [|discriminate].
    cbn [rbind] in Hlog. rewrite Hfn in Hlog. cbn [SingleFn.call] in Hlog.
    set (m := SingleFn.buildMessage P this level tags format optionalParams now) in Hlog.
    pose proof (allDest0WarnDest1_delivers P m b (SingleFn.lg_destinations this) sinks)
      as Hcall.
    injection Hlog as Hlog. rewrite Hlog in Hcall. cbn [fst snd] in Hcall.
    destruct Hcall as [[_ [_ [lvl Hd]]] | [_ ->]]; [|reflexivity].
    eapply delivered_frame; eassumption.
  - intros this now Hfns H0 H1 Hlog. unfold MultiFn.doLog in Hlog.
    destruct (MultiFn.shouldBeLogged this level tags) as [b|e]; [|discriminate].
    cbn [rbind] in Hlog.
    set (m := MultiFn.buildMessage P this level tags format optionalParams now) in Hlog.
    pose proof (callAll_frame P (MultiFn.lg_logFunctions this) m b
                  (MultiFn.lg_destinations this) sinks s Hfns H0 H1) as Hframe.
    destruct (MultiFn.callAll P _ m b _ sinks) as [cs sinks2].
    injection Hlog as _ <-. exact Hframe.
Qed.

Lemma other_streams_untouched_witness :
  let this := {| SingleFn.lg_level := "DEBUG";
                 SingleFn.lg_tags := [];
                 SingleFn.lg_destinations := [capture0; capture1; stdout posix];
                 SingleFn.lg_logFunction := SingleFn.allDest0WarnDest1_fn |} in
  exists sinks',
    SingleFn.doLog posix this "ERROR" (JsArray []) (JsString "boom") []
      "2016-05-01T15:35:19.997Z" ∅ = Ok (Resolved, sinks')
    /\ written sinks' (stdout posix) = written ∅ (stdout posix).
Proof.
  intros this. eexists. split; [vm_compute; reflexivity|].
  apply (proj1 (other_streams_untouched posix "ERROR" (JsArray []) (JsString "boom") []
                  ∅ _ Resolved (stdout posix)) this "2016-05-01T15:35:19.997Z").
  - reflexivity.
  - intros d H. injection H as <-. discriminate.
  - intros d H. injection H as <-. discriminate.
  - vm_compute. reflexivity.
Defined.

(** ** Calls that pass the filter, on any list of destinations *)

Lemma delivered_first_written (guarded : bool) (b : Level) (dests : list Stream)
    (line : string) (sinks sinks' : gmap nat (list string)) :
  delivered guarded b dests line sinks = Some sinks' ->
  exists d, first_written b dests = Some d
            /\ written sinks' d = written sinks d ++ [line].
Proof.
  intros H. destruct dests as [|d0 [|d1 rest]]; simpl in H.
  - discriminate.
  - destruct (negb guarded && has_isTTY d0); [discriminate|]. injection H as <-.
    exists d0. split; [reflexivity | apply written_write_same].
  - injection H as <-. exists (streamA b d0 d1).
    split; [reflexivity | apply fanned_streamA].
Qed.

Lemma delivered_guarded (b : Level) (dests : list Stream) (line : string)
    (sinks : gmap nat (list string)) :
  dests <> [] -> exists sinks', delivered true b dests line sinks = Some sinks'.
Proof.
  intros H. destruct dests as [|d0 [|d1 rest]]; [contradiction| |];
    eexists; reflexivity.
Qed.

Lemma delivered_unguarded (b : Level) (dests : list Stream) (line : string)
    (sinks : gmap nat (list string)) :
  dests <> [] -> (forall d0, dests = [d0] -> has_isTTY d0 = false) ->
  exists sinks', delivered false b dests line sinks = Some sinks'.
Proof.
  intros H H1. destruct dests as [|d0 [|d1 rest]]; [contradiction| |].
  - simpl. rewrite (H1 d0 eq_refl). eexists. reflexivity.
  - eexists. reflexivity.
Qed.

Lemma delivered_unguarded_None (b : Level) (dests : list Stream) (line : string)
    (sinks : gmap nat (list string)) :
  dests = [] \/ (exists d0, dests = [d0] /\ has_isTTY d0 = true) ->
  delivered false b dests line sinks = None.
Proof.
  intros [-> | (d0 & -> & H)]; [reflexivity|]. simpl. rewrite H. reflexivity.
Qed.

(** [doLog] of [src/index.ts] when the filter lets the call pass. *)
Lemma doLog_told_to_log (P : Process) (this : SingleFn.Logger) (b : Level)
    (tags format : JsValue) (optionalParams : list JsValue) (now : string)
    (sinks : gmap nat (list string)) :
  SingleFn.shouldBeLogged this (token b) tags = Ok true ->
  SingleFn.lg_logFunction this = SingleFn.allDest0WarnDest1_fn ->
  SingleFn.doLog P this (token b) tags format optionalParams now sinks
  = Ok match delivered true b (SingleFn.lg_destinations this)
               (SingleFn.messageStr P
                  (SingleFn.buildMessage P this (token b) tags format
                     optionalParams now)) sinks with
       | Some sinks' => (Resolved, sinks')
       | None => (Rejected UndefinedAccess, sinks)
       end.
Proof.
  intros Hlog Hfn. unfold SingleFn.doLog. rewrite Hlog. cbn [rbind].
  rewrite Hfn. cbn [SingleFn.call]. rewrite allDest0WarnDest1_logged.
  cbn [SingleFn.buildMessage SingleFn.level].
  rewrite toUpperCase_token, level_of_token. reflexivity.
Qed.

(** The loop over the log functions of the other variant, all built-in,
    told to log: every function writes its line, in the order of the
    list, or every promise is rejected and nothing is written. *)
Lemma callAll_told_to_log (P : Process) (fns : list MultiFn.LogFn)
    (m : MultiFn.Message) (b : Level) (dests : list Stream)
    (sinks : gmap nat (list string)) :
  forallb builtin fns = true ->
  toUpperCase (MultiFn.level m) = token b ->
  dests <> [] -> (forall d0, dests = [d0] -> has_isTTY d0 = false) ->
  exists sinks' d,
    MultiFn.callAll P fns m true dests sinks = (repeat Resolved (length fns), sinks')
    /\ first_written b dests = Some d
    /\ written sinks' d = written sinks d ++ map (fun f => line_of P f m) fns.
Proof.
  intros Hfns Hb Hne H1.
  assert (Hd : exists d, first_written b dests = Some d).
  { destruct dests as [|d0 [|d1 rest]]; [contradiction| |]; eexists; reflexivity. }
  destruct Hd as [d Hd]. revert sinks.
  induction fns as [|f fns IH]; intros sinks.
  - exists sinks, d. split; [reflexivity|]. split; [exact Hd|].
    simpl. rewrite app_nil_r. reflexivity.
  - simpl in Hfns. apply andb_prop in Hfns as [Hf Hfns].
    cbn [MultiFn.callAll].
    assert (Hcall : MultiFn.call P f m true dests sinks
                    = MultiFn.writeToDefaultDestination (line_of P f m)
                        (MultiFn.level m) true dests sinks)
      by (destruct f; [reflexivity | reflexivity | discriminate]).
    rewrite Hcall, writeToDefaultDestination_logged.
    rewrite Hb, level_of_token.
    destruct (delivered_unguarded b dests (line_of P f m) sinks Hne H1)
      as [sinks1 Hs1].
    rewrite Hs1.
    destruct (delivered_first_written false b dests _ sinks sinks1 Hs1)
      as (d' & Hd' & Hw).
    assert (d' = d) by congruence. subst d'.
    destruct (IH Hfns sinks1) as (sinks2 & d2 & Hall & Hd2 & Hw2).
    rewrite Hall. exists sinks2, d.
    split; [reflexivity|]. split; [exact Hd|].
    assert (d2 = d) by congruence. subst d2.
    rewrite Hw2, Hw, <- app_assoc. reflexivity.
Qed.

Lemma callAll_nowhere_to_write (P : Process) (fns : list MultiFn.LogFn)
    (m : MultiFn.Message) (b : Level) (dests : list Stream)
    (sinks : gmap nat (list string)) :
  forallb builtin fns = true ->
  toUpperCase (MultiFn.level m) = token b ->
  dests = [] \/ (exists d0, dests = [d0] /\ has_isTTY d0 = true) ->
  MultiFn.callAll P fns m true dests sinks
  = (repeat (Rejected UndefinedAccess) (length fns), sinks).
Proof.
  intros Hfns Hb Hd.
  induction fns as [|f fns IH]; [reflexivity|].
  simpl in Hfns. apply andb_prop in Hfns as [Hf Hfns].
  cbn [MultiFn.callAll].
  assert (Hcall : MultiFn.call P f m true dests sinks
                  = MultiFn.writeToDefaultDestination (line_of P f m)
                      (MultiFn.level m) true dests sinks)
    by (destruct f; [reflexivity | reflexivity | discriminate]).
  rewrite Hcall, writeToDefaultDestination_logged, Hb, level_of_token.
  rewrite (delivered_unguarded_None b dests _ sinks Hd).
  rewrite (IH Hfns). reflexivity.
Qed.

Lemma Promise_all_Rejected (e : Exn) (n : nat) :
  n <> 0%nat -> MultiFn.Promise_all (repeat (Rejected e) n) = Rejected e.
Proof. destruct n; [contradiction | reflexivity]. Qed.



(** What [doLog] of [src/index.ts] does with a call that passes the
    filter, and what the other variant does. *)
Lemma doLog_passes (P : Process) (this : SingleFn.Logger) (b : Level)
    (tags format : JsValue) (optionalParams : list JsValue) (now : string)
    (sinks : gmap nat (list string)) :
  SingleFn.shouldBeLogged this (token b) tags = Ok true ->
  SingleFn.lg_logFunction this = SingleFn.allDest0WarnDest1_fn ->
  let line :=
    SingleFn.messageStr P
      (SingleFn.buildMessage P this (token b) tags format optionalParams now) in
  (SingleFn.lg_destinations this <> [] ->
   exists sinks' d,
     SingleFn.doLog P this (token b) tags format optionalParams now sinks
     = Ok (Resolved, sinks')
     /\ first_written b (SingleFn.lg_destinations this) = Some d
     /\ added sinks sinks' d = [line])
  /\ (SingleFn.lg_destinations this = [] ->
      SingleFn.doLog P this (token b) tags format optionalParams now sinks
      = Ok (Rejected UndefinedAccess, sinks)).
Proof.
  intros Hlog Hfn line. rewrite (doLog_told_to_log P this b _ _ _ _ sinks Hlog Hfn).
  fold line. split.
  - intros Hne.
    destruct (delivered_guarded b _ line sinks Hne) as [sinks' Hs]. rewrite Hs.
    destruct (delivered_first_written true b _ line sinks sinks' Hs) as (d & Hd & Hw).
    exists sinks', d. split; [reflexivity|]. split; [exact Hd|].
    apply added_app. exact Hw.
  - intros ->. reflexivity.
Qed.

Lemma doLog_multi_passes (P : Process) (this : MultiFn.Logger) (b : Level)
    (tags format : JsValue) (optionalParams : list JsValue) (now : MultiFn.Date)
    (sinks : gmap nat (list string)) :
  MultiFn.shouldBeLogged this (token b) tags = Ok true ->
  forallb builtin (MultiFn.lg_logFunctions this) = true ->
  let m := MultiFn.buildMessage P this (token b) tags format optionalParams now in
  (MultiFn.lg_destinations this <> [] ->
   (forall d0, MultiFn.lg_destinations this = [d0] -> has_isTTY d0 = false) ->
   exists sinks' d,
     MultiFn.doLog P this (token b) tags format optionalParams now sinks
     = Ok (Resolved, sinks')
     /\ first_written b (MultiFn.lg_destinations this) = Some d
     /\ added sinks sinks' d
        = map (fun f => line_of P f m) (MultiFn.lg_logFunctions this))
  /\ (MultiFn.lg_destinations this = []
      \/ (exists d0, MultiFn.lg_destinations this = [d0] /\ has_isTTY d0 = true) ->
      exists c,
        MultiFn.doLog P this (token b) tags format optionalParams now sinks
        = Ok (c, sinks)
        /\ (MultiFn.lg_logFunctions this <> [] -> c = Rejected UndefinedAccess)).
Proof.
  intros Hlog Hfns m. unfold MultiFn.doLog. rewrite Hlog. cbn [rbind]. fold m.
  assert (Hb : toUpperCase (MultiFn.level m) = token b)
    by (apply toUpperCase_token).
  split.
  - intros Hne H1.
    destruct (callAll_told_to_log P _ m b _ sinks Hfns Hb Hne H1)
      as (sinks' & d & Hall & Hd & Hw).
    rewrite Hall, Promise_all_Resolved. exists sinks', d.
    split; [reflexivity|]. split; [exact Hd|]. apply added_app. exact Hw.
  - intros Hd. rewrite (callAll_nowhere_to_write P _ m b _ sinks Hfns Hb Hd).
    eexists. split; [reflexivity|]. intros Hn. apply Promise_all_Rejected.
    destruct (MultiFn.lg_logFunctions this); [contradiction | discriminate].
Qed.



(** C8: the JSON line of a logged message reads back. A call of [doLog]
    that passes the filter, through the JSON log function
    ([allDest0WarnDest1], or [defaultJson] in the other variant), writes
    the line of the message to the stream written first, provided there
    is a destination (and, in the other variant, not a single one with an
    [isTTY] property); that line, and every chunk that a call of [doLog]
    writes through these functions, reads back, with [JSON.parse], as a
    record whose [level] is the level of the call and whose [tags] are the
    tags of the logger followed by the tags of the call, in that order and
    with duplicates kept. The tags of the call are a string or an array of
    strings, and the line terminator is white space. *)
Theorem json_line_round_trip (P : Process) :
  skip_ws (EOL P) = "" ->
  (forall (this : SingleFn.Logger) (level : string) (tags : Tags) (format : JsValue)
      (optionalParams : list JsValue) (now : string)
      (sinks sinks' : gmap nat (list string)) (c : Completion)
      (s : Stream) (chunk : string),
      SingleFn.lg_logFunction this = SingleFn.allDest0WarnDest1_fn ->
      SingleFn.doLog P this level (tags_value tags) format optionalParams now sinks
      = Ok (c, sinks') ->
      In chunk (added sinks sinks' s) ->
      exists record,
        JSON_parse chunk = Some record
        /\ get_property record "level" = Some (JsString level)
        /\ get_property record "tags"
           = Some (JsArray (map JsString (SingleFn.lg_tags this ++ tags_list tags))))
  /\ (forall (this : MultiFn.Logger) (level : string) (tags : Tags) (format : JsValue)
      (optionalParams : list JsValue) (now : MultiFn.Date)
      (sinks sinks' : gmap nat (list string)) (c : Completion)
      (s : Stream) (chunk : string),
      MultiFn.lg_logFunctions this = [MultiFn.LogFunction_defaultJson] ->
      MultiFn.doLog P this level (tags_value tags) format optionalParams now sinks
      = Ok (c, sinks') ->
      In chunk (added sinks sinks' s) ->
      exists record,
        JSON_parse chunk = Some record
        /\ get_property record "level" = Some (JsString level)
        /\ get_property record "tags"
           = Some (JsArray (map JsString (MultiFn.lg_tags this ++ tags_list tags))))
  /\ (forall (this : SingleFn.Logger) (b : Level) (tags : Tags) (format : JsValue)
      (optionalParams : list JsValue) (now : string)
      (sinks : gmap nat (list string)),
      SingleFn.lg_logFunction this = SingleFn.allDest0WarnDest1_fn ->
      SingleFn.shouldBeLogged this (token b) (tags_value tags) = Ok true ->
      SingleFn.lg_destinations this <> [] ->
      exists sinks' d line record,
        SingleFn.doLog P this (token b) (tags_value tags) format optionalParams
          now sinks
        = Ok (Resolved, sinks')
        /\ first_written b (SingleFn.lg_destinations this) = Some d
        /\ added sinks sinks' d = [line]
        /\ JSON_parse line = Some record
        /\ get_property record "level" = Some (JsString (token b))
        /\ get_property record "tags"
           = Some (JsArray (map JsString (SingleFn.lg_tags this ++ tags_list tags))))
  /\ (forall (this : MultiFn.Logger) (b : Level) (tags : Tags) (format : JsValue)
      (optionalParams : list JsValue) (now : MultiFn.Date)
      (sinks : gmap nat (list string)),
      MultiFn.lg_logFunctions this = [MultiFn.LogFunction_defaultJson] ->
      MultiFn.shouldBeLogged this (token b) (tags_value tags) = Ok true ->
      MultiFn.lg_destinations this <> [] ->
      (forall d0, MultiFn.lg_destinations this = [d0] -> has_isTTY d0 = false) ->
      exists sinks' d line record,
        MultiFn.doLog P this (token b) (tags_value tags) format optionalParams
          now sinks
        = Ok (Resolved, sinks')
        /\ first_written b (MultiFn.lg_destinations this) = Some d
        /\ added sinks sinks' d = [line]
        /\ JSON_parse line = Some record
        /\ get_property record "level" = Some (JsString (token b))
        /\ get_property record "tags"
           = Some (JsArray (map JsString (MultiFn.lg_tags this ++ tags_list tags)))).
Proof.
  intros Heol.
  assert (Hsingle : forall (this : SingleFn.Logger) level (tags : Tags) format
             optionalParams now,
             exists record,
               JSON_parse (SingleFn.messageStr P
                  (SingleFn.buildMessage P this level (tags_value tags) format
                     optionalParams now)) = Some record
               /\ get_property record "level" = Some (JsString level)
               /\ get_property record "tags"
                  = Some (JsArray (map JsString
                                     (SingleFn.lg_tags this ++ tags_list tags)))).
  { intros this level tags format optionalParams now.
    unfold SingleFn.messageStr, SingleFn.message_value, SingleFn.buildMessage.
    cbn [SingleFn.isoDate SingleFn.level SingleFn.tags SingleFn.text SingleFn.stack].
    rewrite concat_arg_tags, <- map_app.
    eexists. split; [apply JSON_parse_message; exact Heol|].
    split; [apply message_properties_level | apply message_properties_tags]. }
  assert (Hmulti : forall (this : MultiFn.Logger) level (tags : Tags) format
             optionalParams now,
             exists record,
               JSON_parse (MultiFn.defaultJson_messageText P
                  (MultiFn.buildMessage P this level (tags_value tags) format
                     optionalParams now)) = Some record
               /\ get_property record "level" = Some (JsString level)
               /\ get_property record "tags"
                  = Some (JsArray (map JsString
                                     (MultiFn.lg_tags this ++ tags_list tags)))).
  { intros this level tags format optionalParams now.
    unfold MultiFn.defaultJson_messageText, MultiFn.messageCpy, MultiFn.buildMessage.
    cbn [MultiFn.date MultiFn.level MultiFn.tags MultiFn.text MultiFn.stack].
    rewrite concat_arg_tags, <- map_app.
    eexists. split; [apply JSON_parse_message; exact Heol|].
    split; [apply message_properties_level | apply message_properties_tags]. }
  split; [|split; [|split]].
  - intros this level tags format optionalParams now sinks sinks' c s chunk
      Hfn Hlog Hin.
    unfold SingleFn.doLog in Hlog.
    destruct (SingleFn.shouldBeLogged this level (tags_value tags)) as [b|e];
      [|discriminate].
    cbn [rbind] in Hlog. rewrite Hfn in Hlog. cbn [SingleFn.call] in Hlog.
    set (m := SingleFn.buildMessage P this level (tags_value tags) format
                optionalParams now) in Hlog.
    pose proof (allDest0WarnDest1_only_line P m b
                  (SingleFn.lg_destinations this) sinks) as Honly.
    injection Hlog as Hlog. rewrite Hlog in Honly. cbn [snd] in Honly.
    rewrite (only_line_added _ _ _ _ _ Honly Hin). apply Hsingle.
  - intros this level tags format optionalParams now sinks sinks' c s chunk
      Hfn Hlog Hin.
    unfold MultiFn.doLog in Hlog.
    destruct (MultiFn.shouldBeLogged this level (tags_value tags)) as [b|e];
      [|discriminate].
    cbn [rbind] in Hlog. rewrite Hfn in Hlog.
    cbn [MultiFn.callAll MultiFn.call] in Hlog.
    set (m := MultiFn.buildMessage P this level (tags_value tags) format
                optionalParams now) in Hlog.
    unfold MultiFn.defaultJson in Hlog.
    pose proof (writeToDefaultDestination_only_line
                  (MultiFn.defaultJson_messageText P m) (MultiFn.level m) b
                  (MultiFn.lg_destinations this) sinks) as Honly.
    destruct (MultiFn.writeToDefaultDestination _ _ b _ sinks) as [c1 sinks1].
    injection Hlog as _ Hlog. subst sinks1. cbn [snd] in Honly.
    rewrite (only_line_added _ _ _ _ _ Honly Hin). apply Hmulti.
  - intros this b tags format optionalParams now sinks Hfn Hlog Hne.
    destruct (proj1 (doLog_passes P this b (tags_value tags) format optionalParams
                       now sinks Hlog Hfn) Hne) as (sinks' & d & Hdo & Hd & Hadd).
    destruct (Hsingle this (token b) tags format optionalParams now)
      as (record & Hparse & Hlevel & Htags).
    exists sinks', d. eexists. exists record.
    split; [exact Hdo|]. split; [exact Hd|]. split; [exact Hadd|].
    split; [exact Hparse|]. split; [exact Hlevel | exact Htags].
  - intros this b tags format optionalParams now sinks Hfn Hlog Hne H1.
    assert (Hfns : forallb builtin (MultiFn.lg_logFunctions this) = true)
      by (rewrite Hfn; reflexivity).
    destruct (proj1 (doLog_multi_passes P this b (tags_value tags) format
                       optionalParams now sinks Hlog Hfns) Hne H1)
      as (sinks' & d & Hdo & Hd & Hadd).
    rewrite Hfn in Hadd. cbn [map line_of] in Hadd.
    destruct (Hmulti this (token b) tags format optionalParams now)
      as (record & Hparse & Hlevel & Htags).
    exists sinks', d. eexists. exists record.
    split; [exact Hdo|]. split; [exact Hd|]. split; [exact Hadd|].
    split; [exact Hparse|]. split; [exact Hlevel | exact Htags].
Qed.

Lemma json_line_round_trip_witness :
  let this := sample_logger "INFO" ["test.js"; "touch_feature"] in
  let this' :=
    sample_logger_multi "INFO" ["test.js"; "touch_feature"]
      [MultiFn.LogFunction_defaultJson] in
  skip_ws (EOL posix) = ""
  /\ SingleFn.shouldBeLogged this (token ERROR) (tags_value (TagArray ["test.js"]))
     = Ok true
  /\ MultiFn.shouldBeLogged this' (token ERROR) (tags_value (TagArray ["test.js"]))
     = Ok true
  /\ (exists sinks' d line record,
        SingleFn.doLog posix this "ERROR" (tags_value (TagArray ["test.js"]))
          (JsError "boom" "Error: boom") [] "2016-05-01T15:35:19.997Z" ∅
        = Ok (Resolved, sinks')
        /\ first_written ERROR [capture0; capture1] = Some d
        /\ added ∅ sinks' d = [line]
        /\ JSON_parse line = Some record
        /\ get_property record "level" = Some (JsString "ERROR")
        /\ get_property record "tags"
           = Some (JsArray [JsString "test.js"; JsString "touch_feature";
                            JsString "test.js"]))
  /\ exists sinks' d line record,
       MultiFn.doLog posix this' "ERROR" (tags_value (TagArray ["test.js"]))
         (JsError "boom" "Error: boom") [] sample_date ∅
       = Ok (Resolved, sinks')
       /\ first_written ERROR [capture0; capture1] = Some d
       /\ added ∅ sinks' d = [line]
       /\ JSON_parse line = Some record
       /\ get_property record "level" = Some (JsString "ERROR")
       /\ get_property record "tags"
          = Some (JsArray [JsString "test.js"; JsString "touch_feature";
                           JsString "test.js"]).
Proof.
  intros this this'.
  assert (Heol : skip_ws (EOL posix) = "") by reflexivity.
  split; [exact Heol|]. split; [reflexivity|]. split; [reflexivity|]. split.
  - apply (proj1 (proj2 (proj2 (json_line_round_trip posix Heol)))
             this ERROR (TagArray ["test.js"]) (JsError "boom" "Error: boom") []
             "2016-05-01T15:35:19.997Z" ∅ eq_refl eq_refl).
    discriminate.
  - apply (proj2 (proj2 (proj2 (json_line_round_trip posix Heol)))
             this' ERROR (TagArray ["test.js"]) (JsError "boom" "Error: boom") []
             sample_date ∅ eq_refl eq_refl); [discriminate|].
    intros d0 H. discriminate.
Defined.

(** ** [log] and [log2] against the per-level methods *)

Lemma log_dispatch_plain (arg1 : JsValue) (rest : list JsValue) :
  SingleFn.level_argument arg1 = None ->
  hd_error rest <> Some JsUndefined ->
  SingleFn.log_dispatch (arg1 :: rest)
  = {| d_level := "INFO"; d_tags := JsArray []; d_format := arg1;
       d_optionalParams := rest |}.
Proof.
  intros H Hrest. unfold SingleFn.log_dispatch. cbn [nth]. rewrite H.
  destruct rest as [|x rest]; [reflexivity|].
  cbn [nth drop]. destruct x; try reflexivity. exfalso. apply Hrest. reflexivity.
Qed.

Lemma log2_dispatch_plain (arg1 arg2 : JsValue) (rest : list JsValue) :
  SingleFn.level_argument arg1 = None ->
  hd_error rest <> Some JsUndefined ->
  SingleFn.log2_dispatch (arg1 :: arg2 :: rest)
  = {| d_level := "INFO"; d_tags := arg1; d_format := arg2;
       d_optionalParams := rest |}.
Proof.
  intros H Hrest. unfold SingleFn.log2_dispatch. cbn [nth]. rewrite H.
  destruct rest as [|x rest]; [reflexivity|].
  cbn [nth drop]. destruct x; try reflexivity. exfalso. apply Hrest. reflexivity.
Qed.

(** X10: [log] and [log2] are the per-level methods under another name.
    With a level token first, [log(L, format, ...params)] is the method of
    level L ([error], [warn], [info], [debug]) on the remaining arguments,
    and [log2(L, tags, format, ...params)] is [error2], ..., [debug2].
    Without a level token, [log(format, ...params)] is [info] and
    [log2(tags, format, ...params)] is [info2], provided the first of
    [params] is not [undefined]; an [undefined] in that place is dropped
    from the parameters. *)
Theorem log_is_the_level_method (P : Process) (this : SingleFn.Logger)
    (now : string) (sinks : gmap nat (list string)) :
  (forall format params,
      SingleFn.log P this (JsString "ERROR" :: format :: params) now sinks
      = SingleFn.error P this format params now sinks
      /\ SingleFn.log P this (JsString "WARN" :: format :: params) now sinks
         = SingleFn.warn P this format params now sinks
      /\ SingleFn.log P this (JsString "INFO" :: format :: params) now sinks
         = SingleFn.info P this format params now sinks
      /\ SingleFn.log P this (JsString "DEBUG" :: format :: params) now sinks
         = SingleFn.debug P this format params now sinks)
  /\ (forall tags format params,
      SingleFn.log2 P this (JsString "ERROR" :: tags :: format :: params) now sinks
      = SingleFn.error2 P this tags format params now sinks
      /\ SingleFn.log2 P this (JsString "WARN" :: tags :: format :: params) now sinks
         = SingleFn.warn2 P this tags format params now sinks
      /\ SingleFn.log2 P this (JsString "INFO" :: tags :: format :: params) now sinks
         = SingleFn.info2 P this tags format params now sinks
      /\ SingleFn.log2 P this (JsString "DEBUG" :: tags :: format :: params) now sinks
         = SingleFn.debug2 P this tags format params now sinks)
  /\ (forall format params,
      SingleFn.level_argument format = None ->
      hd_error params <> Some JsUndefined ->
      SingleFn.log P this (format :: params) now sinks
      = SingleFn.info P this format params now sinks)
  /\ (forall tags format params,
      SingleFn.level_argument tags = None ->
      hd_error params <> Some JsUndefined ->
      SingleFn.log2 P this (tags :: format :: params) now sinks
      = SingleFn.info2 P this tags format params now sinks)
  /\ (forall format params,
      SingleFn.level_argument format = None ->
      SingleFn.log P this (format :: JsUndefined :: params) now sinks
      = SingleFn.info P this format params now sinks).
Proof.
  split; [|split; [|split; [|split]]].
  - intros format params. repeat split; reflexivity.
  - intros tags format params. repeat split; reflexivity.
  - intros format params H Hp. unfold SingleFn.log, SingleFn.dispatch.
    rewrite (log_dispatch_plain format params H Hp). reflexivity.
  - intros tags format params H Hp. unfold SingleFn.log2, SingleFn.dispatch.
    rewrite (log2_dispatch_plain tags format params H Hp). reflexivity.
  - intros format params H.
    unfold SingleFn.log, SingleFn.dispatch, SingleFn.log_dispatch.
    cbn [nth drop]. rewrite H. reflexivity.
Qed.

Lemma log_is_the_level_method_witness :
  SingleFn.level_argument (JsString "error") = None
  /\ hd_error [JsString "full"] <> Some JsUndefined
  /\ SingleFn.log posix (sample_logger "DEBUG" [])
       [JsString "error"; JsString "full"] "2016-05-01T15:35:19.997Z" ∅
     = SingleFn.info posix (sample_logger "DEBUG" []) (JsString "error")
         [JsString "full"] "2016-05-01T15:35:19.997Z" ∅.
Proof.
  assert (H1 : SingleFn.level_argument (JsString "error") = None) by reflexivity.
  assert (H2 : hd_error [JsString "full"] <> Some JsUndefined) by discriminate.
  split; [exact H1|]. split; [exact H2|].
  exact (proj1 (proj2 (proj2
           (log_is_the_level_method posix (sample_logger "DEBUG" [])
              "2016-05-01T15:35:19.997Z" ∅)))
           (JsString "error") [JsString "full"] H1 H2).
Defined.

(** ** The JSON text of a message is one line *)

Lemma no_control_append (a b : string) :
  no_control (a +:+ b) = no_control a && no_control b.
Proof.
  induction a as [|c a IH].
  - rewrite append_nil_l. reflexivity.
  - rewrite append_cons. cbn [no_control]. rewrite IH, andb_assoc. reflexivity.
Qed.

Lemma no_control_quote_char (c : ascii) : no_control (quote_char c) = true.
Proof.
  destruct c as [[] [] [] [] [] [] [] []]; vm_compute; reflexivity.
Qed.

Lemma no_control_quote_chars (s : string) : no_control (quote_chars s) = true.
Proof.
  induction s as [|c s IH]; [reflexivity|].
  cbn [quote_chars]. rewrite no_control_append, no_control_quote_char, IH.
  reflexivity.
Qed.

Lemma no_control_JSON_quote (s : string) : no_control (JSON_quote s) = true.
Proof.
  unfold JSON_quote. cbn [no_control].
  rewrite no_control_append, no_control_quote_chars. reflexivity.
Qed.

Lemma no_control_join (sep : string) (l : list string) :
  no_control sep = true ->
  Forall (fun t => no_control t = true) l ->
  no_control (join sep l) = true.
Proof.
  intros Hsep H. induction H as [|x l Hx Hl IH]; [reflexivity|].
  destruct l as [|y l]; [exact Hx|].
  change (join sep (x :: y :: l)) with (x +:+ sep +:+ join sep (y :: l)).
  rewrite !no_control_append, Hx, Hsep, IH. reflexivity.
Qed.

(** Induction on a value with the elements of an array and the values of
    the properties of an object at hand. *)
Lemma JsValue_nested_ind (Q : JsValue -> Prop) :
  Q JsUndefined ->
  Q JsNull ->
  (forall s, Q (JsString s)) ->
  (forall l, Forall Q l -> Q (JsArray l)) ->
  (forall ps, Forall (fun p => Q (snd p)) ps -> Q (JsObject ps)) ->
  (forall m st, Q (JsError m st)) ->
  forall v, Q v.
Proof.
  intros HU HN HS HA HO HE.
  exact (fix go (v : JsValue) : Q v :=
           match v with
           | JsUndefined => HU
           | JsNull => HN
           | JsString s => HS s
           | JsArray l =>
               HA l ((fix elements (l : list JsValue) : Forall Q l :=
                        match l with
                        | [] => @List.Forall_nil _ Q
                        | e :: rest =>
                            @List.Forall_cons _ Q e rest (go e) (elements rest)
                        end) l)
           | JsObject ps =>
               HO ps ((fix members (ps : list (string * JsValue))
                         : Forall (fun p => Q (snd p)) ps :=
                         match ps with
                         | [] => @List.Forall_nil _ _
                         | p :: rest =>
                             @List.Forall_cons _ (fun p => Q (snd p)) p rest
                               (go (snd p)) (members rest)
                         end) ps)
           | JsError m st => HE m st
           end).
Qed.

Lemma SerializeJSONProperty_no_control (v : JsValue) :
  forall t, SerializeJSONProperty v = Some t -> no_control t = true.
Proof.
  induction v as [| |s|l IH|ps IH|m st] using JsValue_nested_ind; intros t Ht.
  - discriminate.
  - injection Ht as <-. reflexivity.
  - injection Ht as <-. apply no_control_JSON_quote.
  - cbn [SerializeJSONProperty] in Ht. injection Ht as <-.
    rewrite !no_control_append. rewrite no_control_join; [reflexivity|reflexivity|].
    induction IH as [|e l He Hl IHl]; [constructor|].
    cbn [map]. constructor; [|exact IHl].
    destruct (SerializeJSONProperty e) as [u|] eqn:E; [|reflexivity].
    exact (He u eq_refl).
  - cbn [SerializeJSONProperty] in Ht. injection Ht as <-.
    rewrite !no_control_append. rewrite no_control_join; [reflexivity|reflexivity|].
    induction IH as [|p ps Hp Hps IHps]; [constructor|].
    cbn [omap list_omap]. destruct (SerializeJSONProperty (snd p)) as [u|] eqn:E.
    + constructor; [|exact IHps].
      rewrite !no_control_append, no_control_JSON_quote, (Hp u eq_refl).
      reflexivity.
    + exact IHps.
  - injection Ht as <-. reflexivity.
Qed.

Lemma JSON_stringify_no_control (v : JsValue) :
  no_control (JSON_stringify v) = true.
Proof.
  unfold JSON_stringify.
  destruct (SerializeJSONProperty v) as [t|] eqn:E; [|reflexivity].
  exact (SerializeJSONProperty_no_control v t E).
Qed.

(** X11: writing a JSON message always writes a single line with a
    trailing EOL: what [allDest0WarnDest1] and [defaultJson] write is a
    text without any control character, hence without a line break,
    followed by [EOL], whatever the text, the tags and the stack of the
    message hold. *)
Theorem json_message_is_one_line (P : Process) :
  (forall m : SingleFn.Message,
      exists line,
        SingleFn.messageStr P m = line +:+ EOL P /\ no_control line = true)
  /\ (forall m : MultiFn.Message,
      exists line,
        MultiFn.defaultJson_messageText P m = line +:+ EOL P
        /\ no_control line = true).
Proof.
  split; intros m; eexists; (split; [reflexivity|]);
    apply JSON_stringify_no_control.
Qed.

(** ** The whole record of a message *)

Lemma buildMessage_text (P : Process) (this : SingleFn.Logger) (level : string)
    (tags format : JsValue) (optionalParams : list JsValue) (now : string) :
  SingleFn.text (SingleFn.buildMessage P this level tags format optionalParams now)
  = util_format P (format :: optionalParams).
Proof. destruct optionalParams; reflexivity. Qed.

Lemma buildMessage_multi_text (P : Process) (this : MultiFn.Logger) (level : string)
    (tags format : JsValue) (optionalParams : list JsValue) (now : MultiFn.Date) :
  MultiFn.text (MultiFn.buildMessage P this level tags format optionalParams now)
  = util_format P (format :: optionalParams).
Proof. destruct optionalParams; reflexivity. Qed.

Lemma message_properties_rest (d l : string) (tags : list JsValue) (t : string)
    (st : option string) :
  get_property (JsObject (message_properties d l tags t st)) "isoDate"
  = Some (JsString d)
  /\ get_property (JsObject (message_properties d l tags t st)) "text"
     = Some (JsString t)
  /\ get_property (JsObject (message_properties d l tags t st)) "stack"
     = option_map JsString st.
Proof. destruct st; repeat split; reflexivity. Qed.

(** X12: the JSON line of a message reads back as the message itself.
    For tags given as a string or an array of strings and a line
    terminator of white space, parsing what [allDest0WarnDest1] (or
    [defaultJson]) writes for the message of [doLog] yields the object
    that was serialised; its [isoDate] is the time of the call, its [text]
    is [util.format(format, ...optionalParams)] whether or not there are
    parameters, and it has a [stack] property exactly when [format] is an
    [Error], holding the stack of that error. *)
Theorem message_is_read_back (P : Process) (level : string) (tags : Tags)
    (format : JsValue) (optionalParams : list JsValue) :
  skip_ws (EOL P) = "" ->
  (forall (this : SingleFn.Logger) (now : string),
      let m := SingleFn.buildMessage P this level (tags_value tags) format
                 optionalParams now in
      JSON_parse (SingleFn.messageStr P m) = Some (SingleFn.message_value m)
      /\ get_property (SingleFn.message_value m) "isoDate" = Some (JsString now)
      /\ get_property (SingleFn.message_value m) "text"
         = Some (JsString (util_format P (format :: optionalParams)))
      /\ get_property (SingleFn.message_value m) "stack"
         = match format with
           | JsError _ st => Some (JsString st)
           | _ => None
           end)
  /\ (forall (this : MultiFn.Logger) (now : MultiFn.Date),
      let m := MultiFn.buildMessage P this level (tags_value tags) format
                 optionalParams now in
      JSON_parse (MultiFn.defaultJson_messageText P m) = Some (MultiFn.messageCpy m)
      /\ get_property (MultiFn.messageCpy m) "isoDate"
         = Some (JsString (MultiFn.toISOString now))
      /\ get_property (MultiFn.messageCpy m) "text"
         = Some (JsString (util_format P (format :: optionalParams)))
      /\ get_property (MultiFn.messageCpy m) "stack"
         = match format with
           | JsError _ st => Some (JsString st)
           | _ => None
           end).
Proof.
  intros Heol. split.
  - intros this now m.
    pose proof (buildMessage_text P this level (tags_value tags) format
                  optionalParams now) as Htext.
    fold m in Htext.
    unfold SingleFn.messageStr, SingleFn.message_value.
    destruct (message_properties_rest (SingleFn.isoDate m) (SingleFn.level m)
                (SingleFn.tags m) (SingleFn.text m) (SingleFn.stack m))
      as (Hd & Ht & Hs).
    rewrite Hd, Ht, Hs, Htext. split; [|split; [reflexivity|split; [reflexivity|]]].
    + subst m. cbn [SingleFn.buildMessage SingleFn.isoDate SingleFn.level
                    SingleFn.tags SingleFn.text SingleFn.stack].
      rewrite concat_arg_tags, <- map_app.
      apply JSON_parse_message. exact Heol.
    + subst m. destruct format; reflexivity.
  - intros this now m.
    pose proof (buildMessage_multi_text P this level (tags_value tags) format
                  optionalParams now) as Htext.
    fold m in Htext.
    unfold MultiFn.defaultJson_messageText, MultiFn.messageCpy.
    destruct (message_properties_rest (MultiFn.toISOString (MultiFn.date m))
                (MultiFn.level m) (MultiFn.tags m) (MultiFn.text m) (MultiFn.stack m))
      as (Hd & Ht & Hs).
    rewrite Hd, Ht, Hs, Htext. split; [|split; [reflexivity|split; [reflexivity|]]].
    + subst m. cbn [MultiFn.buildMessage MultiFn.date MultiFn.level
                    MultiFn.tags MultiFn.text MultiFn.stack].
      rewrite concat_arg_tags, <- map_app.
      apply JSON_parse_message. exact Heol.
    + subst m. destruct format; reflexivity.
Qed.

Lemma message_is_read_back_witness :
  skip_ws (EOL posix) = ""
  /\ JSON_parse
       (SingleFn.messageStr posix
          (SingleFn.buildMessage posix (sample_logger "INFO" ["test.js"]) "ERROR"
             (tags_value (TagString "db")) (JsError "boom" "at main") []
             "2016-05-01T15:35:19.997Z"))
     = Some (SingleFn.message_value
               (SingleFn.buildMessage posix (sample_logger "INFO" ["test.js"]) "ERROR"
                  (tags_value (TagString "db")) (JsError "boom" "at main") []
                  "2016-05-01T15:35:19.997Z")).
Proof.
  assert (H : skip_ws (EOL posix) = "") by reflexivity.
  split; [exact H|].
  exact (proj1 (proj1 (message_is_read_back posix "ERROR" (TagString "db")
                         (JsError "boom" "at main") [] H)
                  (sample_logger "INFO" ["test.js"]) "2016-05-01T15:35:19.997Z")).
Defined.

(** ** The text format *)

Lemma length_substring_prefix (n : nat) (s : string) :
  (n <= String.length s)%nat -> String.length (String.substring 0 n s) = n.
Proof.
  revert s. induction n as [|n IH]; intros s H.
  - destruct s; reflexivity.
  - destruct s as [|c s]; [simpl in H; lia|].
    simpl in H. cbn [String.substring String.length]. rewrite IH; [reflexivity|lia].
Qed.

(** X13: the layout of a text line. [defaultText] writes the date, a
    blank, a level column of exactly five characters whatever the level of
    the message holds (a level token padded with blanks), the tags joined
    by a comma and a blank between brackets, a dash, and the text; the
    stack follows the text only when the message has a stack that is not
    empty. *)
Theorem defaultText_layout (P : Process) (m : MultiFn.Message) :
  exists column body : string,
    MultiFn.defaultText_messageText P m
    = MultiFn.toISOString (MultiFn.date m) +:+ " " +:+ column +:+ " ["
      +:+ Array_join ", " (MultiFn.tags m) +:+ "] - " +:+ body +:+ EOL P
    /\ String.length column = 5%nat
    /\ (forall b, MultiFn.level m = token b -> column = level_column b)
    /\ (MultiFn.stack m = None \/ MultiFn.stack m = Some "" -> body = MultiFn.text m)
    /\ (forall st, MultiFn.stack m = Some st -> st <> "" ->
        body = MultiFn.text m +:+ " STACK: " +:+ st).
Proof.
  eexists. eexists. split; [reflexivity|]. split; [|split; [|split]].
  - apply length_substring_prefix. rewrite length_append. simpl. lia.
  - intros b Hb. rewrite Hb. destruct b; reflexivity.
  - intros [H|H]; rewrite H; reflexivity.
  - intros st H Hst. rewrite H.
    destruct (String.eqb st "") eqn:E; [|reflexivity].
    apply String.eqb_eq in E. contradiction.
Qed.

(** ** The level of the logger and what is logged *)

Lemma filter_monotone (a a' : Level) (level : string) (always : bool) :
  position a <= position a' ->
  (position a >=? position_of level) || always = true ->
  (position a' >=? position_of level) || always = true.
Proof.
  intros Hle H. apply orb_true_iff in H. apply orb_true_iff.
  destruct H as [H|H]; [left|right; exact H].
  rewrite Z.geb_leb in *. apply Z.leb_le in H. apply Z.leb_le. lia.
Qed.

(** X14: raising the verbosity of a logger changes nothing for the calls
    it logged already. If a call passes the filter of a logger, then the
    same call on a logger that differs only by a level at least as verbose
    does exactly the same: same message, same log function called to log,
    same writes. This holds for callbacks too, and for any level string of
    the call. *)
Theorem raising_verbosity_keeps_messages (P : Process) (l l' : string)
    (a a' : Level) (level : string) (tags format : JsValue)
    (optionalParams : list JsValue) (sinks : gmap nat (list string)) :
  level_of (toUpperCase l) = Some a ->
  level_of (toUpperCase l') = Some a' ->
  position a <= position a' ->
  (forall (ts : list string) (dests : list Stream) (f : SingleFn.LogFunction)
      (now : string),
      let this x := {| SingleFn.lg_level := x; SingleFn.lg_tags := ts;
                       SingleFn.lg_destinations := dests;
                       SingleFn.lg_logFunction := f |} in
      SingleFn.shouldBeLogged (this l) level tags = Ok true ->
      SingleFn.shouldBeLogged (this l') level tags = Ok true
      /\ SingleFn.doLog P (this l') level tags format optionalParams now sinks
         = SingleFn.doLog P (this l) level tags format optionalParams now sinks)
  /\ (forall (ts : list string) (dests : list Stream) (fns : list MultiFn.LogFn)
      (now : MultiFn.Date),
      let this x := {| MultiFn.lg_level := x; MultiFn.lg_tags := ts;
                       MultiFn.lg_destinations := dests;
                       MultiFn.lg_logFunctions := fns |} in
      MultiFn.shouldBeLogged (this l) level tags = Ok true ->
      MultiFn.shouldBeLogged (this l') level tags = Ok true
      /\ MultiFn.doLog P (this l') level tags format optionalParams now sinks
         = MultiFn.doLog P (this l) level tags format optionalParams now sinks).
Proof.
  intros Ha Ha' Hle. split.
  - intros ts dests f now this Hlog.
    assert (Hlog' : SingleFn.shouldBeLogged (this l') level tags = Ok true).
    { rewrite shouldBeLogged_spec in *. subst this.
      cbn [SingleFn.lg_level] in *. rewrite Ha in Hlog. rewrite Ha'.
      injection Hlog as Hlog. f_equal. exact (filter_monotone _ _ _ _ Hle Hlog). }
    split; [exact Hlog'|].
    unfold SingleFn.doLog. rewrite Hlog, Hlog'. reflexivity.
  - intros ts dests fns now this Hlog.
    assert (Hlog' : MultiFn.shouldBeLogged (this l') level tags = Ok true).
    { rewrite shouldBeLogged_multi_spec in *. subst this.
      cbn [MultiFn.lg_level] in *. rewrite Ha in Hlog. rewrite Ha'.
      injection Hlog as Hlog. f_equal. exact (filter_monotone _ _ _ _ Hle Hlog). }
    split; [exact Hlog'|].
    unfold MultiFn.doLog. rewrite Hlog, Hlog'. reflexivity.
Qed.

Lemma raising_verbosity_keeps_messages_witness :
  level_of (toUpperCase "warn") = Some WARN
  /\ level_of (toUpperCase "DEBUG") = Some DEBUG
  /\ position WARN <= position DEBUG
  /\ SingleFn.shouldBeLogged (sample_logger "warn" ["test.js"]) "ERROR" (JsArray [])
     = Ok true
  /\ SingleFn.doLog posix (sample_logger "DEBUG" ["test.js"]) "ERROR" (JsArray [])
       (JsString "boom") [] "2016-05-01T15:35:19.997Z" ∅
     = SingleFn.doLog posix (sample_logger "warn" ["test.js"]) "ERROR" (JsArray [])
         (JsString "boom") [] "2016-05-01T15:35:19.997Z" ∅.
Proof.
  assert (H1 : level_of (toUpperCase "warn") = Some WARN) by reflexivity.
  assert (H2 : level_of (toUpperCase "DEBUG") = Some DEBUG) by reflexivity.
  assert (H3 : position WARN <= position DEBUG) by (simpl; lia).
  assert (H4 : SingleFn.shouldBeLogged (sample_logger "warn" ["test.js"]) "ERROR"
                 (JsArray []) = Ok true) by reflexivity.
  split; [exact H1|]. split; [exact H2|]. split; [exact H3|]. split; [exact H4|].
  exact (proj2 (proj1 (raising_verbosity_keeps_messages posix "warn" "DEBUG"
                         WARN DEBUG "ERROR" (JsArray []) (JsString "boom") [] ∅
                         H1 H2 H3)
                  ["test.js"] [capture0; capture1] SingleFn.allDest0WarnDest1_fn
                  "2016-05-01T15:35:19.997Z" H4)).
Defined.

(** ** Loggers that the constructor made *)

Lemma new_Logger_level (P : Process) (options : SingleFn.LoggerOptions)
    (tags : list string) (w w' : SingleFn.World) (this : SingleFn.Logger) :
  SingleFn.new_Logger P options tags w = (Ok this, w') ->
  exists a, level_of (toUpperCase (SingleFn.lg_level this)) = Some a.
Proof.
  unfold SingleFn.new_Logger. rewrite checkLoglevel_level_of.
  destruct (level_of (default _ (SingleFn.opt_level options))) as [a|] eqn:E;
    [|discriminate].
  destruct (SingleFn.setDestinations P _ _) as [[dests|] n]; [|discriminate].
  destruct (SingleFn.setLogFunction _) as [f|]; [|discriminate].
  intros H. injection H as <- _. cbn [SingleFn.lg_level].
  exists a. rewrite <- (level_of_Some _ _ E), toUpperCase_token.
  apply level_of_token.
Qed.

Lemma new_Logger_multi_level (P : Process)
    (require_export : string -> string -> result (option MultiFn.LogFn))
    (options : MultiFn.LoggerOptions)
    (tags : list string) (w w' : MultiFn.World) (this : MultiFn.Logger) :
  MultiFn.new_Logger P require_export options tags w = (Ok this, w') ->
  exists a, level_of (toUpperCase (MultiFn.lg_level this)) = Some a.
Proof.
  unfold MultiFn.new_Logger. rewrite checkLoglevel_level_of.
  destruct (level_of (default _ (MultiFn.opt_level options))) as [a|] eqn:E;
    [|discriminate].
  destruct (MultiFn.setDestinations P _ _) as [[dests|] n]; [|discriminate].
  destruct (MultiFn.setLogFunctions _ _) as [f|]; [|discriminate].
  intros H. injection H as <- _. cbn [MultiFn.lg_level].
  exists a. rewrite <- (level_of_Some _ _ E), toUpperCase_token.
  apply level_of_token.
Qed.

Lemma create_new_Logger (P : Process) (c : Creation) (w w' : SingleFn.World)
    (this : SingleFn.Logger) :
  create P c w = (Ok this, w') ->
  exists options tags, SingleFn.new_Logger P options tags w = (Ok this, w').
Proof.
  destruct c as [caller options tags|caller config tags];
    unfold create, SingleFn.createFromArguments, SingleFn.createFromConfigFile;
    destruct (SingleFn.instance w) as [inst|]; intros H.
  - eexists _, _. exact H.
  - eexists _, _. exact H.
  - eexists _, _. exact H.
  - destruct config as [options|e]; [|discriminate].
    eexists _, _. exact H.
Qed.

(** X15: a Logger that the constructor made never throws when it is
    asked to log. The constructor accepts a level only if it is one of the
    five tokens as spelled, so on every Logger it returns (directly or
    through a creation operation) the four verbosity checks return a
    boolean and [doLog] returns the promise of its log function, whatever
    the level string, the tags and the arguments of the call. *)
Theorem constructed_logger_never_throws (P : Process) :
  (forall this : SingleFn.Logger,
      (exists options tags w w',
          SingleFn.new_Logger P options tags w = (Ok this, w'))
      \/ (exists c w w', create P c w = (Ok this, w')) ->
      (exists e wn i d : bool,
          SingleFn.isErrorOrVerboser this = Ok e
          /\ SingleFn.isWarnOrVerboser this = Ok wn
          /\ SingleFn.isInfoOrVerboser this = Ok i
          /\ SingleFn.isDebugOrVerboser this = Ok d)
      /\ forall level tags format optionalParams now sinks,
          exists c sinks',
            SingleFn.doLog P this level tags format optionalParams now sinks
            = Ok (c, sinks'))
  /\ (forall (require_export : string -> string -> result (option MultiFn.LogFn))
        (this : MultiFn.Logger),
      (exists options tags w w',
          MultiFn.new_Logger P require_export options tags w = (Ok this, w')) ->
      forall level tags format optionalParams now sinks,
        exists c sinks',
          MultiFn.doLog P this level tags format optionalParams now sinks
          = Ok (c, sinks')).
Proof.
  split.
  - intros this H.
    assert (Ha : exists a, level_of (toUpperCase (SingleFn.lg_level this)) = Some a).
    { destruct H as [(options & tags & w & w' & H)|(c & w & w' & H)].
      - exact (new_Logger_level P options tags w w' this H).
      - destruct (create_new_Logger P c w w' this H) as (options & tags & H').
        exact (new_Logger_level P options tags w w' this H'). }
    destruct Ha as [a Ha]. split.
    + unfold SingleFn.isErrorOrVerboser, SingleFn.isWarnOrVerboser,
        SingleFn.isInfoOrVerboser, SingleFn.isDebugOrVerboser.
      rewrite !isFirst_position, Ha. eexists _, _, _, _. repeat split.
    + intros level tags format optionalParams now sinks.
      unfold SingleFn.doLog. rewrite shouldBeLogged_spec, Ha. cbn [rbind].
      destruct (SingleFn.call P _ _ _ _ sinks) as [c sinks'].
      exists c, sinks'. reflexivity.
  - intros require_export this (options & tags0 & w & w' & H)
      level tags format optionalParams now sinks.
    destruct (new_Logger_multi_level P require_export options tags0 w w' this H)
      as [a Ha].
    unfold MultiFn.doLog. rewrite shouldBeLogged_multi_spec, Ha. cbn [rbind].
    destruct (MultiFn.callAll P _ _ _ _ sinks) as [cs sinks'].
    eexists _, _. reflexivity.
Qed.

Lemma constructed_logger_never_throws_witness :
  exists this c sinks',
    SingleFn.new_Logger posix no_options ["test.js"]
      {| SingleFn.instance := None; SingleFn.opened := 0 |}
    = (Ok this, {| SingleFn.instance := Some this; SingleFn.opened := 0 |})
    /\ SingleFn.doLog posix this "verbose" (JsArray []) (JsString "hello") []
         "2016-05-01T15:35:19.997Z" ∅
       = Ok (c, sinks').
Proof.
  eexists.
  assert (H : SingleFn.new_Logger posix no_options ["test.js"]
                {| SingleFn.instance := None; SingleFn.opened := 0 |}
              = (Ok _, {| SingleFn.instance := Some _; SingleFn.opened := 0 |}))
    by (vm_compute; reflexivity).
  destruct (proj2 (proj1 (constructed_logger_never_throws posix) _
                     (or_introl (ex_intro _ _ (ex_intro _ _ (ex_intro _ _
                        (ex_intro _ _ H))))))
              "verbose" (JsArray []) (JsString "hello") []
              "2016-05-01T15:35:19.997Z" ∅) as (c & sinks' & Hlog).
  exists c, sinks'. split; [exact H | exact Hlog].
Defined.

(** ** Files are opened by the first Logger only *)

Lemma create_keeps_opened (P : Process) (c : Creation) (w : SingleFn.World)
    (prev : SingleFn.Logger) :
  SingleFn.instance w = Some prev ->
  match create P c w with
  | (Ok this, w') =>
      SingleFn.opened w' = SingleFn.opened w
      /\ SingleFn.instance w' = Some this
      /\ SingleFn.lg_destinations this = SingleFn.lg_destinations prev
  | (Throw _, w') => w' = w
  end.
Proof.
  intros Hw. rewrite (create_with_instance P c w prev Hw), new_Logger_getOptions.
  destruct (level_of (SingleFn.lg_level prev)); [|reflexivity].
  destruct (forallb instanceofWritable (SingleFn.lg_destinations prev));
    [|reflexivity].
  repeat split.
Qed.

(** X16: files are opened by the first Logger only. Once
    [Logger.instance] is set, no sequence of creation operations, the
    calls that throw included, opens a file or clears the instance:
    whatever destinations the options or configuration files of these
    calls name, the number of file streams opened stays what it was, and
    every Logger constructed writes to the stream objects of the one
    before. *)
Theorem files_opened_by_first_logger (P : Process) (cs : list Creation)
    (w : SingleFn.World) (prev : SingleFn.Logger) :
  SingleFn.instance w = Some prev ->
  SingleFn.opened (create_world P cs w) = SingleFn.opened w
  /\ (exists last, SingleFn.instance (create_world P cs w) = Some last
                   /\ SingleFn.lg_destinations last = SingleFn.lg_destinations prev)
  /\ Forall (fun this => SingleFn.lg_destinations this = SingleFn.lg_destinations prev)
       (create_all P cs w).
Proof.
  revert w prev. induction cs as [|c cs IH]; intros w prev Hw.
  - split; [reflexivity|]. split; [|constructor]. exists prev. split; [exact Hw|reflexivity].
  - cbn [create_world create_all].
    pose proof (create_keeps_opened P c w prev Hw) as Hc.
    destruct (create P c w) as [[this|e] w'].
    + destruct Hc as (Ho & Hi & Hd).
      destruct (IH w' this Hi) as (Ho' & (last & Hl & Hld) & Hall).
      split; [congruence|]. split.
      * exists last. split; [exact Hl|congruence].
      * constructor; [exact Hd|].
        eapply Forall_impl; [exact Hall|]. cbn beta. intros x Hx. congruence.
    + subst w'. exact (IH w prev Hw).
Qed.

Lemma files_opened_by_first_logger_witness :
  SingleFn.opened
    (create_world posix
       [FromArguments "a.js"
          {| SingleFn.opt_level := None;
             SingleFn.opt_destinations := Some [DestString "app.log"];
             SingleFn.opt_logFunction := None;
             SingleFn.opt_tags := None |} []]
       {| SingleFn.instance := Some (sample_logger "INFO" ["main.js"]);
          SingleFn.opened := 0 |})
  = 0%nat.
Proof.
  exact (proj1 (files_opened_by_first_logger posix
                  [FromArguments "a.js"
                     {| SingleFn.opt_level := None;
                        SingleFn.opt_destinations := Some [DestString "app.log"];
                        SingleFn.opt_logFunction := None;
                        SingleFn.opt_tags := None |} []]
                  {| SingleFn.instance := Some (sample_logger "INFO" ["main.js"]);
                     SingleFn.opened := 0 |}
                  (sample_logger "INFO" ["main.js"]) eq_refl)).
Defined.

(** ** Log functions given by name *)

Lemma before_colon_no_colon (s : string) : after_colon (before_colon s) = None.
Proof.
  induction s as [|c s IH]; [reflexivity|].
  cbn [before_colon]. destruct (Ascii.eqb c ":") eqn:E; [reflexivity|].
  cbn [after_colon]. rewrite E. exact IH.
Qed.

Lemma split_at_colon (s : string) :
  match after_colon s with
  | Some rest => s = before_colon s +:+ String ":" rest
  | None => s = before_colon s
  end.
Proof.
  induction s as [|c s IH]; [reflexivity|].
  cbn [after_colon before_colon]. destruct (Ascii.eqb c ":") eqn:E.
  - apply Ascii.eqb_eq in E. subst c. rewrite append_nil_l. reflexivity.
  - destruct (after_colon s) as [rest|].
    + rewrite append_cons. f_equal. exact IH.
    + f_equal. exact IH.
Qed.

Lemma append_nil_r (s : string) : s +:+ "" = s.
Proof.
  induction s as [|c s IH]; [reflexivity|]. rewrite append_cons, IH. reflexivity.
Qed.

Lemma tryParseCustomLogFnPath_Some
    (require_export : string -> string -> result (option MultiFn.LogFn))
    (name : string) (f : MultiFn.LogFn) :
  MultiFn.tryParseCustomLogFnPath require_export name = Ok (Some f) ->
  exists modulePath fnName tail : string,
    name = modulePath +:+ (String ":" (fnName +:+ tail))
    /\ after_colon modulePath = None
    /\ after_colon fnName = None
    /\ (tail = "" \/ exists t, tail = String ":" t)
    /\ require_export modulePath fnName = Ok (Some f).
Proof.
  unfold MultiFn.tryParseCustomLogFnPath.
  pose proof (split_at_colon name) as Hname.
  destruct (after_colon name) as [rest|]; [|discriminate].
  destruct (require_export (before_colon name) (before_colon rest))
    as [[g|]|e] eqn:E; cbn [rbind]; try discriminate.
  intros H. injection H as <-.
  pose proof (split_at_colon rest) as Hrest.
  exists (before_colon name), (before_colon rest).
  destruct (after_colon rest) as [t|].
  - exists (String ":" t). split; [rewrite <- Hrest; exact Hname|].
    split; [apply before_colon_no_colon|]. split; [apply before_colon_no_colon|].
    split; [right; exists t; reflexivity|exact E].
  - exists "". split; [rewrite append_nil_r, <- Hrest; exact Hname|].
    split; [apply before_colon_no_colon|]. split; [apply before_colon_no_colon|].
    split; [left; reflexivity|exact E].
Qed.

(** X17: what [setLogFunctions] registers. When it returns, it has
    registered one log function for each element of the option, in the
    order of the option: a function value as it is;
    [LogFunction.defaultText] for the name of either built-in; for any
    other name, the export that the name designates, the name being cut at
    its first colon into the path of the module and the name of the export
    (which ends at the next colon). No other name is ever accepted. *)
Theorem setLogFunctions_in_order
    (require_export : string -> string -> result (option MultiFn.LogFn))
    (logFunctions : list MultiFn.LogFnOption) (fns : list MultiFn.LogFn) :
  MultiFn.setLogFunctions require_export logFunctions = Ok fns ->
  Forall2 (registered_as require_export) logFunctions fns.
Proof.
  revert fns. induction logFunctions as [|o l IH]; intros fns H.
  - injection H as <-. constructor.
  - cbn [MultiFn.setLogFunctions] in H.
    destruct o as [name|g|].
    + destruct (String.eqb name MultiFn.defaultText_name) eqn:E1.
      * cbn [rbind] in H.
        destruct (MultiFn.setLogFunctions require_export l) as [fs|];
          [|discriminate].
        cbn [rbind] in H. injection H as <-.
        constructor; [|exact (IH fs eq_refl)].
        left. split; [|reflexivity]. left. apply String.eqb_eq. exact E1.
      * destruct (String.eqb name MultiFn.defaultJson_name) eqn:E2.
        -- cbn [rbind] in H.
           destruct (MultiFn.setLogFunctions require_export l) as [fs|];
             [|discriminate].
           cbn [rbind] in H. injection H as <-.
           constructor; [|exact (IH fs eq_refl)].
           left. split; [|reflexivity]. right. apply String.eqb_eq. exact E2.
        -- destruct (MultiFn.tryParseCustomLogFnPath require_export name)
             as [[f|]|e] eqn:E; cbn [rbind] in H; try discriminate.
           destruct (MultiFn.setLogFunctions require_export l) as [fs|];
             [|discriminate].
           cbn [rbind] in H. injection H as <-.
           constructor; [|exact (IH fs eq_refl)].
           right. apply String.eqb_neq in E1. apply String.eqb_neq in E2.
           split; [exact E1|]. split; [exact E2|].
           exact (tryParseCustomLogFnPath_Some require_export name f E).
    + cbn [rbind] in H.
      destruct (MultiFn.setLogFunctions require_export l) as [fs|]; [|discriminate].
      cbn [rbind] in H. injection H as <-.
      constructor; [reflexivity|exact (IH fs eq_refl)].
    + discriminate.
Qed.

Lemma setLogFunctions_in_order_witness :
  Forall2 (registered_as (fun _ _ => Ok None))
    [MultiFn.FnValue MultiFn.LogFunction_defaultJson; MultiFn.FnName "defaultJson"]
    [MultiFn.LogFunction_defaultJson; MultiFn.LogFunction_defaultText].
Proof.
  apply (setLogFunctions_in_order (fun _ _ => Ok None)
           [MultiFn.FnValue MultiFn.LogFunction_defaultJson;
            MultiFn.FnName "defaultJson"]).
  reflexivity.
Defined.
